(** * NMSDK scene-node objects: a shallow embedding of [classes/Object.py]

    The Python module defines a base class [Object] and seven subclasses
    (Locator, Joint, Emitter, Mesh, Collision, Model, Reference).  Objects are
    linked into a tree with [add_child], which also registers mesh-bearing
    children on the parentless node at the end of the [Parent] chain, and
    [construct_data] turns the tree into nested [TkSceneNodeData] records.

    Objects are mutable and referenced from several places (a child is in its
    parent's [Children], the parent is in the child's [Parent], a mesh is in
    the root's [ListOfMeshes]), so the embedding keeps them in a store indexed
    by addresses and writes every method as a computation over that store
    which either returns or raises, keeping the mutations made so far. *)

From Stdlib Require Import ZArith Lia.
From stdpp Require Import base option list gmap strings.

Set Warnings "-register-all".

Local Open Scope string_scope.
Local Open Scope list_scope.
Local Open Scope nat_scope.

(** ** Python values *)

(** The values the module only stores and passes on: keyword arguments, the
    entries of the external data mapping, attribute values.  A float is kept
    as the decimal it was written as ([PyFloat 25 (-1)] is [2.5]); the module
    never computes with one.  [PyObj e] is the instance that the constructor
    call [e] returns, for the helper structs the module instantiates but does
    not define. *)
Inductive pyval : Type :=
  | PyNone
  | PyBool (b : bool)
  | PyInt (z : Z)
  | PyFloat (mantissa exponent : Z)
  | PyStr (s : string)
  | PyObj (e : string).

(** [v is not None]. *)
Definition is_not_None (v : pyval) : bool :=
  match v with PyNone => false | _ => true end.

(** [v == s] for a string literal [s]. *)
Definition py_eq_str (v : pyval) (s : string) : bool :=
  match v with PyStr t => bool_decide (t = s) | _ => false end.

(** [**kwargs] and the [data] mappings are dictionaries with string keys. *)
Abbreviation pydict := (gmap string pyval).

(** [d.get(key, dflt)]. *)
Definition dict_get (d : pydict) (key : string) (dflt : pyval) : pyval :=
  default dflt (d !! key).

(** ** Exceptions and outcomes *)

Inductive exn : Type :=
  | AttributeError (attr : string)
  | KeyError (key : string)
  | TypeError
  | RecursionError
  | DanglingReference.
(** [DanglingReference] is not a Python exception: it is what the embedding
    answers when an address is looked up outside the store, which no Python
    reference can be.  [RecursionError] is raised when nested calls exceed the
    interpreter's recursion limit, the [fuel] of the recursive methods below. *)

Inductive outcome (A : Type) : Type :=
  | Ret (a : A)
  | Raise (e : exn).
Arguments Ret {A} a.
Arguments Raise {A} e.

(** A method body over a mutable state [S]: the state it leaves is kept
    whether it returns or raises. *)
Definition M (S A : Type) : Type := S -> outcome A * S.

Definition ret {S A} (a : A) : M S A := fun s => (Ret a, s).
Definition raise {S A} (e : exn) : M S A := fun s => (Raise e, s).
Definition bind {S A B} (m : M S A) (k : A -> M S B) : M S B :=
  fun s => match m s with
           | (Ret a, s') => k a s'
           | (Raise e, s') => (Raise e, s')
           end.
Definition get {S} : M S S := fun s => (Ret s, s).
Definition put {S} (s : S) : M S unit := fun _ => (Ret tt, s).
Definition modify {S} (f : S -> S) : M S unit := fun s => (Ret tt, f s).

Declare Scope py_scope.
Delimit Scope py_scope with py.
Notation "x <- m ;; k" := (bind m (fun x => k))
  (at level 100, m at next level, right associativity) : py_scope.
Notation "m ;; k" := (bind m (fun _ => k))
  (at level 100, right associativity) : py_scope.

(** [for x in xs: body x]. *)
Fixpoint for_each {S A} (xs : list A) (body : A -> M S unit) : M S unit :=
  match xs with
  | [] => ret tt
  | x :: xs' => bind (body x) (fun _ => for_each xs' body)
  end.

(** ** The helper structs *)

(** Modelled from the spec: [TkSceneNodeAttributeData] is imported from a
    module that is not part of the sources; the spec describes an attribute as
    a (name, value) pair, built here from the [Name] and [Value] keywords. *)
Record TkSceneNodeAttributeData : Type := mkAttribute {
  attr_Name : string;
  attr_Value : pyval
}.

(** Modelled from the spec: [List] is imported from a module that is not part
    of the sources; the spec describes it as an ordered sequence, built from
    its arguments and extended at the end by [append]. *)
Abbreviation List := list (only parsing).

(** Modelled from the spec: [TkSceneNodeData] is imported from a module that
    is not part of the sources; the spec gives the output record the fields
    name, type, transform, attributes (a sequence or null) and children (a
    sequence or null).  An element of [Children] is whatever [get_data]
    returned for the child, which Python allows to be [None]. *)
Inductive TkSceneNodeData : Type := mkNodeData {
  nd_Name : string;
  nd_Type : string;
  nd_Transform : pyval;
  nd_Attributes : option (List TkSceneNodeAttributeData);
  nd_Children : option (List (option TkSceneNodeData))
}.

(** Modelled from the spec: [TkTransformData()] and
    [TkMaterialData(Name="EMPTY")] are default values of classes that are not
    part of the sources; they are opaque to this module. *)
Definition TkTransformData : pyval := PyObj "TkTransformData()".
Definition TkMaterialData_EMPTY : pyval := PyObj "TkMaterialData(Name='EMPTY')".

(** ** Classes and instances *)

Inductive klass : Type :=
  | KObject | KLocator | KJoint | KEmitter | KMesh | KCollision | KModel
  | KReference.

#[global] Instance klass_eq_dec : EqDecision klass.
Proof. solve_decision. Defined.

(** [class Locator(Object)], [class Joint(Object)], ...: every subclass
    derives from [Object] directly. *)
Definition base_class (k : klass) : option klass :=
  match k with KObject => None | _ => Some KObject end.

(** [issubclass(k, c)]. *)
Definition issubclass (k c : klass) : bool :=
  bool_decide (k = c) || bool_decide (base_class k = Some c).

Abbreviation addr := nat.

(** An instance.  The attributes every method reads are fields; an attribute
    that an instance may lack is an [option] ([None] when the instance has no
    such attribute).  [Child_Nodes] is assigned before it is read, so a
    missing [Child_Nodes] and one set to Python's [None] are not told apart.
    The remaining instance attributes ([Vertices], [Indexes], [Material],
    [UVs], [Normals], [Tangents], [CType], [Width], [Height], [Depth],
    [Radius], [Scenegraph], [hasAttachment]) live in [dict_]. *)
Record Object : Type := mkObject {
  class_ : klass;
  Transform : pyval;
  Attributes : option (List TkSceneNodeAttributeData);
  Children : list addr;
  Parent : option addr;
  IsMesh : bool;
  NodeData : option TkSceneNodeData;
  ID : pyval;
  provided_streams : gset string;
  Name : option string;
  _Type : option string;
  ListOfMeshes : option (list addr);
  Child_Nodes : option (List (option TkSceneNodeData));
  dict_ : pydict
}.

Definition with_Attributes (v : option (List TkSceneNodeAttributeData)) (o : Object) : Object :=
  mkObject (class_ o) (Transform o) v (Children o) (Parent o) (IsMesh o)
    (NodeData o) (ID o) (provided_streams o) (Name o) (_Type o)
    (ListOfMeshes o) (Child_Nodes o) (dict_ o).
Definition with_Children (v : list addr) (o : Object) : Object :=
  mkObject (class_ o) (Transform o) (Attributes o) v (Parent o) (IsMesh o)
    (NodeData o) (ID o) (provided_streams o) (Name o) (_Type o)
    (ListOfMeshes o) (Child_Nodes o) (dict_ o).
Definition with_Parent (v : option addr) (o : Object) : Object :=
  mkObject (class_ o) (Transform o) (Attributes o) (Children o) v (IsMesh o)
    (NodeData o) (ID o) (provided_streams o) (Name o) (_Type o)
    (ListOfMeshes o) (Child_Nodes o) (dict_ o).
Definition with_IsMesh (v : bool) (o : Object) : Object :=
  mkObject (class_ o) (Transform o) (Attributes o) (Children o) (Parent o) v
    (NodeData o) (ID o) (provided_streams o) (Name o) (_Type o)
    (ListOfMeshes o) (Child_Nodes o) (dict_ o).
Definition with_NodeData (v : option TkSceneNodeData) (o : Object) : Object :=
  mkObject (class_ o) (Transform o) (Attributes o) (Children o) (Parent o)
    (IsMesh o) v (ID o) (provided_streams o) (Name o) (_Type o)
    (ListOfMeshes o) (Child_Nodes o) (dict_ o).
Definition with_provided_streams (v : gset string) (o : Object) : Object :=
  mkObject (class_ o) (Transform o) (Attributes o) (Children o) (Parent o)
    (IsMesh o) (NodeData o) (ID o) v (Name o) (_Type o)
    (ListOfMeshes o) (Child_Nodes o) (dict_ o).
Definition with_Name (v : option string) (o : Object) : Object :=
  mkObject (class_ o) (Transform o) (Attributes o) (Children o) (Parent o)
    (IsMesh o) (NodeData o) (ID o) (provided_streams o) v (_Type o)
    (ListOfMeshes o) (Child_Nodes o) (dict_ o).
Definition with_Type (v : option string) (o : Object) : Object :=
  mkObject (class_ o) (Transform o) (Attributes o) (Children o) (Parent o)
    (IsMesh o) (NodeData o) (ID o) (provided_streams o) (Name o) v
    (ListOfMeshes o) (Child_Nodes o) (dict_ o).
Definition with_ListOfMeshes (v : option (list addr)) (o : Object) : Object :=
  mkObject (class_ o) (Transform o) (Attributes o) (Children o) (Parent o)
    (IsMesh o) (NodeData o) (ID o) (provided_streams o) (Name o) (_Type o)
    v (Child_Nodes o) (dict_ o).
Definition with_Child_Nodes (v : option (List (option TkSceneNodeData))) (o : Object) : Object :=
  mkObject (class_ o) (Transform o) (Attributes o) (Children o) (Parent o)
    (IsMesh o) (NodeData o) (ID o) (provided_streams o) (Name o) (_Type o)
    (ListOfMeshes o) v (dict_ o).
(** [self.<attr> = v] for the attributes kept in [dict_]. *)
Definition setattr (attr : string) (v : pyval) (o : Object) : Object :=
  mkObject (class_ o) (Transform o) (Attributes o) (Children o) (Parent o)
    (IsMesh o) (NodeData o) (ID o) (provided_streams o) (Name o) (_Type o)
    (ListOfMeshes o) (Child_Nodes o) (<[attr := v]> (dict_ o)).

(** [self.<attr>] for the attributes kept in [dict_]. *)
Definition getattr (attr : string) : M Object pyval :=
  fun self => match dict_ self !! attr with
              | Some v => (Ret v, self)
              | None => (Raise (AttributeError attr), self)
              end.

(** ** Constructors *)

(** A constructor is given the name and the dictionary that Python binds to
    [kwargs]; the keys [self] and [Name] cannot occur in it, since the call
    would not reach the body with them.  It returns the new instance, or
    raises. *)

(** [Object.__init__(self, kwargs)], for a new instance of class [k]. *)
Definition Object_init (k : klass) (kwargs : pydict) : Object :=
  {| class_ := k;
     Transform := dict_get kwargs "Transform" TkTransformData;
     Attributes := None;
     Children := [];
     Parent := None;
     IsMesh := false;
     NodeData := None;
     ID := PyNone;
     provided_streams := ∅;
     Name := None;
     _Type := None;
     ListOfMeshes := None;
     Child_Nodes := None;
     dict_ := ∅ |}.

(** [super(c, self).__init__(kwargs)] inside the constructor of class [k]:
    Python checks that [self] is an instance of [c] and raises [TypeError]
    otherwise; the initializer after [c] in the method resolution order is
    that of [Object], the only base class there is. *)
Definition super_init (c k : klass) (kwargs : pydict) : outcome Object :=
  if issubclass k c then Ret (Object_init k kwargs) else Raise TypeError.

Definition omap_outcome {A B} (f : A -> B) (o : outcome A) : outcome B :=
  match o with Ret a => Ret (f a) | Raise e => Raise e end.

Definition stream_names : list string :=
  ["Vertices"; "Indexes"; "UVs"; "Normals"; "Tangents"].

(** [Object.determine_included_streams].  None of the five names is one of
    the record's own fields, so [self.__dict__.get(name, None)] reads
    [dict_]. *)
Definition determine_included_streams (self : Object) : Object :=
  foldl (fun self name =>
           if is_not_None (dict_get (dict_ self) name PyNone)
           then with_provided_streams (provided_streams self ∪ {[ name ]}) self
           else self)
        self stream_names.

Definition Locator_init (name : string) (kwargs : pydict) : outcome Object :=
  omap_outcome
    (fun self =>
       let self := with_Name (Some name) self in
       let self := with_Type (Some "LOCATOR") self in
       setattr "hasAttachment" (dict_get kwargs "ATTACHMENT" (PyBool false)) self)
    (super_init KLocator KLocator kwargs).

Definition Joint_init (name : string) (kwargs : pydict) : outcome Object :=
  omap_outcome
    (fun self =>
       let self := with_Name (Some name) self in
       with_Type (Some "JOINT") self)
    (super_init KLocator KJoint kwargs).

Definition Emitter_init (name : string) (kwargs : pydict) : outcome Object :=
  omap_outcome
    (fun self =>
       let self := with_Name (Some name) self in
       with_Type (Some "EMITTER") self)
    (super_init KLocator KEmitter kwargs).

Definition Mesh_init (name : string) (kwargs : pydict) : outcome Object :=
  omap_outcome
    (fun self =>
       let self := with_Name (Some name) self in
       let self := with_Type (Some "MESH") self in
       let self := setattr "Vertices" (dict_get kwargs "Vertices" PyNone) self in
       let self := setattr "Indexes" (dict_get kwargs "Indexes" PyNone) self in
       let self := setattr "Material" (dict_get kwargs "Material" TkMaterialData_EMPTY) self in
       let self := setattr "UVs" (dict_get kwargs "UVs" PyNone) self in
       let self := setattr "Normals" (dict_get kwargs "Normals" PyNone) self in
       let self := setattr "Tangents" (dict_get kwargs "Tangents" PyNone) self in
       let self := with_IsMesh true self in
       determine_included_streams self)
    (super_init KMesh KMesh kwargs).

Definition Collision_init (name : string) (kwargs : pydict) : outcome Object :=
  omap_outcome
    (fun self =>
       let self := with_Name (Some name) self in
       let self := with_Type (Some "COLLISION") self in
       let CType := dict_get kwargs "CollisionType" (PyStr "Mesh") in
       let self := setattr "CType" CType self in
       if py_eq_str CType "Mesh" then
         let self := with_IsMesh true self in
         let self := setattr "Vertices" (dict_get kwargs "Vertices" PyNone) self in
         let self := setattr "Indexes" (dict_get kwargs "Indexes" PyNone) self in
         let self := setattr "Material" PyNone self in
         let self := setattr "UVs" (dict_get kwargs "UVs" PyNone) self in
         let self := setattr "Normals" (dict_get kwargs "Normals" PyNone) self in
         let self := setattr "Tangents" (dict_get kwargs "Tangents" PyNone) self in
         determine_included_streams self
       else
         let self := setattr "Width" (dict_get kwargs "Width" (PyInt 0)) self in
         let self := setattr "Height" (dict_get kwargs "Height" (PyInt 0)) self in
         let self := setattr "Depth" (dict_get kwargs "Depth" (PyInt 0)) self in
         setattr "Radius" (dict_get kwargs "Radius" (PyInt 0)) self)
    (super_init KCollision KCollision kwargs).

Definition Model_init (name : string) (kwargs : pydict) : outcome Object :=
  omap_outcome
    (fun self =>
       let self := with_Name (Some name) self in
       let self := with_Type (Some "MODEL") self in
       with_ListOfMeshes (Some []) self)
    (super_init KModel KModel kwargs).

Definition Reference_default_Scenegraph : string :=
  "Enter in the path of the SCENE.MBIN you want to reference here.".

Definition Reference_init (name : string) (kwargs : pydict) : outcome Object :=
  omap_outcome
    (fun self =>
       let self := with_Name (Some name) self in
       let self := with_Type (Some "REFERENCE") self in
       setattr "Scenegraph"
         (dict_get kwargs "Scenegraph" (PyStr Reference_default_Scenegraph)) self)
    (super_init KReference KReference kwargs).

(** The constructor of each variant. *)
Inductive variant : Type :=
  | Mesh | Locator | Joint | Emitter | Collision | Model | Reference.

Definition Construct (v : variant) : string -> pydict -> outcome Object :=
  match v with
  | Mesh => Mesh_init
  | Locator => Locator_init
  | Joint => Joint_init
  | Emitter => Emitter_init
  | Collision => Collision_init
  | Model => Model_init
  | Reference => Reference_init
  end.

Definition variant_class (v : variant) : klass :=
  match v with
  | Mesh => KMesh | Locator => KLocator | Joint => KJoint
  | Emitter => KEmitter | Collision => KCollision | Model => KModel
  | Reference => KReference
  end.

Definition variant_tag (v : variant) : string :=
  match v with
  | Mesh => "MESH" | Locator => "LOCATOR" | Joint => "JOINT"
  | Emitter => "EMITTER" | Collision => "COLLISION" | Model => "MODEL"
  | Reference => "REFERENCE"
  end.

(** ** Attribute creation *)

(** [data[key]]: [data] is the mapping handed to [create_attributes], or
    [None]. *)
Definition subscript {S} (data : option pydict) (key : string) : M S pyval :=
  match data with
  | None => raise TypeError
  | Some d => match d !! key with
              | Some v => ret v
              | None => raise (KeyError key)
              end
  end.

Definition set_Attributes (l : List TkSceneNodeAttributeData) : M Object unit :=
  modify (with_Attributes (Some l)).

(** [self.Attributes.append(TkSceneNodeAttributeData(Name = n, Value = v))],
    where [v] is computed after [self.Attributes.append] has been looked up. *)
Definition Attributes_append (n : string) (v : M Object pyval) : M Object unit :=
  (self <- get ;;
   match Attributes self with
   | None => raise (AttributeError "append")
   | Some _ =>
       x <- v ;;
       self <- get ;;
       match Attributes self with
       | None => raise (AttributeError "append")
       | Some l => put (with_Attributes (Some (l ++ [mkAttribute n x])) self)
       end
   end)%py.

Definition get_Name : M Object string :=
  fun self => match Name self with
              | Some n => (Ret n, self)
              | None => (Raise (AttributeError "Name"), self)
              end.

Definition Locator_create_attributes (data : option pydict) : M Object unit :=
  (if data is Some _ then
     v <- subscript data "ATTACHMENT" ;;
     set_Attributes [mkAttribute "ATTACHMENT" v]
   else ret tt)%py.

Definition Joint_create_attributes (data : option pydict) : M Object unit :=
  (if data is Some _ then
     v <- subscript data "JOINTINDEX" ;;
     set_Attributes [mkAttribute "JOINTINDEX" v]
   else ret tt)%py.

Definition Emitter_create_attributes (data : option pydict) : M Object unit :=
  (if data is Some _ then
     m <- subscript data "MATERIAL" ;;
     d <- subscript data "DATA" ;;
     set_Attributes [mkAttribute "MATERIAL" m; mkAttribute "DATA" d]
   else ret tt)%py.

Definition Mesh_create_attributes (data : option pydict) : M Object unit :=
  (batchstart <- subscript data "BATCHSTART" ;;
   batchcount <- subscript data "BATCHCOUNT" ;;
   vertrstart <- subscript data "VERTRSTART" ;;
   vertrend <- subscript data "VERTREND" ;;
   material <- subscript data "MATERIAL" ;;
   name <- get_Name ;;
   attachment <- subscript data "ATTACHMENT" ;;
   set_Attributes
     [mkAttribute "BATCHSTART" batchstart;
      mkAttribute "BATCHCOUNT" batchcount;
      mkAttribute "VERTRSTART" vertrstart;
      mkAttribute "VERTREND" vertrend;
      mkAttribute "FIRSTSKINMAT" (PyInt 0);
      mkAttribute "LASTSKINMAT" (PyInt 0);
      mkAttribute "MATERIAL" material;
      mkAttribute "MESHLINK" (PyStr (name +:+ "Shape"));
      mkAttribute "ATTACHMENT" attachment])%py.

Definition Collision_create_attributes (data : option pydict) : M Object unit :=
  (ctype <- getattr "CType" ;;
   set_Attributes [mkAttribute "TYPE" ctype] ;;
   ctype <- getattr "CType" ;;
   if py_eq_str ctype "Mesh" then
     Attributes_append "BATCHSTART" (subscript data "BATCHSTART") ;;
     Attributes_append "BATCHCOUNT" (subscript data "BATCHCOUNT") ;;
     Attributes_append "VERTRSTART" (subscript data "VERTRSTART") ;;
     Attributes_append "VERTREND" (subscript data "VERTREND") ;;
     Attributes_append "FIRSTSKINMAT" (ret (PyInt 0)) ;;
     Attributes_append "LASTSKINMAT" (ret (PyInt 0))
   else if py_eq_str ctype "Box" then
     Attributes_append "WIDTH" (subscript data "WIDTH") ;;
     Attributes_append "HEIGHT" (subscript data "HEIGHT") ;;
     Attributes_append "DEPTH" (subscript data "DEPTH")
   else if py_eq_str ctype "Sphere" then
     Attributes_append "RADIUS" (subscript data "RADIUS")
   else if py_eq_str ctype "Capsule" || py_eq_str ctype "Cylinder" then
     Attributes_append "RADIUS" (subscript data "RADIUS") ;;
     Attributes_append "HEIGHT" (subscript data "HEIGHT")
   else ret tt)%py.

Definition Model_create_attributes (data : option pydict) : M Object unit :=
  (v <- subscript data "GEOMETRY" ;;
   set_Attributes [mkAttribute "GEOMETRY" v])%py.

Definition Reference_create_attributes (data : option pydict) : M Object unit :=
  (v <- getattr "Scenegraph" ;;
   set_Attributes [mkAttribute "SCENEGRAPH" v])%py.

(** [self.create_attributes(data)]: the method of the instance's class.  The
    base class has none. *)
Definition create_attributes (data : option pydict) : M Object unit :=
  fun self =>
    match class_ self with
    | KObject => (Raise (AttributeError "create_attributes"), self)
    | KLocator => Locator_create_attributes data self
    | KJoint => Joint_create_attributes data self
    | KEmitter => Emitter_create_attributes data self
    | KMesh => Mesh_create_attributes data self
    | KCollision => Collision_create_attributes data self
    | KModel => Model_create_attributes data self
    | KReference => Reference_create_attributes data self
    end.

(** ** The object store *)

(** The instances that exist, by address, and a trace of the instants at which
    [construct_data] assigned a node's [NodeData] (oldest first).  The trace
    is bookkeeping of the embedding: the code does not read it. *)
Record State : Type := mkState {
  heap : list Object;
  built : list addr
}.

Definition deref (a : addr) : M State Object :=
  fun s => match heap s !! a with
           | Some o => (Ret o, s)
           | None => (Raise DanglingReference, s)
           end.

(** Mutation of the instance at [a]. *)
Definition update (a : addr) (f : Object -> Object) : M State unit :=
  fun s => match heap s !! a with
           | Some o => (Ret tt, mkState (<[a := f o]> (heap s)) (built s))
           | None => (Raise DanglingReference, s)
           end.

Definition log_built (a : addr) : M State unit :=
  modify (fun s => mkState (heap s) (built s ++ [a])).

(** [Object.give_parent]. *)
Definition give_parent (self parent : addr) : M State unit :=
  update self (with_Parent (Some parent)).

(** [Object.populate_meshlist]; [fuel] bounds the nesting of its calls. *)
Fixpoint populate_meshlist (fuel : nat) (self obj : addr) : M State unit :=
  match fuel with
  | O => raise RecursionError
  | S fuel' =>
      (o <- deref self ;;
       match Parent o with
       | Some parent => populate_meshlist fuel' parent obj
       | None =>
           match ListOfMeshes o with
           | Some l => update self (with_ListOfMeshes (Some (l ++ [obj])))
           | None => raise (AttributeError "ListOfMeshes")
           end
       end)%py
  end.

(** [Object.add_child]. *)
Definition add_child (fuel : nat) (self child : addr) : M State unit :=
  (update self (fun o => with_Children (Children o ++ [child]) o) ;;
   give_parent child self ;;
   c <- deref child ;;
   if IsMesh c then populate_meshlist fuel self child else ret tt)%py.

(** [Object.get_data]. *)
Definition get_data (self : addr) : M State (option TkSceneNodeData) :=
  (o <- deref self ;; ret (NodeData o))%py.

(** The attributes [construct_data] reads with [self.Name] and
    [self._Type], which the base class does not set. *)
Definition get_Name_of (self : addr) : M State string :=
  (o <- deref self ;;
   if Name o is Some n then ret n else raise (AttributeError "Name"))%py.
Definition get_Type_of (self : addr) : M State string :=
  (o <- deref self ;;
   if _Type o is Some t then ret t else raise (AttributeError "_Type"))%py.

(** [self.Child_Nodes.append(d)]. *)
Definition Child_Nodes_append (self : addr) (d : option TkSceneNodeData) : M State unit :=
  (o <- deref self ;;
   match Child_Nodes o with
   | Some l => update self (with_Child_Nodes (Some (l ++ [d])))
   | None => raise (AttributeError "append")
   end)%py.

(** [Object.construct_data]; [fuel] bounds the nesting of its calls.  The
    method has no [return] statement, so a call evaluates to Python's [None],
    written [None] in the type of [get_data]'s results. *)
Fixpoint construct_data (fuel : nat) (self : addr) : M State (option TkSceneNodeData) :=
  match fuel with
  | O => raise RecursionError
  | S fuel' =>
      (o <- deref self ;;
       (if negb (Nat.eqb (length (Children o)) 0) then
          update self (with_Child_Nodes (Some [])) ;;
          for_each (Children o) (fun child =>
            construct_data fuel' child ;;
            d <- get_data child ;;
            Child_Nodes_append self d)
        else
          update self (with_Child_Nodes None)) ;;
       name <- get_Name_of self ;;
       type <- get_Type_of self ;;
       o <- deref self ;;
       update self (with_NodeData
         (Some (mkNodeData name type (Transform o) (Attributes o) (Child_Nodes o)))) ;;
       log_built self ;;
       ret None)%py
  end.

(** ** Vocabulary of the specification *)

(** The attributes that the constructor of the instance's class assigns and
    that its methods read are present. *)
Definition initialized (self : Object) : bool :=
  bool_decide (is_Some (Name self)) && bool_decide (is_Some (_Type self)) &&
  match class_ self with
  | KObject => false
  | KCollision => bool_decide (is_Some (dict_ self !! "CType"))
  | KReference => bool_decide (is_Some (dict_ self !! "Scenegraph"))
  | _ => true
  end.

(** The external-data keys that the schema of the specification requires of
    each variant (for a Collision, of each sub-type), in emission order. *)
Definition Collision_required_keys (ctype : pyval) : list string :=
  if py_eq_str ctype "Mesh" then
    ["BATCHSTART"; "BATCHCOUNT"; "VERTRSTART"; "VERTREND"]
  else if py_eq_str ctype "Box" then ["WIDTH"; "HEIGHT"; "DEPTH"]
  else if py_eq_str ctype "Sphere" then ["RADIUS"]
  else if py_eq_str ctype "Capsule" || py_eq_str ctype "Cylinder" then
    ["RADIUS"; "HEIGHT"]
  else [].

Definition required_keys (self : Object) : list string :=
  match class_ self with
  | KObject => []
  | KLocator => ["ATTACHMENT"]
  | KJoint => ["JOINTINDEX"]
  | KEmitter => ["MATERIAL"; "DATA"]
  | KMesh =>
      ["BATCHSTART"; "BATCHCOUNT"; "VERTRSTART"; "VERTREND"; "MATERIAL";
       "ATTACHMENT"]
  | KModel => ["GEOMETRY"]
  | KReference => []
  | KCollision =>
      match dict_ self !! "CType" with
      | Some ctype => Collision_required_keys ctype
      | None => []
      end
  end.


(** ** Vocabulary for building records *)

(** What [construct_data] leaves alone in an instance: every attribute but
    [NodeData] and [Child_Nodes]. *)
Definition skeleton (o : Object) : Object :=
  with_NodeData None (with_Child_Nodes None o).

Definition same_skeleton (h h' : list Object) : Prop :=
  skeleton <$> h = skeleton <$> h'.

(** The tree below [a] can be built with [n] nested calls: following
    [Children] from [a] takes fewer than [n] steps everywhere (so no node is
    below itself), every address met is in the store, and every node met has
    a [Name] and a [_Type]. *)
Fixpoint buildable (n : nat) (h : list Object) (a : addr) : bool :=
  match n with
  | O => false
  | S n' =>
      match h !! a with
      | Some o =>
          bool_decide (is_Some (Name o)) && bool_decide (is_Some (_Type o)) &&
          forallb (buildable n' h) (Children o)
      | None => false
      end
  end.

(** The nodes below [a], [a] included, as [construct_data] visits them. *)
Fixpoint subtree (n : nat) (h : list Object) (a : addr) : list addr :=
  match n with
  | O => []
  | S n' =>
      a :: match h !! a with
           | Some o => Children o ≫= subtree n' h
           | None => []
           end
  end.

(** The record that the tree below [a] denotes. *)
Fixpoint record_of (n : nat) (h : list Object) (a : addr) : option TkSceneNodeData :=
  match n with
  | O => None
  | S n' =>
      match h !! a with
      | Some o =>
          match Name o, _Type o with
          | Some name, Some type =>
              Some (mkNodeData name type (Transform o) (Attributes o)
                      (match Children o with
                       | [] => None
                       | cs => Some (record_of n' h <$> cs)
                       end))
          | _, _ => None
          end
      | None => None
      end
  end.

(** The instance [o] at [x] holds the record of its tree. *)
Definition settled (h : list Object) (x : addr) (o : Object) : Prop :=
  ∃ m r, buildable m h x = true ∧ record_of m h x = Some r ∧
         NodeData o = Some r ∧ Child_Nodes o = nd_Children r.

(** What a call [construct_data n a] does from [s]: it returns [None], leaves
    every instance's skeleton and every node outside the tree below [a]
    alone, settles every node of that tree, and extends the trace by the
    construction instants of the nodes below [a] followed by that of [a]. *)
Definition construct_data_post (n : nat) (a : addr) (s : State) : Prop :=
  ∃ s' t,
    construct_data n a s = (Ret None, s') ∧
    same_skeleton (heap s) (heap s') ∧
    (∀ x, x ∉ subtree n (heap s) a -> heap s' !! x = heap s !! x) ∧
    (∀ x, x ∈ subtree n (heap s) a ->
          ∃ o', heap s' !! x = Some o' ∧ settled (heap s) x o') ∧
    built s' = built s ++ t ++ [a] ∧
    (∀ o c, heap s !! a = Some o -> c ∈ Children o -> c ∈ t).

(** One turn of the loop of [construct_data]. *)
Definition construct_child (n : nat) (self child : addr) : M State unit :=
  (construct_data n child ;;
   d <- get_data child ;;
   Child_Nodes_append self d)%py.

(** ** Example objects and states *)

(** The instance a constructor call returned (the bare [Object] stands in when
    it raised). *)
Definition from_Ret (r : outcome Object) : Object :=
  match r with Ret o => o | Raise _ => Object_init KObject ∅ end.

Definition Root : Object := from_Ret (Construct Model "Root" ∅).
Definition Sub : Object := from_Ret (Construct Model "Sub" ∅).
Definition M1 : Object :=
  from_Ret (Construct Mesh "M1" {[ "Vertices" := PyInt 1; "Indexes" := PyInt 2 ]}).
Definition L1 : Object := from_Ret (Construct Locator "L1" ∅).

Definition run {A} (m : M State A) (s : State) : State := snd (m s).

(** Scenario C of the specification: [Root.add_child(M1)] and
    [Root.add_child(L1)], with [Root], [M1] and [L1] at addresses 0, 1, 2. *)
Definition scenario_C : State :=
  run (add_child 2 0 1 ;; add_child 2 0 2)%py (mkState [Root; M1; L1] []).

(** ** Vocabulary for trees *)

(** What the store says about the node at an address. *)
Definition parent_of (h : list Object) (x : addr) : option addr :=
  h !! x ≫= Parent.
Definition children_of (h : list Object) (x : addr) : list addr :=
  default [] (Children <$> h !! x).
Definition is_mesh (h : list Object) (x : addr) : bool :=
  default false (IsMesh <$> h !! x).
Definition registry (h : list Object) (x : addr) : option (list addr) :=
  h !! x ≫= ListOfMeshes.
Definition class_of (h : list Object) (x : addr) : option klass :=
  class_ <$> h !! x.

(** [chain h x r k]: following [Parent] from [x] for [k] steps ends at the
    parentless node [r]. *)
Inductive chain (h : list Object) : addr -> addr -> nat -> Prop :=
  | chain_top x :
      is_Some (h !! x) -> parent_of h x = None -> chain h x x 0
  | chain_up x p r k :
      parent_of h x = Some p -> chain h p r k -> chain h x r (S k).

(** [on_chain h x y]: [y] is [x] or one of its ancestors. *)
Inductive on_chain (h : list Object) : addr -> addr -> Prop :=
  | on_chain_here x : on_chain h x x
  | on_chain_up x p y :
      parent_of h x = Some p -> on_chain h p y -> on_chain h x y.

(** [descendant h r x]: [x] is below [r], at any depth, along [Children]. *)
Inductive descendant (h : list Object) : addr -> addr -> Prop :=
  | descendant_child r c :
      c ∈ children_of h r -> descendant h r c
  | descendant_below r c x :
      c ∈ children_of h r -> descendant h c x -> descendant h r x.

(** An instance as a constructor returns it. *)
Definition constructed (o : Object) : Prop :=
  ∃ v name kwargs, Construct v name kwargs = Ret o.

(** Only instances of Model carry a [ListOfMeshes]. *)
Definition registries_on_Models (h : list Object) : Prop :=
  ∀ x o, h !! x = Some o -> is_Some (ListOfMeshes o) -> class_ o = KModel.

(** The stores assembled solely with [add_child]: some freshly constructed
    nodes, then calls of [add_child] that returned, listed oldest first as
    (parent, child).  Constructing a node touches no other node, so doing all
    the constructions first loses no generality. *)
Inductive assembled : list (addr * addr) -> State -> Prop :=
  | assembled_new h :
      Forall constructed h -> assembled [] (mkState h [])
  | assembled_add calls s fuel parent child s' :
      assembled calls s ->
      add_child fuel parent child s = (Ret tt, s') ->
      assembled (calls ++ [(parent, child)]) s'.

(** The same, where every call attaches a node that has no parent yet, is
    not the parent itself or an ancestor of it, and has no mesh-bearing node
    below it. *)
Inductive assembled_in_order : list (addr * addr) -> State -> Prop :=
  | in_order_new h :
      Forall constructed h -> assembled_in_order [] (mkState h [])
  | in_order_add calls s fuel parent child s' :
      assembled_in_order calls s ->
      is_Some (heap s !! child) ->
      parent_of (heap s) child = None ->
      ¬ on_chain (heap s) parent child ->
      (∀ x, descendant (heap s) child x -> is_mesh (heap s) x = false) ->
      add_child fuel parent child s = (Ret tt, s') ->
      assembled_in_order (calls ++ [(parent, child)]) s'.

(** The structure that [add_child] maintains when used in order. *)
Record tree_invariant (calls : list (addr * addr)) (h : list Object) : Prop := {
  inv_children : ∀ x c, c ∈ children_of h x -> parent_of h c = Some x;
  inv_parent : ∀ c p, parent_of h c = Some p -> c ∈ children_of h p;
  inv_chain : ∀ x, is_Some (h !! x) -> ∃ r k, chain h x r k;
  inv_registry : ∀ r, is_Some (h !! r) -> parent_of h r = None ->
    match registry h r with
    | Some l =>
        NoDup l ∧
        (∀ x, x ∈ l ↔ is_mesh h x = true ∧ x ≠ r ∧ ∃ k, chain h x r k) ∧
        l `sublist_of` (snd <$> calls)
    | None => ∀ x k, chain h x r k -> x ≠ r -> is_mesh h x = false
    end;
  inv_calls : ∀ p c, (p, c) ∈ calls -> parent_of h c = Some p;
  inv_once : NoDup (snd <$> calls)
}.

(** More example stores.  [nested_Models]: [Sub.add_child(M1)], then
    [Root.add_child(Sub)], with [Root], [Sub], [M1] at addresses 0, 1, 2.
    [deep_mesh]: [Root.add_child(L1)], then [L1.add_child(M1)], with [Root],
    [L1], [M1] at addresses 0, 1, 2. *)
Definition nested_Models : State :=
  run (add_child 3 1 2 ;; add_child 3 0 1)%py (mkState [Root; Sub; M1] []).
Definition deep_mesh : State :=
  run (add_child 3 0 1 ;; add_child 3 1 2)%py (mkState [Root; L1; M1] []).

(** What a call [parent.add_child(child)] that got past its first two
    statements did to the store: [reg] is the node on which the child was
    registered, if any. *)
Definition attached (h h' : list Object) (p c : addr) (reg : option addr) : Prop :=
  (∀ x, is_Some (h' !! x) ↔ is_Some (h !! x)) ∧
  (∀ x, parent_of h' x = if decide (x = c) then Some p else parent_of h x) ∧
  (∀ x, children_of h' x =
        if decide (x = p) then children_of h x ++ [c] else children_of h x) ∧
  (∀ x, is_mesh h' x = is_mesh h x) ∧
  (∀ x, registry h' x =
        if decide (reg = Some x) then (fun l => l ++ [c]) <$> registry h x
        else registry h x) ∧
  (∀ x, class_of h' x = class_of h x).

(** [M1.add_child(L1)], with [M1] and [L1] at addresses 0 and 1: a Locator
    below a parentless Mesh. *)
Definition Locator_below_Mesh : State :=
  run (add_child 1 0 1) (mkState [M1; L1] []).

(** ** Further vocabulary *)

(** [TYPES], the module's list of type tags. *)
Definition TYPES : list string :=
  ["MESH"; "LOCATOR"; "COLLISION"; "MODEL"; "REFERENCE"].

(** What [add_child] leaves alone in an instance: every attribute but
    [Children], [Parent] and [ListOfMeshes]. *)
Definition payload (o : Object) : Object :=
  with_ListOfMeshes None (with_Parent None (with_Children [] o)).

(** [grows h h']: the store [h'] has the instances of [h] with the same
    payload; no [Children] and no [ListOfMeshes] has lost or reordered an
    entry, and no instance has gained or lost its [ListOfMeshes]. *)
Definition grows (h h' : list Object) : Prop :=
  payload <$> h' = payload <$> h ∧
  (∀ x, children_of h x `prefix_of` children_of h' x) ∧
  (∀ x, match registry h x with
        | Some l => ∃ l', registry h' x = Some (l ++ l')
        | None => registry h' x = None
        end).

(** [touches_only Q h0 s]: the store of [s] differs from [h0] at most in the
    [NodeData] and [Child_Nodes] of the nodes in [Q]. *)
Definition touches_only (Q : addr -> Prop) (h0 : list Object) (s : State) : Prop :=
  same_skeleton h0 (heap s) ∧ ∀ x, ¬ Q x -> heap s !! x = h0 !! x.

(** A store in which every node has a name and a type tag and every entry of
    a [Children] is the address of a node. *)
Definition well_formed (h : list Object) : Prop :=
  ∀ x o, h !! x = Some o ->
    is_Some (Name o) ∧ is_Some (_Type o) ∧
    ∀ c, c ∈ Children o -> is_Some (h !! c).

(** The nodes below [a] in the order in which [construct_data] assigns their
    [NodeData]: the trees of the children, in the order of [Children], then
    [a] itself. *)
Fixpoint postorder (n : nat) (h : list Object) (a : addr) : list addr :=
  match n with
  | O => []
  | S n' =>
      match h !! a with
      | Some o => Children o ≫= postorder n' h
      | None => []
      end ++ [a]
  end.

(** * Properties *)

(** ** Construction and provided streams *)

Lemma super_init_same (k : klass) (kwargs : pydict) :
  super_init k k kwargs = Ret (Object_init k kwargs).
Proof. by destruct k. Qed.

Lemma determine_included_streams_aux (l : list string) (self : Object) :
  let step := fun (self : Object) (name : string) =>
    if is_not_None (dict_get (dict_ self) name PyNone)
    then with_provided_streams (provided_streams self ∪ {[ name ]}) self
    else self in
  (∃ ps, foldl step self l = with_provided_streams ps self) ∧
  ∀ n, n ∈ provided_streams (foldl step self l) ↔
       n ∈ provided_streams self ∨
       (n ∈ l ∧ is_not_None (dict_get (dict_ self) n PyNone) = true).
Proof.
  intros step. revert self.
  induction l as [|x l IH]; intros self.
  - split; [exists (provided_streams self); by destruct self|].
    intros n. cbn [foldl]. rewrite elem_of_nil. tauto.
  - cbn [foldl]. destruct (IH (step self x)) as [[ps Hd] Hp].
    assert (Hdx : ∃ ps', step self x = with_provided_streams ps' self).
    { unfold step. destruct (is_not_None _); [by eexists|].
      exists (provided_streams self); by destruct self. }
    destruct Hdx as [ps' Hdx].
    split; [exists ps; by rewrite Hd, Hdx|].
    intros n. rewrite Hp. rewrite Hdx at 2. cbn [dict_ with_provided_streams].
    unfold step at 1.
    destruct (is_not_None (dict_get (dict_ self) x PyNone)) eqn:Hx.
    + cbn [provided_streams with_provided_streams].
      rewrite elem_of_union, elem_of_singleton, elem_of_cons.
      split; [intros [[?| ->]|[? ?]]|intros [?|[[ -> |?] ?]]]; eauto.
    + rewrite elem_of_cons.
      split; [intros [?|[? ?]]|intros [?|[[ -> |?] ?]]]; eauto.
      congruence.
Qed.

Lemma determine_included_streams_fields (self : Object) :
  ∃ ps, determine_included_streams self = with_provided_streams ps self.
Proof. apply (determine_included_streams_aux stream_names self). Qed.
(** The five variants whose constructors pass their own class to [super]
    return a node of their class with its type tag, and nothing else set: no
    parent, children, attributes or record. *)
Lemma Construct_five (v : variant) (name : string) (kwargs : pydict) :
  v ≠ Joint -> v ≠ Emitter ->
  ∃ self, Construct v name kwargs = Ret self ∧
          class_ self = variant_class v ∧
          Name self = Some name ∧
          _Type self = Some (variant_tag v) ∧
          Parent self = None ∧ Children self = [] ∧
          Attributes self = None ∧ NodeData self = None ∧
          initialized self = true.
Proof.
  intros HJ HE.
  destruct v; try done; cbn [Construct];
    unfold Mesh_init, Locator_init, Collision_init, Model_init, Reference_init;
    rewrite super_init_same; cbn [omap_outcome].
  - match goal with |- context [determine_included_streams ?o] =>
      destruct (determine_included_streams_fields o) as [ps ->] end.
    eexists; split; [reflexivity|]. by repeat split.
  - eexists; split; [reflexivity|]. by repeat split.
  - destruct (py_eq_str _ _).
    + match goal with |- context [determine_included_streams ?o] =>
        destruct (determine_included_streams_fields o) as [ps ->] end.
      eexists; split; [reflexivity|]. by repeat split.
    + eexists; split; [reflexivity|]. by repeat split.
  - eexists; split; [reflexivity|]. by repeat split.
  - eexists; split; [reflexivity|]. by repeat split.
Qed.

(** C2 (the code departs from the claim): the constructors of Joint and
    Emitter pass the class Locator to [super] although neither derives from
    it, so every call raises [TypeError] and no JOINT or EMITTER node is
    created. *)
Theorem Joint_Emitter_init_raise (name : string) (kwargs : pydict) :
  Construct Joint name kwargs = Raise TypeError ∧
  Construct Emitter name kwargs = Raise TypeError.
Proof. split; reflexivity. Qed.

Lemma is_not_None_dict_get (d : pydict) (n : string) :
  is_not_None (dict_get d n PyNone) = true ↔ ∃ v, d !! n = Some v ∧ v ≠ PyNone.
Proof.
  unfold dict_get. destruct (d !! n) as [v|]; simpl.
  - split.
    + intros H. exists v. split; [done|]. by intros ->.
    + intros (w & [= <-] & Hw). by destruct v.
  - split; [done|]. by intros (w & ? & _).
Qed.

(** C5: right after construction, a Mesh's [provided_streams] holds exactly
    those of the five stream names whose keyword argument was given with a
    value other than [None]; the constructor returns, raising nothing,
    whichever streams are missing. *)
Theorem Mesh_provided_streams (name : string) (kwargs : pydict) :
  ∃ self, Construct Mesh name kwargs = Ret self ∧
    ∀ n, n ∈ provided_streams self ↔
         n ∈ stream_names ∧ ∃ v, kwargs !! n = Some v ∧ v ≠ PyNone.
Proof.
  cbn [Construct]. unfold Mesh_init. rewrite super_init_same. cbn [omap_outcome].
  eexists. split; [reflexivity|].
  intros n. unfold determine_included_streams.
  match goal with |- context [foldl _ ?o _] =>
    destruct (determine_included_streams_aux stream_names o) as [_ Hp] end.
  rewrite Hp. clear Hp.
  rewrite <- is_not_None_dict_get.
  assert (Hps : ∀ o : Object, n ∈ provided_streams (with_IsMesh true o) ↔ n ∈ provided_streams o) by done.
  split.
  - intros [H|[Hn H]]; [by apply elem_of_empty in H|]. split; [done|].
    unfold stream_names in Hn.
    repeat (apply elem_of_cons in Hn as [->|Hn]); [..|by apply elem_of_nil in Hn];
      revert H; by vm_compute.
  - intros [Hn H]. right. split; [done|].
    unfold stream_names in Hn.
    repeat (apply elem_of_cons in Hn as [->|Hn]); [..|by apply elem_of_nil in Hn];
      revert H; by vm_compute.
Qed.
(** ** Attribute creation *)

Ltac run_attributes :=
  unfold create_attributes, Locator_create_attributes, Joint_create_attributes,
    Emitter_create_attributes, Mesh_create_attributes,
    Collision_create_attributes, Model_create_attributes,
    Reference_create_attributes, Attributes_append, set_Attributes, subscript,
    getattr, get_Name, bind, ret, raise, get, put, modify;
  repeat (progress
    (repeat match goal with
            | H : class_ _ = _ |- _ => rewrite H
            | H : _ !! _ = _ |- _ => rewrite H
            | H : Name _ = _ |- _ => rewrite H
            | H : py_eq_str _ _ = _ |- _ => rewrite H
            end;
     cbn [Attributes with_Attributes dict_ Name class_ py_eq_str fst snd orb
          app bool_decide decide_rel]));
  try reflexivity.

(** C6: a Collision's attributes start with (TYPE, sub-type) and continue, by
    sub-type, with the pairs of the schema in its order, the values taken from
    the data mapping (FIRSTSKINMAT and LASTSKINMAT are 0). *)
Theorem Collision_create_attributes_schema
    (self : Object) (ctype : pyval) (d : pydict) :
  class_ self = KCollision ->
  dict_ self !! "CType" = Some ctype ->
  let emits := fun l =>
    create_attributes (Some d) self =
      (Ret tt, with_Attributes (Some (mkAttribute "TYPE" ctype :: l)) self) in
  (ctype = PyStr "Mesh" ->
   ∀ bs bc vs ve,
     d !! "BATCHSTART" = Some bs -> d !! "BATCHCOUNT" = Some bc ->
     d !! "VERTRSTART" = Some vs -> d !! "VERTREND" = Some ve ->
     emits [mkAttribute "BATCHSTART" bs; mkAttribute "BATCHCOUNT" bc;
            mkAttribute "VERTRSTART" vs; mkAttribute "VERTREND" ve;
            mkAttribute "FIRSTSKINMAT" (PyInt 0);
            mkAttribute "LASTSKINMAT" (PyInt 0)]) ∧
  (ctype = PyStr "Box" ->
   ∀ w h dp,
     d !! "WIDTH" = Some w -> d !! "HEIGHT" = Some h -> d !! "DEPTH" = Some dp ->
     emits [mkAttribute "WIDTH" w; mkAttribute "HEIGHT" h;
            mkAttribute "DEPTH" dp]) ∧
  (ctype = PyStr "Sphere" ->
   ∀ r, d !! "RADIUS" = Some r -> emits [mkAttribute "RADIUS" r]) ∧
  (ctype = PyStr "Capsule" ∨ ctype = PyStr "Cylinder" ->
   ∀ r h,
     d !! "RADIUS" = Some r -> d !! "HEIGHT" = Some h ->
     emits [mkAttribute "RADIUS" r; mkAttribute "HEIGHT" h]).
Proof.
  intros Hc Ht emits. unfold emits.
  repeat split.
  - intros -> bs bc vs ve ? ? ? ?. by run_attributes.
  - intros -> w h dp ? ? ?. by run_attributes.
  - intros -> r ?. by run_attributes.
  - intros [-> | ->] r h ? ?; by run_attributes.
Qed.

(** Scenario D of the specification. *)
Lemma Collision_create_attributes_schema_witness :
  ∃ self, Construct Collision "C1" {[ "CollisionType" := PyStr "Sphere" ]} = Ret self ∧
    create_attributes (Some {[ "RADIUS" := PyFloat 25 (-1) ]}) self =
      (Ret tt, with_Attributes
                 (Some [mkAttribute "TYPE" (PyStr "Sphere");
                        mkAttribute "RADIUS" (PyFloat 25 (-1))]) self).
Proof.
  eexists. split; [reflexivity|].
  refine (proj1 (proj2 (proj2 (Collision_create_attributes_schema _ (PyStr "Sphere") _ _ _))) _ _ _);
    reflexivity.
Defined.

(** C7: when the data mapping lacks a key that the schema of the node's
    variant requires, [create_attributes] raises [KeyError] for the first
    such key in emission order, and the error reaches the caller. *)
Theorem create_attributes_missing_key
    (self : Object) (d : pydict) (pre post : list string) (k : string) :
  initialized self = true ->
  required_keys self = pre ++ k :: post ->
  Forall (fun k0 => is_Some (d !! k0)) pre ->
  d !! k = None ->
  fst (create_attributes (Some d) self) = Raise (KeyError k).
Proof.
  intros Hi Hk Hpre Hd.
  unfold initialized in Hi.
  apply andb_prop in Hi as [Hi Hcls]. apply andb_prop in Hi as [Hn _].
  apply bool_decide_eq_true in Hn as [n Hn].
  unfold required_keys in Hk.
  destruct (class_ self) eqn:Hc; try discriminate Hcls.
  all: try (apply bool_decide_eq_true in Hcls as [ct Hct]; rewrite Hct in Hk;
            unfold Collision_required_keys in Hk).
  all: repeat match type of Hk with
         | context [py_eq_str ?c ?s] =>
             let E := fresh "E" in destruct (py_eq_str c s) eqn:E; cbn [orb] in Hk
         end.
  all: repeat (destruct pre as [|? pre];
               [injection Hk as <- <-
               |try (injection Hk as <- Hk)]);
       try (by destruct pre);
       try discriminate Hk.
  all: repeat match goal with
         | H : Forall _ (_ :: _) |- _ =>
             let H' := fresh in
             apply Forall_cons in H as [[? H'] H]
         end.
  all: by run_attributes.
Qed.

(** Scenario E of the specification. *)
Lemma create_attributes_missing_key_witness :
  ∃ self, Construct Collision "C2" {[ "CollisionType" := PyStr "Box" ]} = Ret self ∧
    fst (create_attributes (Some {[ "HEIGHT" := PyInt 1; "DEPTH" := PyInt 2 ]}) self)
      = Raise (KeyError "WIDTH").
Proof.
  eexists. split; [reflexivity|].
  apply (create_attributes_missing_key _ _ [] ["HEIGHT"; "DEPTH"] "WIDTH");
    [reflexivity | reflexivity | constructor | reflexivity].
Defined.

(** C8: for a Locator, a Joint or an Emitter, [create_attributes(None)]
    changes nothing (so null attributes stay null), and with a data mapping
    the attributes become exactly the variant's schema; for a Reference the
    attributes always become the single pair (SCENEGRAPH, own [Scenegraph]),
    whatever the data argument is. *)
Theorem create_attributes_optional_and_reference (self : Object) :
  (class_ self = KLocator ->
     create_attributes None self = (Ret tt, self) ∧
     ∀ d v, d !! "ATTACHMENT" = Some v ->
       create_attributes (Some d) self =
         (Ret tt, with_Attributes (Some [mkAttribute "ATTACHMENT" v]) self)) ∧
  (class_ self = KJoint ->
     create_attributes None self = (Ret tt, self) ∧
     ∀ d v, d !! "JOINTINDEX" = Some v ->
       create_attributes (Some d) self =
         (Ret tt, with_Attributes (Some [mkAttribute "JOINTINDEX" v]) self)) ∧
  (class_ self = KEmitter ->
     create_attributes None self = (Ret tt, self) ∧
     ∀ d m v, d !! "MATERIAL" = Some m -> d !! "DATA" = Some v ->
       create_attributes (Some d) self =
         (Ret tt, with_Attributes
                    (Some [mkAttribute "MATERIAL" m; mkAttribute "DATA" v]) self)) ∧
  (class_ self = KReference ->
     ∀ sg, dict_ self !! "Scenegraph" = Some sg ->
     ∀ data, create_attributes data self =
       (Ret tt, with_Attributes (Some [mkAttribute "SCENEGRAPH" sg]) self)).
Proof.
  repeat split; try (intros; by run_attributes).
Qed.

(** Scenario A of the specification, and a Reference given two different
    data arguments. *)
Lemma create_attributes_optional_and_reference_witness :
  (∃ L1, Construct Locator "L1" ∅ = Ret L1 ∧
         create_attributes None L1 = (Ret tt, L1) ∧ Attributes L1 = None) ∧
  (∃ R1, Construct Reference "R1" {[ "Scenegraph" := PyStr "A/B.SCENE.MBIN" ]} = Ret R1 ∧
         ∀ data, Attributes (snd (create_attributes data R1)) =
                 Some [mkAttribute "SCENEGRAPH" (PyStr "A/B.SCENE.MBIN")]).
Proof.
  split.
  - eexists. split; [reflexivity|]. split; [|reflexivity].
    apply (proj1 (create_attributes_optional_and_reference _)). reflexivity.
  - eexists. split; [reflexivity|]. intros data.
    match goal with |- context [create_attributes data ?o] =>
      rewrite (proj2 (proj2 (proj2 (create_attributes_optional_and_reference o)))
                 eq_refl (PyStr "A/B.SCENE.MBIN") eq_refl data)
    end.
    reflexivity.
Defined.

(** ** Primitive steps on the store *)

Lemma bind_Ret {S A B} (m : M S A) (k : A -> M S B) s a s' :
  m s = (Ret a, s') -> bind m k s = k a s'.
Proof. unfold bind. by intros ->. Qed.

Lemma bind_Raise {S A B} (m : M S A) (k : A -> M S B) s e s' :
  m s = (Raise e, s') -> bind m k s = (Raise e, s').
Proof. unfold bind. by intros ->. Qed.

Lemma deref_Some a s o : heap s !! a = Some o -> deref a s = (Ret o, s).
Proof. unfold deref. by intros ->. Qed.

Lemma update_Some a f s o :
  heap s !! a = Some o ->
  update a f s = (Ret tt, mkState (<[a := f o]> (heap s)) (built s)).
Proof. unfold update. by intros ->. Qed.

Lemma lookup_update (h : list Object) a o' x o :
  h !! a = Some o ->
  <[a := o']> h !! x = if decide (a = x) then Some o' else h !! x.
Proof.
  intros Ha. destruct (decide (a = x)) as [->|Hne].
  - apply list_lookup_insert_eq. by eapply lookup_lt_Some.
  - by apply list_lookup_insert_ne.
Qed.

(** ** The skeleton is what the record depends on *)

Lemma same_skeleton_refl h : same_skeleton h h.
Proof. done. Qed.

Lemma same_skeleton_trans h1 h2 h3 :
  same_skeleton h1 h2 -> same_skeleton h2 h3 -> same_skeleton h1 h3.
Proof. unfold same_skeleton. congruence. Qed.

Lemma same_skeleton_lookup h h' x :
  same_skeleton h h' -> skeleton <$> h !! x = skeleton <$> h' !! x.
Proof. intros H. rewrite <- !list_lookup_fmap. unfold same_skeleton in H. by rewrite H. Qed.

Lemma same_skeleton_insert h a o o' :
  h !! a = Some o -> skeleton o' = skeleton o -> same_skeleton h (<[a := o']> h).
Proof.
  intros Ha Hs. unfold same_skeleton.
  rewrite list_fmap_insert, Hs.
  symmetry. apply list_insert_id. by rewrite list_lookup_fmap, Ha.
Qed.

Lemma skeleton_fields o o' :
  skeleton o = skeleton o' ->
  Name o = Name o' ∧ _Type o = _Type o' ∧ Transform o = Transform o' ∧
  Attributes o = Attributes o' ∧ Children o = Children o'.
Proof.
  intros H.
  repeat split;
    [ apply (f_equal Name) in H | apply (f_equal _Type) in H
    | apply (f_equal Transform) in H | apply (f_equal Attributes) in H
    | apply (f_equal Children) in H ]; exact H.
Qed.

Lemma same_skeleton_Some h h' x o :
  same_skeleton h h' -> h !! x = Some o ->
  ∃ o', h' !! x = Some o' ∧ skeleton o = skeleton o'.
Proof.
  intros H Hx. pose proof (same_skeleton_lookup _ _ x H) as E.
  rewrite Hx in E. destruct (h' !! x) as [o'|];
    cbn [fmap option_fmap option_map] in E; [|discriminate E].
  exists o'. split; [done|]. congruence.
Qed.

Lemma same_skeleton_None h h' x :
  same_skeleton h h' -> h !! x = None -> h' !! x = None.
Proof.
  intros H Hx. pose proof (same_skeleton_lookup _ _ x H) as E.
  rewrite Hx in E. destruct (h' !! x);
    cbn [fmap option_fmap option_map] in E; [discriminate E|done].
Qed.

Lemma buildable_skeleton n h h' a :
  same_skeleton h h' -> buildable n h a = buildable n h' a.
Proof.
  intros H. revert a. induction n as [|n IH]; intros a; [done|].
  cbn [buildable]. destruct (h !! a) as [o|] eqn:Ha.
  - destruct (same_skeleton_Some _ _ _ _ H Ha) as (o' & -> & Hs).
    destruct (skeleton_fields _ _ Hs) as (-> & -> & _ & _ & ->).
    f_equal. clear Ha Hs. induction (Children o') as [|c cs IHcs]; [done|].
    cbn [forallb]. by rewrite IH, IHcs.
  - by rewrite (same_skeleton_None _ _ _ H Ha).
Qed.

Lemma subtree_skeleton n h h' a :
  same_skeleton h h' -> subtree n h a = subtree n h' a.
Proof.
  intros H. revert a. induction n as [|n IH]; intros a; [done|].
  cbn [subtree]. destruct (h !! a) as [o|] eqn:Ha.
  - destruct (same_skeleton_Some _ _ _ _ H Ha) as (o' & -> & Hs).
    destruct (skeleton_fields _ _ Hs) as (_ & _ & _ & _ & ->).
    f_equal. clear Ha Hs. induction (Children o') as [|c cs IHcs]; [done|].
    cbn. by rewrite IH, IHcs.
  - by rewrite (same_skeleton_None _ _ _ H Ha).
Qed.

Lemma record_of_skeleton n h h' a :
  same_skeleton h h' -> record_of n h a = record_of n h' a.
Proof.
  intros H. revert a. induction n as [|n IH]; intros a; [done|].
  cbn [record_of]. destruct (h !! a) as [o|] eqn:Ha.
  - destruct (same_skeleton_Some _ _ _ _ H Ha) as (o' & -> & Hs).
    destruct (skeleton_fields _ _ Hs) as (-> & -> & -> & -> & ->).
    destruct (Name o'), (_Type o'); try done.
    do 2 f_equal. destruct (Children o') as [|c cs]; [done|].
    f_equal. apply list_fmap_ext. intros _ c' _. apply IH.
  - by rewrite (same_skeleton_None _ _ _ H Ha).
Qed.

(** ** More fuel changes nothing *)

Lemma buildable_S n h a : buildable n h a = true -> buildable (S n) h a = true.
Proof.
  revert a. induction n as [|n IH]; intros a; [done|].
  intros H. cbn [buildable] in H |- *. change (buildable (S n) h) with (buildable (S n) h).
  destruct (h !! a) as [o|]; [|done].
  apply andb_prop in H as [H1 H2]. apply andb_true_intro. split; [done|].
  rewrite forallb_forall in H2 |- *. intros c Hc. apply IH. by apply H2.
Qed.

Lemma buildable_le n m h a :
  buildable n h a = true -> n ≤ m -> buildable m h a = true.
Proof. intros H Hle. induction Hle; [done|]. by apply buildable_S. Qed.

Lemma record_of_S n h a :
  buildable n h a = true -> record_of (S n) h a = record_of n h a.
Proof.
  revert a. induction n as [|n IH]; intros a; [done|].
  intros H. cbn [buildable] in H. cbn [record_of].
  destruct (h !! a) as [o|]; [|done].
  apply andb_prop in H as [_ H2].
  destruct (Name o), (_Type o); try done.
  do 2 f_equal. destruct (Children o) as [|c cs] eqn:E; [done|].
  f_equal. rewrite forallb_forall in H2.
  apply list_fmap_ext. intros i c' Hc'. apply (IH c'). apply H2.
  apply list_elem_of_In. by eapply list_elem_of_lookup_2.
Qed.

Lemma record_of_le n m h a :
  buildable n h a = true -> n ≤ m -> record_of m h a = record_of n h a.
Proof.
  intros H Hle. induction Hle as [|m Hle IH]; [done|].
  rewrite record_of_S; [done|]. by eapply buildable_le.
Qed.

Lemma record_of_fuel n m h a :
  buildable n h a = true -> buildable m h a = true ->
  record_of n h a = record_of m h a.
Proof.
  intros Hn Hm. destruct (Nat.le_ge_cases n m).
  - symmetry. by apply record_of_le.
  - by apply record_of_le.
Qed.

Lemma buildable_record n h a :
  buildable n h a = true -> is_Some (record_of n h a).
Proof.
  destruct n as [|n]; [done|]. cbn [buildable record_of].
  destruct (h !! a) as [o|]; [|done].
  intros H. apply andb_prop in H as [H _]. apply andb_prop in H as [H1 H2].
  apply bool_decide_eq_true in H1 as [? ->].
  apply bool_decide_eq_true in H2 as [? ->]. by eexists.
Qed.

(** ** No node of a buildable tree is below itself *)

Lemma subtree_buildable n h c x :
  x ∈ subtree n h c -> ∀ k, buildable k h c = true -> buildable k h x = true.
Proof.
  revert c. induction n as [|n IH]; intros c Hx k Hk; [by apply elem_of_nil in Hx|].
  cbn [subtree] in Hx. apply elem_of_cons in Hx as [->|Hx]; [done|].
  destruct k as [|k]; [done|]. cbn [buildable] in Hk.
  destruct (h !! c) as [o|]; [|by apply elem_of_nil in Hx].
  apply andb_prop in Hk as [_ Hk]. rewrite forallb_forall in Hk.
  apply list_elem_of_bind in Hx as (c' & Hx & Hc').
  apply buildable_S. apply (IH c' Hx). apply Hk. by apply list_elem_of_In.
Qed.

Lemma not_below_itself k n h a o c :
  buildable k h a = true -> h !! a = Some o -> c ∈ Children o ->
  a ∉ subtree n h c.
Proof.
  intros Hk Ha Hc Hin. induction k as [|k IH]; [done|].
  apply IH. cbn [buildable] in Hk. rewrite Ha in Hk.
  apply andb_prop in Hk as [_ Hk]. rewrite forallb_forall in Hk.
  apply (subtree_buildable _ _ _ _ Hin). apply Hk. by apply list_elem_of_In.
Qed.

(** ** Building records *)

Lemma settled_skeleton h h' x o :
  same_skeleton h h' -> settled h x o -> settled h' x o.
Proof.
  intros H (m & r & Hb & Hr & Hn & Hc). exists m, r.
  by rewrite <- (buildable_skeleton _ _ _ _ H), <- (record_of_skeleton _ _ _ _ H).
Qed.

Lemma same_skeleton_sym h h' : same_skeleton h h' -> same_skeleton h' h.
Proof. unfold same_skeleton. congruence. Qed.

Lemma get_data_Some a s o :
  heap s !! a = Some o -> get_data a s = (Ret (NodeData o), s).
Proof. intros H. unfold get_data. by rewrite (bind_Ret _ _ _ _ _ (deref_Some _ _ _ H)). Qed.

Lemma Child_Nodes_append_Some a d s o l :
  heap s !! a = Some o -> Child_Nodes o = Some l ->
  Child_Nodes_append a d s =
    (Ret tt, mkState (<[a := with_Child_Nodes (Some (l ++ [d])) o]> (heap s)) (built s)).
Proof.
  intros H Hl. unfold Child_Nodes_append.
  rewrite (bind_Ret _ _ _ _ _ (deref_Some _ _ _ H)), Hl.
  by apply update_Some.
Qed.

Lemma subtree_self n h a : buildable n h a = true -> a ∈ subtree n h a.
Proof. destruct n; [done|]. intros _. cbn [subtree]. apply list_elem_of_here. Qed.

Section construct_data_loop.
Variable n : nat.
Hypothesis IHn : ∀ a s, buildable n (heap s) a = true -> construct_data_post n a s.
Variable h0 : list Object.
Variable self : addr.

Lemma construct_children (cs : list addr) :
  ∀ s o acc,
    same_skeleton h0 (heap s) ->
    heap s !! self = Some o ->
    Child_Nodes o = Some acc ->
    (∀ c, c ∈ cs -> buildable n h0 c = true ∧ self ∉ subtree n h0 c) ->
    ∃ s' t,
      for_each cs (construct_child n self) s = (Ret tt, s') ∧
      same_skeleton h0 (heap s') ∧
      (∃ NodeData', heap s' !! self =
         Some (with_NodeData NodeData'
                 (with_Child_Nodes (Some (acc ++ (record_of n h0 <$> cs))) o))) ∧
      (∀ x, x ≠ self -> x ∉ cs ≫= subtree n h0 -> heap s' !! x = heap s !! x) ∧
      (∀ x, x ∈ cs ≫= subtree n h0 ->
            ∃ o', heap s' !! x = Some o' ∧ settled h0 x o') ∧
      built s' = built s ++ t ∧
      (∀ c, c ∈ cs -> c ∈ t).
Proof.
  induction cs as [|c cs IHcs]; intros s o acc Hsk Hself Hacc Hcs.
  - exists s, []. cbn [for_each fmap list_fmap mbind list_bind].
    rewrite !app_nil_r.
    split; [done|]. split; [done|]. split.
    { exists (NodeData o). rewrite Hself. f_equal. destruct o. cbn in Hacc. by subst. }
    split; [done|]. split; [intros x Hx; by apply elem_of_nil in Hx|].
    split; [done|]. intros x Hx. by apply elem_of_nil in Hx.
  - destruct (Hcs c (list_elem_of_here _ _)) as [Hb Hnot].
    assert (Hb' : buildable n (heap s) c = true)
      by (by rewrite <- (buildable_skeleton _ _ _ _ Hsk)).
    destruct (IHn c s Hb') as (s1 & t1 & Hrun & Hsk1 & Hframe1 & Hset1 & Hbuilt1 & _).
    rewrite <- (subtree_skeleton _ _ _ _ Hsk) in Hframe1, Hset1.
    (* the child's record *)
    destruct (Hset1 c (subtree_self _ _ _ Hb)) as (oc & Hoc & Hsettled).
    apply (settled_skeleton _ h0) in Hsettled; [|by apply same_skeleton_sym].
    destruct Hsettled as (m & r & Hbm & Hrm & Hnd & _).
    assert (Hd : NodeData oc = record_of n h0 c)
      by (by rewrite Hnd, <- Hrm; apply record_of_fuel).
    (* [self] was not touched *)
    assert (Hself1 : heap s1 !! self = Some o) by (by rewrite Hframe1).
    set (o1 := with_Child_Nodes (Some (acc ++ [record_of n h0 c])) o).
    set (s2 := mkState (<[self := o1]> (heap s1)) (built s1)).
    assert (Hstep : construct_child n self c s = (Ret tt, s2)).
    { unfold construct_child.
      rewrite (bind_Ret _ _ _ _ _ Hrun).
      rewrite (bind_Ret _ _ _ _ _ (get_data_Some _ _ _ Hoc)).
      rewrite Hd. by apply Child_Nodes_append_Some. }
    assert (Hsk2 : same_skeleton h0 (heap s2)).
    { eapply same_skeleton_trans; [exact Hsk|].
      eapply same_skeleton_trans; [exact Hsk1|].
      by apply (same_skeleton_insert _ _ o). }
    assert (Hself2 : heap s2 !! self = Some o1).
    { cbn [heap s2]. rewrite (lookup_update _ _ _ _ _ Hself1). by rewrite decide_True. }
    destruct (IHcs s2 o1 (acc ++ [record_of n h0 c]) Hsk2 Hself2 eq_refl)
      as (s' & t & Hloop & Hsk' & [nd' Hself'] & Hframe & Hset & Hbuilt & Ht).
    { intros c' Hc'. apply Hcs. by apply list_elem_of_further. }
    exists s', (t1 ++ [c] ++ t).
    assert (Hother : ∀ x, x ≠ self -> heap s2 !! x = heap s1 !! x).
    { intros x Hx. cbn [heap s2]. rewrite (lookup_update _ _ _ _ _ Hself1).
      by rewrite decide_False. }
    repeat split.
    + cbn [for_each]. by rewrite (bind_Ret _ _ _ _ _ Hstep).
    + done.
    + exists nd'. rewrite Hself'. do 2 f_equal. unfold o1.
      cbn [fmap list_fmap]. by rewrite <- app_assoc.
    + intros x Hx Hnin. cbn [mbind list_bind] in Hnin.
      rewrite not_elem_of_app in Hnin. destruct Hnin as [Hn1 Hn2].
      rewrite (Hframe x Hx Hn2), (Hother x Hx). by apply Hframe1.
    + intros x Hin. cbn [mbind list_bind] in Hin.
      destruct (decide (x ∈ cs ≫= subtree n h0)) as [Hin2|Hnin2]; [by apply Hset|].
      apply elem_of_app in Hin as [Hin1|Hin2]; [|done].
      assert (Hx : x ≠ self) by (intros ->; by apply Hnot).
      rewrite (Hframe x Hx Hnin2), (Hother x Hx).
      destruct (Hset1 x Hin1) as (ox & Hox & Hsx). exists ox. split; [done|].
      eapply settled_skeleton; [|exact Hsx]. by apply same_skeleton_sym.
    + rewrite Hbuilt. cbn [built s2]. rewrite Hbuilt1. by rewrite <- !app_assoc.
    + intros c' Hc'. apply elem_of_cons in Hc' as [->|Hc'].
      * rewrite elem_of_app. right. apply list_elem_of_here.
      * rewrite !elem_of_app. right. right. by apply Ht.
Qed.
End construct_data_loop.

Lemma lookup_update_eq (h : list Object) a o o' :
  h !! a = Some o -> <[a := o']> h !! a = Some o'.
Proof. intros H. rewrite (lookup_update _ _ _ _ _ H). by rewrite decide_True. Qed.

Lemma lookup_update_ne (h : list Object) a o' x :
  a ≠ x -> <[a := o']> h !! x = h !! x.
Proof. apply list_lookup_insert_ne. Qed.

(** The last statement of [construct_data]. *)
Lemma construct_data_finish a s o name type :
  heap s !! a = Some o -> Name o = Some name -> _Type o = Some type ->
  (name <- get_Name_of a ;;
   type <- get_Type_of a ;;
   o <- deref a ;;
   update a (with_NodeData
     (Some (mkNodeData name type (Transform o) (Attributes o) (Child_Nodes o)))) ;;
   log_built a ;;
   ret (@None TkSceneNodeData))%py s =
  (Ret None,
   mkState (<[a := with_NodeData
                     (Some (mkNodeData name type (Transform o) (Attributes o)
                              (Child_Nodes o))) o]> (heap s))
           (built s ++ [a])).
Proof.
  intros Ha Hn Ht.
  unfold get_Name_of, get_Type_of.
  rewrite (bind_Ret _ (λ n, type0 <- _ ;; _)%py s name s).
  2: { by rewrite (bind_Ret _ _ _ _ _ (deref_Some _ _ _ Ha)), Hn. }
  rewrite (bind_Ret _ _ s type s).
  2: { by rewrite (bind_Ret _ _ _ _ _ (deref_Some _ _ _ Ha)), Ht. }
  rewrite (bind_Ret _ _ _ _ _ (deref_Some _ _ _ Ha)).
  rewrite (bind_Ret _ _ _ _ _ (update_Some _ _ _ _ Ha)).
  reflexivity.
Qed.

Lemma buildable_inv n h a :
  buildable (S n) h a = true ->
  ∃ o name type, h !! a = Some o ∧ Name o = Some name ∧ _Type o = Some type ∧
                 ∀ c, c ∈ Children o -> buildable n h c = true.
Proof.
  cbn [buildable]. destruct (h !! a) as [o|]; [|done].
  intros H. apply andb_prop in H as [H H3]. apply andb_prop in H as [H1 H2].
  apply bool_decide_eq_true in H1 as [name Hname].
  apply bool_decide_eq_true in H2 as [type Htype].
  exists o, name, type. repeat split; try done.
  intros c Hc. rewrite forallb_forall in H3. apply H3. by apply list_elem_of_In.
Qed.

Lemma record_of_S_eq n h a o name type :
  h !! a = Some o -> Name o = Some name -> _Type o = Some type ->
  record_of (S n) h a =
    Some (mkNodeData name type (Transform o) (Attributes o)
            (match Children o with
             | [] => None
             | cs => Some (record_of n h <$> cs)
             end)).
Proof. intros Ha Hn Ht. cbn [record_of]. by rewrite Ha, Hn, Ht. Qed.

(** The effect of [construct_data] on a buildable tree. *)
Lemma construct_data_spec n :
  ∀ a s, buildable n (heap s) a = true -> construct_data_post n a s.
Proof.
  induction n as [|n IHn]; intros a s Hb; [done|].
  destruct (buildable_inv _ _ _ Hb) as (o & name & type & Ha & Hname & Htype & Hcs).
  pose proof (record_of_S_eq n _ _ _ _ _ Ha Hname Htype) as Hrec.
  unfold construct_data_post. cbn [construct_data subtree]. rewrite Ha.
  rewrite (bind_Ret _ _ _ _ _ (deref_Some _ _ _ Ha)).
  destruct (Children o) as [|c0 cs0] eqn:Hch.
  - (* no children *)
    cbn [length Nat.eqb negb].
    set (o1 := with_Child_Nodes None o).
    set (s1 := mkState (<[a := o1]> (heap s)) (built s)).
    rewrite (bind_Ret _ _ _ _ s1 (update_Some a (with_Child_Nodes None) _ _ Ha)).
    assert (Ha1 : heap s1 !! a = Some o1) by (by eapply lookup_update_eq).
    rewrite (construct_data_finish a s1 o1 name type Ha1 Hname Htype).
    eexists _, []. split; [reflexivity|].
    cbn [heap built s1 app mbind list_bind].
    split; [|split; [|split; [|split]]].
    + eapply same_skeleton_trans; [by apply (same_skeleton_insert _ a o o1)|].
      by apply (same_skeleton_insert _ a o1).
    + intros x Hx. apply not_elem_of_cons in Hx as [Hx _].
      by rewrite !lookup_update_ne.
    + intros x Hx. apply list_elem_of_singleton in Hx as ->.
      eexists. split; [by eapply lookup_update_eq|].
      exists (S n). eexists. split; [done|]. split; [exact Hrec|]. done.
    + done.
    + intros o' c Ho' Hc. injection Ho' as <-.
      rewrite Hch in Hc. by apply elem_of_nil in Hc.
  - (* children *)
    rewrite <- Hch in *. 
    assert (Hlen : negb (Nat.eqb (length (Children o)) 0) = true)
      by (by rewrite Hch).
    rewrite Hlen.
    set (o1 := with_Child_Nodes (Some []) o).
    set (s1 := mkState (<[a := o1]> (heap s)) (built s)).
    assert (Ha1 : heap s1 !! a = Some o1) by (by eapply lookup_update_eq).
    assert (Hsk1 : same_skeleton (heap s) (heap s1))
      by (by apply (same_skeleton_insert _ a o o1)).
    destruct (construct_children n IHn (heap s) a (Children o) s1 o1 [] Hsk1 Ha1 eq_refl)
      as (s2 & t & Hloop & Hsk2 & [nd' Ha2] & Hframe & Hset & Hbuilt & Ht).
    { intros c Hc. split; [by apply Hcs|].
      by apply (not_below_itself (S n) n (heap s) a o c). }
    cbn [app] in Ha2.
    set (o2 := with_NodeData nd' (with_Child_Nodes (Some (record_of n (heap s) <$> Children o)) o1)) in *.
    rewrite (bind_Ret _ _ s tt s2).
    2: { rewrite (bind_Ret _ _ _ _ s1 (update_Some a (with_Child_Nodes (Some [])) _ _ Ha)).
         exact Hloop. }
    rewrite (construct_data_finish a s2 o2 name type Ha2 Hname Htype).
    eexists _, t. split; [reflexivity|]. cbn [heap built].
    split; [|split; [|split; [|split]]].
    + eapply same_skeleton_trans; [exact Hsk2|].
      by apply (same_skeleton_insert _ a o2).
    + intros x Hx. apply not_elem_of_cons in Hx as [Hx Hx'].
      rewrite lookup_update_ne by done. rewrite (Hframe x Hx Hx').
      cbn [heap s1]. by rewrite lookup_update_ne.
    + intros x Hx.
      destruct (decide (x = a)) as [->|Hne].
      * eexists. split; [by eapply lookup_update_eq|].
        exists (S n). eexists. split; [done|]. split; [exact Hrec|].
        split; reflexivity.
      * apply elem_of_cons in Hx as [?|Hx]; [done|].
        rewrite lookup_update_ne by done. by apply Hset.
    + rewrite Hbuilt. cbn [built s1]. by rewrite app_assoc.
    + intros o' c Ho' Hc. injection Ho' as <-. by apply Ht.
Qed.

(** ** Build returns exactly on buildable trees *)

Lemma update_Ret a f s s' :
  update a f s = (Ret tt, s') ->
  ∃ o, heap s !! a = Some o ∧ s' = mkState (<[a := f o]> (heap s)) (built s).
Proof.
  unfold update. destruct (heap s !! a) as [o|]; [|discriminate].
  intros H. exists o. split; [done|]. congruence.
Qed.

Lemma bind_Ret_inv {S A B} (m : M S A) (k : A -> M S B) s b s' :
  bind m k s = (Ret b, s') -> ∃ a s1, m s = (Ret a, s1) ∧ k a s1 = (Ret b, s').
Proof.
  unfold bind. destruct (m s) as [[a|e] s1]; [|discriminate].
  intros H. by exists a, s1.
Qed.

Lemma Child_Nodes_append_Ret a d s s' :
  Child_Nodes_append a d s = (Ret tt, s') -> same_skeleton (heap s) (heap s').
Proof.
  unfold Child_Nodes_append. intros H.
  apply bind_Ret_inv in H as (o & s1 & Hd & H).
  unfold deref in Hd. destruct (heap s !! a) as [o'|] eqn:Ha; [|discriminate].
  assert (o' = o ∧ s1 = s) as [-> ->] by (split; congruence).
  destruct (Child_Nodes o) as [l|]; [|discriminate].
  apply update_Ret in H as (o2 & Ha2 & ->). cbn [heap].
  by apply (same_skeleton_insert _ a o2).
Qed.

Section returns_buildable.
Variable n : nat.
Hypothesis IHn : ∀ a s v s',
  construct_data n a s = (Ret v, s') -> buildable n (heap s) a = true.
Variable h0 : list Object.
Variable self : addr.

Lemma construct_children_Ret (cs : list addr) :
  ∀ s s',
    same_skeleton h0 (heap s) ->
    for_each cs (construct_child n self) s = (Ret tt, s') ->
    same_skeleton h0 (heap s') ∧ ∀ c, c ∈ cs -> buildable n h0 c = true.
Proof.
  induction cs as [|c cs IHcs]; intros s s' Hsk Hrun.
  - cbn [for_each] in Hrun. unfold ret in Hrun.
    assert (s' = s) as -> by congruence.
    split; [done|]. intros c Hc. by apply elem_of_nil in Hc.
  - cbn [for_each] in Hrun.
    apply bind_Ret_inv in Hrun as ([] & s3 & Hbody & Hrest).
    unfold construct_child in Hbody.
    apply bind_Ret_inv in Hbody as (v & s1 & Hc & Hbody).
    apply bind_Ret_inv in Hbody as (d & s2 & Hd & Happ).
    pose proof (IHn _ _ _ _ Hc) as Hb.
    destruct (construct_data_spec n c s Hb) as (s1' & t & Hc' & Hsk1 & _).
    assert (s1' = s1) as -> by congruence.
    assert (s2 = s1) as ->.
    { unfold get_data, bind, deref, ret in Hd.
      destruct (heap s1 !! c); congruence. }
    apply Child_Nodes_append_Ret in Happ.
    assert (Hsk3 : same_skeleton h0 (heap s3)).
    { eapply same_skeleton_trans; [exact Hsk|].
      eapply same_skeleton_trans; [exact Hsk1|exact Happ]. }
    destruct (IHcs s3 s' Hsk3 Hrest) as [Hsk' Hcs].
    split; [done|]. intros c' Hin%elem_of_cons. destruct Hin as [->|Hin].
    + by rewrite (buildable_skeleton _ _ _ _ Hsk).
    + by apply Hcs.
Qed.
End returns_buildable.

Lemma get_attr_Ret (f : Object -> option string) (e : exn) a s v s' :
  (o <- deref a ;; if f o is Some x then ret x else raise e)%py s = (Ret v, s') ->
  ∃ o, heap s !! a = Some o ∧ f o = Some v ∧ s' = s.
Proof.
  intros H. apply bind_Ret_inv in H as (o & s1 & Hd & H).
  unfold deref in Hd. destruct (heap s !! a) as [o'|] eqn:Ha; [|discriminate].
  assert (o' = o ∧ s1 = s) as [-> ->] by (split; congruence).
  exists o. destruct (f o) as [x|]; [|discriminate].
  unfold ret in H. split; [done|]. split; congruence.
Qed.

(** When [construct_data] returns, the tree was buildable. *)
Lemma construct_data_Ret_buildable n :
  ∀ a s v s', construct_data n a s = (Ret v, s') -> buildable n (heap s) a = true.
Proof.
  induction n as [|n IHn]; intros a s v s' Hrun; [discriminate Hrun|].
  cbn [construct_data] in Hrun.
  apply bind_Ret_inv in Hrun as (o & s0 & Hd & Hrun).
  unfold deref in Hd. destruct (heap s !! a) as [o'|] eqn:Ha; [|discriminate].
  assert (o' = o ∧ s0 = s) as [-> ->] by (split; congruence).
  apply bind_Ret_inv in Hrun as ([] & s2 & Hfirst & Hrun).
  apply bind_Ret_inv in Hrun as (name & s3 & Hname & Hrun).
  apply bind_Ret_inv in Hrun as (type & s4 & Htype & _).
  apply (get_attr_Ret Name) in Hname as (o2 & Ha2 & Hname & ->).
  apply (get_attr_Ret _Type) in Htype as (o2' & Ha2' & Htype & _).
  assert (o2' = o2) as -> by congruence.
  assert (Hfacts : same_skeleton (heap s) (heap s2) ∧
                   ∀ c, c ∈ Children o -> buildable n (heap s) c = true).
  { destruct (Children o) as [|c0 cs0] eqn:Hch.
    - cbn [length Nat.eqb negb] in Hfirst.
      apply update_Ret in Hfirst as (o1 & Ha1 & ->). cbn [heap].
      split; [by apply (same_skeleton_insert _ a o1)|].
      intros c Hc. by apply elem_of_nil in Hc.
    - cbn [length Nat.eqb negb] in Hfirst.
      apply bind_Ret_inv in Hfirst as ([] & s1 & Hupd & Hloop).
      apply update_Ret in Hupd as (o1 & Ha1 & ->).
      apply (construct_children_Ret n IHn (heap s) a) in Hloop; [done|].
      cbn [heap]. by apply (same_skeleton_insert _ a o1). }
  destruct Hfacts as [Hsk Hcs].
  destruct (same_skeleton_Some _ _ _ _ Hsk Ha) as (o2' & Ha2'' & Hso).
  assert (o2' = o2) as -> by congruence.
  destruct (skeleton_fields _ _ Hso) as (Hn & Ht & _).
  cbn [buildable]. rewrite Ha, Hn, Ht, Hname, Htype.
  apply andb_true_intro. split.
  - apply andb_true_intro. split; apply bool_decide_eq_true; by eexists.
  - apply forallb_forall. intros c Hc. apply Hcs. by apply list_elem_of_In.
Qed.

Lemma construct_data_returns_iff n a s :
  buildable n (heap s) a = true ↔ ∃ v s', construct_data n a s = (Ret v, s').
Proof.
  split.
  - intros Hb. destruct (construct_data_spec n a s Hb) as (s' & _ & H & _).
    by exists None, s'.
  - intros (v & s' & H). by eapply construct_data_Ret_buildable.
Qed.

Lemma example_objects :
  Construct Model "Root" ∅ = Ret Root ∧ Construct Model "Sub" ∅ = Ret Sub ∧
  Construct Mesh "M1" {[ "Vertices" := PyInt 1; "Indexes" := PyInt 2 ]} = Ret M1 ∧
  Construct Locator "L1" ∅ = Ret L1.
Proof. split; [|split; [|split]]; vm_compute; reflexivity. Qed.

Lemma child_in_subtree n h a o c :
  buildable (S n) h a = true -> h !! a = Some o -> c ∈ Children o ->
  c ∈ subtree (S n) h a ∧ buildable n h c = true.
Proof.
  intros Hb Ha Hc.
  destruct (buildable_inv _ _ _ Hb) as (o' & _ & _ & Ha' & _ & _ & Hcs).
  rewrite Ha in Ha'. injection Ha' as <-.
  split; [|by apply Hcs].
  cbn [subtree]. rewrite Ha. apply list_elem_of_further.
  apply list_elem_of_bind. exists c. split; [|done].
  apply subtree_self. by apply Hcs.
Qed.

(** C3: Build gives the node a record whose children are the records that the
    node's children hold after the call, one per child and in the order of
    [Children] (no children sequence at all when [Children] is empty); and
    every child's record is constructed before the node's own.  The trees on
    which Build returns are the buildable ones
    ([construct_data_returns_iff]). *)
Theorem construct_data_children (n : nat) (a : addr) (s : State) (o : Object) :
  buildable n (heap s) a = true ->
  heap s !! a = Some o ->
  ∃ s' r t,
    construct_data n a s = (Ret None, s') ∧
    get_data a s' = (Ret (Some r), s') ∧
    (∃ o', heap s' !! a = Some o' ∧ Children o' = Children o) ∧
    match Children o with
    | [] => nd_Children r = None
    | _ => ∃ ds, nd_Children r = Some ds ∧
                 Forall2 (fun c d => is_Some d ∧ get_data c s' = (Ret d, s'))
                         (Children o) ds
    end ∧
    built s' = built s ++ t ++ [a] ∧
    ∀ c, c ∈ Children o -> c ∈ t.
Proof.
  intros Hb Ha.
  destruct (construct_data_spec n a s Hb) as (s' & t & Hrun & Hsk & _ & Hset & Hbuilt & Ht).
  destruct n as [|n]; [done|].
  destruct (Hset a (subtree_self _ _ _ Hb)) as (o' & Ha' & m & r & Hbm & Hrm & Hnd & _).
  exists s', r, t. split; [done|].
  split; [by rewrite (get_data_Some _ _ _ Ha'), Hnd|].
  destruct (same_skeleton_Some _ _ _ _ Hsk Ha) as (o'' & Ha'' & Hsko).
  rewrite Ha' in Ha''. injection Ha'' as <-.
  destruct (skeleton_fields _ _ Hsko) as (_ & _ & _ & _ & Hch).
  split; [exists o'; by split|].
  split; [|split; [done|intros c Hc; by apply (Ht o)]].
  rewrite (record_of_fuel m (S n) _ _ Hbm Hb) in Hrm.
  destruct (buildable_inv _ _ _ Hb) as (o0 & name & type & Ha0 & Hname & Htype & Hcs).
  rewrite Ha in Ha0. injection Ha0 as <-.
  rewrite (record_of_S_eq n _ _ _ _ _ Ha Hname Htype) in Hrm.
  injection Hrm as <-. cbn [nd_Children].
  assert (HF : Forall2 (fun c d => is_Some d ∧ get_data c s' = (Ret d, s'))
                 (Children o) (record_of n (heap s) <$> Children o)).
  { apply Forall2_fmap_r. apply Forall_Forall2_diag. apply Forall_forall.
    intros c Hc.
    destruct (child_in_subtree _ _ _ _ _ Hb Ha Hc) as [Hin Hbc].
    destruct (Hset c Hin) as (oc & Hoc & mc & rc & Hbmc & Hrmc & Hndc & _).
    rewrite (record_of_fuel mc n _ _ Hbmc Hbc) in Hrmc.
    unfold compose. cbv beta. rewrite Hrmc. split; [by eexists|].
    by rewrite (get_data_Some _ _ _ Hoc), Hndc. }
  destruct (Children o) as [|c0 cs0]; [done|].
  eexists. split; [reflexivity|]. exact HF.
Qed.

(** Scenario C of the specification. *)
Lemma construct_data_children_witness :
  ∃ s' r t,
    construct_data 3 0 scenario_C = (Ret None, s') ∧
    get_data 0 s' = (Ret (Some r), s') ∧
    (∃ o', heap s' !! 0 = Some o' ∧
           Children o' = Children (with_Children [1; 2] Root)) ∧
    match Children (with_Children [1; 2] Root) with
    | [] => nd_Children r = None
    | _ => ∃ ds, nd_Children r = Some ds ∧
                 Forall2 (fun c d => is_Some d ∧ get_data c s' = (Ret d, s'))
                         (Children (with_Children [1; 2] Root)) ds
    end ∧
    built s' = built scenario_C ++ t ++ [0] ∧
    ∀ c, c ∈ Children (with_Children [1; 2] Root) -> c ∈ t.
Proof.
  assert (Hb : buildable 3 (heap scenario_C) 0 = true) by (vm_compute; reflexivity).
  assert (Ho : heap scenario_C !! 0 =
               Some (with_ListOfMeshes (Some [1]) (with_Children [1; 2] Root)))
    by (vm_compute; reflexivity).
  exact (construct_data_children 3 0 scenario_C _ Hb Ho).
Defined.

(** C4, as the code has it: Build returns nothing ([None]); it stores the
    newly constructed record in [NodeData], where [get_data] finds it.  The
    record is made of the node's name, type, transform and attributes and of
    its children's records: one per child, in the order of [Children], each
    the record that the child holds after the call (no children sequence at
    all when [Children] is empty). *)
Theorem construct_data_stores_record (n : nat) (a : addr) (s : State) (o : Object) :
  buildable n (heap s) a = true ->
  heap s !! a = Some o ->
  ∃ s' r,
    construct_data n a s = (Ret None, s') ∧
    get_data a s' = (Ret (Some r), s') ∧
    Name o = Some (nd_Name r) ∧ _Type o = Some (nd_Type r) ∧
    nd_Transform r = Transform o ∧ nd_Attributes r = Attributes o ∧
    match Children o with
    | [] => nd_Children r = None
    | _ => ∃ ds, nd_Children r = Some ds ∧
                 Forall2 (fun c d => is_Some d ∧ get_data c s' = (Ret d, s'))
                         (Children o) ds
    end.
Proof.
  intros Hb Ha.
  destruct (construct_data_spec n a s Hb) as (s' & t & Hrun & _ & _ & Hset & _).
  destruct n as [|n]; [done|].
  destruct (Hset a (subtree_self _ _ _ Hb)) as (o' & Ha' & m & r & Hbm & Hrm & Hnd & _).
  exists s', r. split; [done|].
  split; [by rewrite (get_data_Some _ _ _ Ha'), Hnd|].
  rewrite (record_of_fuel m (S n) _ _ Hbm Hb) in Hrm.
  destruct (buildable_inv _ _ _ Hb) as (o0 & name & type & Ha0 & Hname & Htype & Hcs).
  rewrite Ha in Ha0. injection Ha0 as <-.
  rewrite (record_of_S_eq n _ _ _ _ _ Ha Hname Htype) in Hrm.
  injection Hrm as <-. cbn [nd_Name nd_Type nd_Transform nd_Attributes nd_Children].
  split; [done|]. split; [done|]. split; [done|]. split; [done|].
  assert (HF : Forall2 (fun c d => is_Some d ∧ get_data c s' = (Ret d, s'))
                 (Children o) (record_of n (heap s) <$> Children o)).
  { apply Forall2_fmap_r. apply Forall_Forall2_diag. apply Forall_forall.
    intros c Hc.
    destruct (child_in_subtree _ _ _ _ _ Hb Ha Hc) as [Hin Hbc].
    destruct (Hset c Hin) as (oc & Hoc & mc & rc & Hbmc & Hrmc & Hndc & _).
    rewrite (record_of_fuel mc n _ _ Hbmc Hbc) in Hrmc.
    unfold compose. cbv beta. rewrite Hrmc. split; [by eexists|].
    by rewrite (get_data_Some _ _ _ Hoc), Hndc. }
  destruct (Children o) as [|c0 cs0]; [done|].
  eexists. split; [reflexivity|]. exact HF.
Qed.

(** Scenario C of the specification: the record of [Root] holds the records
    of [M1] and [L1]. *)
Lemma construct_data_stores_record_witness :
  let o := with_ListOfMeshes (Some [1]) (with_Children [1; 2] Root) in
  ∃ s' r,
    construct_data 3 0 scenario_C = (Ret None, s') ∧
    get_data 0 s' = (Ret (Some r), s') ∧
    Name o = Some (nd_Name r) ∧ _Type o = Some (nd_Type r) ∧
    nd_Transform r = Transform o ∧ nd_Attributes r = Attributes o ∧
    match Children o with
    | [] => nd_Children r = None
    | _ => ∃ ds, nd_Children r = Some ds ∧
                 Forall2 (fun c d => is_Some d ∧ get_data c s' = (Ret d, s'))
                         (Children o) ds
    end.
Proof.
  intros o.
  assert (Hb : buildable 3 (heap scenario_C) 0 = true) by (vm_compute; reflexivity).
  assert (Ho : heap scenario_C !! 0 = Some o) by (vm_compute; reflexivity).
  exact (construct_data_stores_record 3 0 scenario_C o Hb Ho).
Defined.

(** C4 as stated fails: on a single Locator, Build returns [None] while the
    record it constructed is in [NodeData]. *)
Lemma construct_data_returns_record_counterexample :
  let s := mkState [L1] [] in
  let s' := run (construct_data 1 0) s in
  fst (construct_data 1 0 s) = Ret None ∧
  fst (get_data 0 s') =
    Ret (Some (mkNodeData "L1" "LOCATOR" TkTransformData None None)) ∧
  fst (construct_data 1 0 s) ≠ fst (get_data 0 s').
Proof. vm_compute. split; [reflexivity|]. split; [reflexivity|]. discriminate. Qed.

Lemma skeleton_eq o o' :
  skeleton o = skeleton o' -> NodeData o = NodeData o' ->
  Child_Nodes o = Child_Nodes o' -> o = o'.
Proof.
  destruct o, o'. unfold skeleton, with_NodeData, with_Child_Nodes. cbn.
  intros H1 H2 H3. injection H1. intros. by subst.
Qed.

(** C9: a second Build of the unmodified tree returns again and leaves every
    node with a record equal to the one the first Build left; the store is
    the same after the second call as after the first. *)
Theorem construct_data_twice (n : nat) (a : addr) (s : State) :
  buildable n (heap s) a = true ->
  ∃ s1 s2,
    construct_data n a s = (Ret None, s1) ∧
    construct_data n a s1 = (Ret None, s2) ∧
    heap s2 = heap s1 ∧
    ∀ x, fst (get_data x s2) = fst (get_data x s1).
Proof.
  intros Hb.
  destruct (construct_data_spec n a s Hb) as (s1 & t1 & Hrun1 & Hsk1 & _ & Hset1 & _).
  assert (Hb1 : buildable n (heap s1) a = true)
    by (by rewrite <- (buildable_skeleton _ _ _ _ Hsk1)).
  destruct (construct_data_spec n a s1 Hb1) as (s2 & t2 & Hrun2 & Hsk2 & Hframe2 & Hset2 & _).
  exists s1, s2. split; [done|]. split; [done|].
  assert (Heq : heap s2 = heap s1).
  { apply list_eq. intros x.
    destruct (decide (x ∈ subtree n (heap s1) a)) as [Hin|Hnin]; [|by apply Hframe2].
    destruct (Hset2 x Hin) as (o2 & Ho2 & Hs2).
    rewrite <- (subtree_skeleton _ _ _ _ Hsk1) in Hin.
    destruct (Hset1 x Hin) as (o1 & Ho1 & Hs1).
    apply (settled_skeleton _ _ _ _ Hsk1) in Hs1.
    rewrite Ho1, Ho2. f_equal.
    destruct (same_skeleton_Some _ _ _ _ Hsk2 Ho1) as (o2' & Ho2' & Hsko).
    rewrite Ho2 in Ho2'. injection Ho2' as <-.
    destruct Hs1 as (m1 & r1 & Hb1' & Hr1 & Hn1 & Hc1).
    destruct Hs2 as (m2 & r2 & Hb2' & Hr2 & Hn2 & Hc2).
    rewrite (record_of_fuel m2 m1 _ _ Hb2' Hb1'), Hr1 in Hr2. injection Hr2 as <-.
    symmetry. apply skeleton_eq; congruence. }
  split; [done|]. intros x. unfold get_data, bind, deref. rewrite Heq.
  by destruct (heap s1 !! x).
Qed.

Lemma construct_data_twice_witness :
  ∃ s1 s2,
    construct_data 3 0 scenario_C = (Ret None, s1) ∧
    construct_data 3 0 s1 = (Ret None, s2) ∧
    heap s2 = heap s1 ∧
    ∀ x, fst (get_data x s2) = fst (get_data x s1).
Proof. apply (construct_data_twice 3 0 scenario_C). vm_compute. reflexivity. Defined.

(** ** Attaching children *)

Lemma accessors_lookup h x o :
  h !! x = Some o ->
  parent_of h x = Parent o ∧ children_of h x = Children o ∧
  is_mesh h x = IsMesh o ∧ registry h x = ListOfMeshes o ∧
  class_of h x = Some (class_ o).
Proof.
  intros H. unfold parent_of, children_of, is_mesh, registry, class_of.
  by rewrite H.
Qed.

Lemma parent_of_Some h x p :
  parent_of h x = Some p -> ∃ o, h !! x = Some o ∧ Parent o = Some p.
Proof.
  unfold parent_of. destruct (h !! x) as [o|]; [|done]. intros H. by exists o.
Qed.

Lemma is_mesh_true h x :
  is_mesh h x = true -> ∃ o, h !! x = Some o ∧ IsMesh o = true.
Proof.
  unfold is_mesh. destruct (h !! x) as [o|]; [|done]. intros H. by exists o.
Qed.

Lemma chain_allocated h x r k : chain h x r k -> is_Some (h !! x).
Proof.
  intros H. destruct H as [x Hx _|x p r k Hp _]; [done|].
  apply parent_of_Some in Hp as (o & -> & _). by eexists.
Qed.

Lemma chain_end h x r k : chain h x r k -> is_Some (h !! r) ∧ parent_of h r = None.
Proof. induction 1; auto. Qed.

Lemma chain_on_chain h x r k : chain h x r k -> on_chain h x r.
Proof. induction 1; [apply on_chain_here|by eapply on_chain_up]. Qed.

Lemma chain_functional h x r k r' k' :
  chain h x r k -> chain h x r' k' -> r = r' ∧ k = k'.
Proof.
  intros H. revert r' k'. induction H as [x Hx Hp|x p r k Hp H IH]; intros r' k' H'.
  - destruct H' as [|x p' r' k' Hp' _]; [done|congruence].
  - destruct H' as [x _ Hp'|x p' r' k' Hp' H']; [congruence|].
    assert (p' = p) as -> by congruence.
    destruct (IH _ _ H') as [-> ->]. done.
Qed.

(** A chain is still there when nothing on it changed its parent. *)
Lemma chain_frame h h' x r k :
  chain h x r k ->
  (∀ y, on_chain h x y -> parent_of h' y = parent_of h y) ->
  (∀ y, is_Some (h !! y) -> is_Some (h' !! y)) ->
  chain h' x r k.
Proof.
  intros H Hpar Hal. induction H as [x Hx Hp|x p r k Hp H IH].
  - apply chain_top; [by apply Hal|]. rewrite Hpar; [done|apply on_chain_here].
  - apply chain_up with p.
    + rewrite Hpar; [done|apply on_chain_here].
    + apply IH. intros y Hy. apply Hpar. by eapply on_chain_up.
Qed.

(** [populate_meshlist] walks the chain of [p]: it needs more fuel than the
    chain has links, and succeeds exactly when the node at the end has a
    [ListOfMeshes]. *)
Lemma populate_meshlist_chain s p r k :
  chain (heap s) p r k ->
  ∀ fuel c,
    populate_meshlist fuel p c s =
      if decide (fuel ≤ k) then (Raise RecursionError, s)
      else match heap s !! r with
           | Some o =>
               match ListOfMeshes o with
               | Some l =>
                   (Ret tt,
                    mkState (<[r := with_ListOfMeshes (Some (l ++ [c])) o]> (heap s))
                            (built s))
               | None => (Raise (AttributeError "ListOfMeshes"), s)
               end
           | None => (Raise DanglingReference, s)
           end.
Proof.
  induction 1 as [x [o Hx] Hp|x p r k Hp H IH]; intros fuel c.
  - destruct fuel as [|fuel]; [done|].
    rewrite decide_False by lia. cbn [populate_meshlist].
    rewrite (bind_Ret _ _ _ _ _ (deref_Some _ _ _ Hx)).
    destruct (accessors_lookup _ _ _ Hx) as (Hpo & _). rewrite Hpo in Hp.
    rewrite Hp, Hx. destruct (ListOfMeshes o) as [l|]; [|done].
    by apply update_Some.
  - destruct fuel as [|fuel]; [by rewrite decide_True by lia|].
    cbn [populate_meshlist].
    destruct (parent_of_Some _ _ _ Hp) as (o & Hx & Hpo).
    rewrite (bind_Ret _ _ _ _ _ (deref_Some _ _ _ Hx)), Hpo, IH.
    destruct (decide (fuel ≤ k)), (decide (S fuel ≤ S k)); try done; lia.
Qed.

Lemma accessors_insert h a o o' x :
  h !! a = Some o ->
  (is_Some (<[a := o']> h !! x) ↔ is_Some (h !! x)) ∧
  parent_of (<[a := o']> h) x = (if decide (x = a) then Parent o' else parent_of h x) ∧
  children_of (<[a := o']> h) x = (if decide (x = a) then Children o' else children_of h x) ∧
  is_mesh (<[a := o']> h) x = (if decide (x = a) then IsMesh o' else is_mesh h x) ∧
  registry (<[a := o']> h) x = (if decide (x = a) then ListOfMeshes o' else registry h x) ∧
  class_of (<[a := o']> h) x = (if decide (x = a) then Some (class_ o') else class_of h x).
Proof.
  intros Ha. unfold parent_of, children_of, is_mesh, registry, class_of.
  rewrite (lookup_update _ _ _ _ _ Ha).
  destruct (decide (x = a)) as [->|E].
  - destruct (decide (a = a)); [|done]. rewrite Ha. repeat split; by eexists.
  - destruct (decide (a = x)) as [->|]; done.
Qed.

(** The first two statements of [add_child], and what follows them. *)
Lemma add_child_run fuel p c s op oc :
  heap s !! p = Some op -> heap s !! c = Some oc -> p ≠ c ->
  add_child fuel p c s =
    let s2 := mkState (<[c := with_Parent (Some p) oc]>
                         (<[p := with_Children (Children op ++ [c]) op]> (heap s)))
                      (built s) in
    if IsMesh oc then populate_meshlist fuel p c s2 else (Ret tt, s2).
Proof.
  intros Hp Hc Hne. unfold add_child, give_parent.
  rewrite (bind_Ret _ _ _ _ _ (update_Some _ _ _ _ Hp)).
  assert (Hc1 : <[p := with_Children (Children op ++ [c]) op]> (heap s) !! c = Some oc)
    by (by rewrite lookup_update_ne).
  rewrite (bind_Ret _ _ _ _ _
             (update_Some c _ (mkState (<[p := with_Children (Children op ++ [c]) op]> (heap s))
                                       (built s)) oc Hc1)).
  cbn [heap built].
  erewrite bind_Ret; [|apply deref_Some; cbn [heap]; by eapply lookup_update_eq].
  cbn [IsMesh with_Parent]. by destruct (IsMesh oc).
Qed.

Lemma attached_first_two h p c op oc :
  h !! p = Some op -> h !! c = Some oc -> p ≠ c ->
  attached h (<[c := with_Parent (Some p) oc]>
                (<[p := with_Children (Children op ++ [c]) op]> h)) p c None.
Proof.
  intros Hp Hc Hne.
  assert (Hc1 : <[p := with_Children (Children op ++ [c]) op]> h !! c = Some oc)
    by (by rewrite lookup_update_ne).
  destruct (accessors_lookup _ _ _ Hp) as (Hpp & Hpc & Hpm & Hpr & Hpk).
  destruct (accessors_lookup _ _ _ Hc) as (Hcp & Hcc & Hcm & Hcr & Hck).
  unfold attached. split; [|split; [|split; [|split; [|split]]]]; intros x;
    destruct (accessors_insert _ c oc (with_Parent (Some p) oc) x Hc1)
      as (E0 & E1 & E2 & E3 & E4 & E5);
    destruct (accessors_insert _ p op (with_Children (Children op ++ [c]) op) x Hp)
      as (F0 & F1 & F2 & F3 & F4 & F5).
  - rewrite E0. apply F0.
  - rewrite E1, F1. cbn [Parent with_Parent with_Children].
    destruct (decide (x = c)); [done|]. destruct (decide (x = p)) as [->|]; done.
  - rewrite E2, F2. cbn [Children with_Parent with_Children].
    destruct (decide (x = c)) as [->|].
    + rewrite decide_False by done. done.
    + destruct (decide (x = p)) as [->|]; [by rewrite Hpc|done].
  - rewrite E3, F3. cbn [IsMesh with_Parent with_Children].
    destruct (decide (x = c)) as [->|]; [done|].
    destruct (decide (x = p)) as [->|]; done.
  - rewrite E4, F4. cbn [ListOfMeshes with_Parent with_Children].
    destruct (decide (None = Some x)) as [?|_]; [done|].
    destruct (decide (x = c)) as [->|]; [done|].
    destruct (decide (x = p)) as [->|]; done.
  - rewrite E5, F5. cbn [class_ with_Parent with_Children].
    destruct (decide (x = c)) as [->|]; [done|].
    destruct (decide (x = p)) as [->|]; done.
Qed.

Lemma attached_registered h h2 p c r o l :
  attached h h2 p c None ->
  h2 !! r = Some o -> ListOfMeshes o = Some l ->
  attached h (<[r := with_ListOfMeshes (Some (l ++ [c])) o]> h2) p c (Some r).
Proof.
  intros (A0 & A1 & A2 & A3 & A4 & A5) Hr Hl.
  destruct (accessors_lookup _ _ _ Hr) as (Hrp & Hrc & Hrm & Hrr & Hrk).
  unfold attached. split; [|split; [|split; [|split; [|split]]]]; intros x;
    destruct (accessors_insert _ r o (with_ListOfMeshes (Some (l ++ [c])) o) x Hr)
      as (E0 & E1 & E2 & E3 & E4 & E5).
  - rewrite E0. apply A0.
  - rewrite E1, <- A1. cbn [Parent with_ListOfMeshes].
    destruct (decide (x = r)) as [->|]; done.
  - rewrite E2, <- A2. cbn [Children with_ListOfMeshes].
    destruct (decide (x = r)) as [->|]; done.
  - rewrite E3, <- A3. cbn [IsMesh with_ListOfMeshes].
    destruct (decide (x = r)) as [->|]; done.
  - rewrite E4. cbn [ListOfMeshes with_ListOfMeshes].
    pose proof (A4 x) as A4x.
    destruct (decide (None = Some x)) as [?|_]; [done|].
    destruct (decide (x = r)) as [->|Hne].
    + rewrite decide_True by done. rewrite <- A4x, Hrr, Hl. done.
    + rewrite decide_False by congruence. done.
  - rewrite E5, <- A5. cbn [class_ with_ListOfMeshes].
    destruct (decide (x = r)) as [->|]; done.
Qed.

(** Every way a call of [add_child] can go, when the parent's chain ends at
    [r] after [k] links and the child is not on it. *)
Lemma add_child_cases fuel p c s r k :
  chain (heap s) p r k ->
  ¬ on_chain (heap s) p c ->
  is_Some (heap s !! c) ->
  ∃ s' reg,
    attached (heap s) (heap s') p c reg ∧ built s' = built s ∧
    ((is_mesh (heap s) c = false ∧ reg = None ∧
      add_child fuel p c s = (Ret tt, s')) ∨
     (is_mesh (heap s) c = true ∧ fuel ≤ k ∧ reg = None ∧
      add_child fuel p c s = (Raise RecursionError, s')) ∨
     (is_mesh (heap s) c = true ∧ k < fuel ∧ registry (heap s) r = None ∧
      reg = None ∧
      add_child fuel p c s = (Raise (AttributeError "ListOfMeshes"), s')) ∨
     (is_mesh (heap s) c = true ∧ k < fuel ∧ is_Some (registry (heap s) r) ∧
      reg = Some r ∧
      add_child fuel p c s = (Ret tt, s'))).
Proof.
  intros Hchain Hnot [oc Hc].
  destruct (chain_allocated _ _ _ _ Hchain) as [op Hp].
  assert (Hne : p ≠ c) by (intros ->; apply Hnot, on_chain_here).
  rewrite (add_child_run fuel p c s op oc Hp Hc Hne). cbv zeta.
  pose proof (attached_first_two _ _ _ _ _ Hp Hc Hne) as Hatt.
  set (h2 := <[c := with_Parent (Some p) oc]>
               (<[p := with_Children (Children op ++ [c]) op]> (heap s))) in *.
  destruct (accessors_lookup _ _ _ Hc) as (_ & _ & Hcm & _).
  rewrite Hcm. destruct (IsMesh oc).
  - (* the child is registered *)
    assert (Hchain2 : chain h2 p r k).
    { destruct Hatt as (A0 & A1 & _).
      apply (chain_frame _ _ _ _ _ Hchain).
      - intros y Hy. rewrite A1. rewrite decide_False; [done|]. by intros ->.
      - intros y. apply A0. }
    rewrite (populate_meshlist_chain (mkState h2 (built s)) p r k Hchain2).
    cbn [heap built].
    destruct (decide (fuel ≤ k)) as [Hle|Hgt].
    { exists (mkState h2 (built s)), None. split; [done|]. split; [done|].
      right. left. done. }
    destruct (chain_end _ _ _ _ Hchain2) as [[o2 Hr2] _].
    rewrite Hr2.
    assert (Hreg : registry (heap s) r = ListOfMeshes o2).
    { destruct Hatt as (_ & _ & _ & _ & A4 & _).
      destruct (accessors_lookup _ _ _ Hr2) as (_ & _ & _ & <- & _).
      rewrite A4. by destruct (decide (None = Some r)). }
    destruct (ListOfMeshes o2) as [l|] eqn:Hl.
    + exists (mkState (<[r := with_ListOfMeshes (Some (l ++ [c])) o2]> h2) (built s)),
        (Some r).
      split; [by eapply attached_registered|].
      split; [done|]. right. right. right.
      rewrite Hreg. repeat split; [lia|by eexists].
    + exists (mkState h2 (built s)), None. split; [done|]. split; [done|].
      right. right. left. repeat split; [lia|done].
  - exists (mkState h2 (built s)), None. split; [done|]. split; [done|].
    left. done.
Qed.

Lemma constructed_registry o :
  constructed o -> is_Some (ListOfMeshes o) -> class_ o = KModel.
Proof.
  intros (v & name & kwargs & Hv) Hl.
  destruct v; cbn [Construct] in Hv; try discriminate Hv;
    unfold Mesh_init, Locator_init, Collision_init, Model_init, Reference_init in Hv;
    rewrite super_init_same in Hv; cbn [omap_outcome] in Hv.
  - match type of Hv with context [determine_included_streams ?x] =>
      destruct (determine_included_streams_fields x) as [ps Hps]; rewrite Hps in Hv end.
    injection Hv as <-. by destruct Hl.
  - injection Hv as <-. by destruct Hl.
  - destruct (py_eq_str _ _).
    + match type of Hv with context [determine_included_streams ?x] =>
        destruct (determine_included_streams_fields x) as [ps Hps]; rewrite Hps in Hv end.
      injection Hv as <-. by destruct Hl.
    + injection Hv as <-. by destruct Hl.
  - by injection Hv as <-.
  - injection Hv as <-. by destruct Hl.
Qed.

(** C10, as the code has it: when the parent's chain ends at a parentless
    node that is not a Model and the mesh-bearing child is neither the parent
    nor one of its ancestors, [add_child] raises [AttributeError], after it has
    appended the child to the parent's [Children] and set the child's
    [Parent].  Only Models have a registry in every store assembled with
    [add_child] ([assembled_registries]); the recursion limit is taken
    larger than the length of the chain. *)
Theorem add_child_mesh_without_Model
    (fuel : nat) (p c : addr) (s : State) (r : addr) (k : nat) :
  registries_on_Models (heap s) ->
  chain (heap s) p r k ->
  class_of (heap s) r ≠ Some KModel ->
  is_mesh (heap s) c = true ->
  ¬ on_chain (heap s) p c ->
  k < fuel ->
  ∃ s', add_child fuel p c s = (Raise (AttributeError "ListOfMeshes"), s') ∧
        children_of (heap s') p = children_of (heap s) p ++ [c] ∧
        parent_of (heap s') c = Some p.
Proof.
  intros Hmodels Hchain Hclass Hmesh Hnot Hfuel.
  destruct (is_mesh_true _ _ Hmesh) as (oc & Hc & _).
  assert (Hreg : registry (heap s) r = None).
  { destruct (chain_end _ _ _ _ Hchain) as [[o Hr] _].
    destruct (accessors_lookup _ _ _ Hr) as (_ & _ & _ & -> & Hk).
    destruct (ListOfMeshes o) as [l|] eqn:Hl; [|done].
    exfalso. apply Hclass. rewrite Hk. f_equal.
    apply (Hmodels r o Hr). rewrite Hl. by eexists. }
  destruct (add_child_cases fuel p c s r k Hchain Hnot) as
    (s' & reg & Hatt & _ & [H|[H|[H|H]]]); [by eexists|..].
  - destruct H as (H & _). congruence.
  - destruct H as (_ & H & _). lia.
  - destruct H as (_ & _ & _ & -> & Hrun).
    exists s'. split; [done|].
    destruct Hatt as (_ & A1 & A2 & _).
    rewrite A1, A2, !decide_True by done. done.
  - destruct H as (_ & _ & [l Hl] & _). congruence.
Qed.

Lemma Some_eq_inv {A} (a b : A) : Some a = Some b -> a = b.
Proof. congruence. Qed.

(** A Locator with a Mesh to attach, at addresses 0 and 1. *)
Lemma add_child_mesh_without_Model_witness :
  ∃ s', add_child 1 0 1 (mkState [L1; M1] []) =
          (Raise (AttributeError "ListOfMeshes"), s') ∧
        children_of (heap s') 0 = children_of [L1; M1] 0 ++ [1] ∧
        parent_of (heap s') 1 = Some 0.
Proof.
  apply (add_child_mesh_without_Model 1 0 1 (mkState [L1; M1] []) 0 0).
  - intros x o Hx [l Hl]. destruct x as [|[|x]].
    + apply Some_eq_inv in Hx. subst o. vm_compute in Hl. discriminate Hl.
    + apply Some_eq_inv in Hx. subst o. vm_compute in Hl. discriminate Hl.
    + vm_compute in Hx. discriminate Hx.
  - apply chain_top; [exists L1; reflexivity|]. vm_compute. reflexivity.
  - vm_compute. discriminate.
  - vm_compute. reflexivity.
  - intros H. inversion H as [|x p y Hp _]. subst. vm_compute in Hp. discriminate Hp.
  - lia.
Defined.

(** Walking up from a node whose ancestors all have a parent never ends. *)
Lemma populate_meshlist_cycle fuel :
  ∀ s x c,
    (∀ y, on_chain (heap s) x y -> is_Some (parent_of (heap s) y)) ->
    populate_meshlist fuel x c s = (Raise RecursionError, s).
Proof.
  induction fuel as [|fuel IH]; intros s x c Hall; [done|].
  cbn [populate_meshlist].
  destruct (Hall x (on_chain_here _ _)) as [p Hp].
  destruct (parent_of_Some _ _ _ Hp) as (o & Hx & Hpo).
  rewrite (bind_Ret _ _ _ _ _ (deref_Some _ _ _ Hx)), Hpo.
  apply IH. intros y Hy. apply Hall. by eapply on_chain_up.
Qed.

Lemma on_chain_closed (P : addr -> Prop) h x y :
  on_chain h x y -> P x -> (∀ a b, P a -> parent_of h a = Some b -> P b) -> P y.
Proof.
  intros H Hx Hstep. induction H as [x|x p y Hp _ IH]; [done|].
  apply IH. by eapply Hstep.
Qed.

(** C10 as stated fails when the child is an ancestor of the parent: with a
    Locator [L1] below the parentless Mesh [M1], [L1.add_child(M1)] closes a
    cycle of parents before the registration walks it, and the call ends in
    [RecursionError] whatever the recursion limit. *)
Lemma add_child_mesh_without_Model_counterexample :
  let s := Locator_below_Mesh in
  registries_on_Models (heap s) ∧
  chain (heap s) 1 0 1 ∧
  class_of (heap s) 0 = Some KMesh ∧
  is_mesh (heap s) 0 = true ∧
  ∀ fuel, fst (add_child fuel 1 0 s) = Raise RecursionError.
Proof.
  cbv zeta.
  assert (H0 : heap Locator_below_Mesh !! 0 = Some (with_Children [1] M1))
    by (vm_compute; reflexivity).
  assert (H1 : heap Locator_below_Mesh !! 1 = Some (with_Parent (Some 0) L1))
    by (vm_compute; reflexivity).
  assert (H2 : ∀ x, heap Locator_below_Mesh !! S (S x) = None)
    by (intros x; vm_compute; reflexivity).
  assert (P0 : parent_of (heap Locator_below_Mesh) 0 = None)
    by (vm_compute; reflexivity).
  assert (P1 : parent_of (heap Locator_below_Mesh) 1 = Some 0)
    by (vm_compute; reflexivity).
  split; [|split; [|split; [|split]]].
  - intros x o Hx [l Hl]. destruct x as [|[|x]].
    + rewrite H0 in Hx. apply Some_eq_inv in Hx. subst o.
      vm_compute in Hl. discriminate Hl.
    + rewrite H1 in Hx. apply Some_eq_inv in Hx. subst o.
      vm_compute in Hl. discriminate Hl.
    + rewrite H2 in Hx. discriminate Hx.
  - apply chain_up with 0; [exact P1|].
    apply chain_top; [rewrite H0; by eexists|exact P0].
  - vm_compute. reflexivity.
  - vm_compute. reflexivity.
  - intros fuel.
    rewrite (add_child_run fuel 1 0 _ _ _ H1 H0) by done. cbv zeta.
    replace (IsMesh (with_Children [1] M1)) with true by (vm_compute; reflexivity).
    rewrite populate_meshlist_cycle; [done|].
    cbn [heap]. intros y Hy.
    set (h2 := <[0:=with_Parent (Some 1) (with_Children [1] M1)]>
                 (<[1:=with_Children (Children (with_Parent (Some 0) L1) ++ [0])
                         (with_Parent (Some 0) L1)]> (heap Locator_below_Mesh))) in *.
    assert (Q0 : parent_of h2 0 = Some 1) by (vm_compute; reflexivity).
    assert (Q1 : parent_of h2 1 = Some 0) by (vm_compute; reflexivity).
    assert (Q2 : ∀ x, parent_of h2 (S (S x)) = None)
      by (intros x; vm_compute; reflexivity).
    assert (Hlt : y < 2).
    { apply (on_chain_closed (fun a => a < 2) _ _ _ Hy); [lia|].
      intros a b Ha Hab. destruct a as [|[|a]]; [| |lia].
      - rewrite Q0 in Hab. injection Hab as <-. lia.
      - rewrite Q1 in Hab. injection Hab as <-. lia. }
    destruct y as [|[|y]]; [| |lia].
    + rewrite Q0. by eexists.
    + rewrite Q1. by eexists.
Qed.

(** ** The registry of meshes *)

Lemma add_child_allocated fuel p c s s' :
  add_child fuel p c s = (Ret tt, s') -> is_Some (heap s !! p).
Proof.
  unfold add_child, bind, update. destruct (heap s !! p); [by eexists|done].
Qed.

Lemma chain_parentless h c r k :
  chain h c r k -> parent_of h c = None -> r = c ∧ k = 0.
Proof. intros H Hp. destruct H as [|x p r k Hx _]; [done|congruence]. Qed.

(** From a node on the chain of [x], the rest of the chain. *)
Lemma chain_suffix h x y r k :
  on_chain h x y -> chain h x r k -> ∃ k', chain h y r k'.
Proof.
  intros Hon. revert r k. induction Hon as [x|x p y Hp _ IH]; intros r k H.
  - by exists k.
  - destruct H as [x _ Hx|x p' r k Hp' H]; [congruence|].
    assert (p' = p) as -> by congruence. by eapply IH.
Qed.

Lemma descendant_snoc h a q x :
  descendant h a q -> x ∈ children_of h q -> descendant h a x.
Proof.
  induction 1 as [a c Hc|a c q Hc _ IH]; intros Hx.
  - eapply descendant_below; [exact Hc|]. by apply descendant_child.
  - eapply descendant_below; [exact Hc|]. by apply IH.
Qed.

Section attach_in_order.
Variable calls : list (addr * addr).
Variables h h' : list Object.
Variables p c rp : addr.
Variable kp : nat.
Variable reg : option addr.
Hypothesis Hinv : tree_invariant calls h.
Hypothesis Hatt : attached h h' p c reg.
Hypothesis Hchain : chain h p rp kp.
Hypothesis Hc_par : parent_of h c = None.
Hypothesis Hc_alloc : is_Some (h !! c).
Hypothesis Hnot : ¬ on_chain h p c.
Hypothesis Hbare : ∀ x, descendant h c x -> is_mesh h x = false.
Hypothesis Hreg :
  (is_mesh h c = false ∧ reg = None) ∨
  (is_mesh h c = true ∧ reg = Some rp ∧ is_Some (registry h rp)).

Lemma attach_parent x :
  parent_of h' x = if decide (x = c) then Some p else parent_of h x.
Proof. apply Hatt. Qed.

Lemma attach_children x :
  children_of h' x =
    if decide (x = p) then children_of h x ++ [c] else children_of h x.
Proof. apply Hatt. Qed.

Lemma attach_parent_old x q : parent_of h x = Some q -> parent_of h' x = Some q.
Proof.
  intros Hx. rewrite attach_parent. rewrite decide_False; [done|].
  intros ->. congruence.
Qed.

Lemma attach_root_ne : rp ≠ c.
Proof. intros <-. apply Hnot. by eapply chain_on_chain. Qed.

(** A chain that does not end at the child is untouched. *)
Lemma attach_chain_old x r k : chain h x r k -> r ≠ c -> chain h' x r k.
Proof.
  intros H Hr. apply (chain_frame _ _ _ _ _ H).
  - intros y Hy. rewrite attach_parent. rewrite decide_False; [done|].
    intros ->. destruct (chain_suffix _ _ _ _ _ Hy H) as [k' Hk'].
    by destruct (chain_parentless _ _ _ _ Hk' Hc_par).
  - intros y. apply Hatt.
Qed.

(** A chain that ended at the child goes on to the parent's root. *)
Lemma attach_chain_new x r k :
  chain h x r k -> r = c -> chain h' x rp (k + S kp).
Proof.
  induction 1 as [x Hx Hp|x q r k Hq H IH]; intros Hr.
  - subst x. cbn [Nat.add]. apply chain_up with p.
    + rewrite attach_parent. by rewrite decide_True.
    + apply attach_chain_old; [done|apply attach_root_ne].
  - cbn [Nat.add]. apply chain_up with q; [by apply attach_parent_old|by apply IH].
Qed.

Lemma attach_chain_inv x r k :
  chain h' x r k ->
  (r ≠ c ∧ chain h x r k) ∨ (r = rp ∧ ∃ k0, chain h x c k0).
Proof.
  intros H.
  assert (Hal : is_Some (h !! x)) by (apply Hatt; by eapply chain_allocated).
  destruct (inv_chain _ _ Hinv x Hal) as (r0 & k0 & H0).
  destruct (decide (r0 = c)) as [->|Hne].
  - right. pose proof (attach_chain_new _ _ _ H0 eq_refl) as H1.
    destruct (chain_functional _ _ _ _ _ _ H H1) as [-> _]. split; [done|by exists k0].
  - left. pose proof (attach_chain_old _ _ _ H0 Hne) as H1.
    destruct (chain_functional _ _ _ _ _ _ H H1) as [-> ->]. done.
Qed.

(** Below the child in the old store: what had its chain end there. *)
Lemma chain_descendant x r k :
  chain h x r k -> x ≠ r -> descendant h r x.
Proof.
  induction 1 as [x Hx Hp|x q r k Hq H IH]; intros Hne; [done|].
  pose proof (inv_parent _ _ Hinv x q Hq) as Hin.
  destruct (decide (q = r)) as [->|Hqr].
  - by apply descendant_child.
  - eapply descendant_snoc; [by apply IH|done].
Qed.

Lemma attach_mesh_below_child x k :
  chain h x c k -> is_mesh h x = true -> x = c.
Proof.
  intros H Hm. destruct (decide (x = c)) as [|Hne]; [done|].
  pose proof (Hbare x (chain_descendant _ _ _ H Hne)). congruence.
Qed.

(** The mesh-bearing nodes under a parentless node, after the call. *)
Lemma attach_members r0 x :
  r0 ≠ c ->
  (is_mesh h x = true ∧ x ≠ r0 ∧ ∃ k, chain h' x r0 k) ↔
  (is_mesh h x = true ∧ x ≠ r0 ∧ ∃ k, chain h x r0 k) ∨
  (x = c ∧ is_mesh h c = true ∧ r0 = rp).
Proof.
  intros Hr0. split.
  - intros (Hm & Hne & k & H).
    destruct (attach_chain_inv _ _ _ H) as [[_ H0]|[-> [k0 H0]]].
    + left. split; [done|]. split; [done|]. by exists k.
    + right. pose proof (attach_mesh_below_child _ _ H0 Hm) as ->. done.
  - intros [(Hm & Hne & k & H)|(-> & Hm & ->)].
    + split; [done|]. split; [done|]. exists k. by apply attach_chain_old.
    + split; [done|]. split; [done|]. exists (0 + S kp).
      apply (attach_chain_new c c 0); [by apply chain_top|done].
Qed.

Lemma attach_reg_rp r0 :
  reg = Some r0 -> r0 = rp ∧ is_mesh h c = true ∧ ∃ l, registry h rp = Some l.
Proof.
  intros ->. destruct Hreg as [[_ ?]|(Hm & Hr & Hl)]; [done|].
  split; [congruence|done].
Qed.

Lemma attach_not_reg r0 :
  reg ≠ Some r0 -> ¬ (is_mesh h c = true ∧ r0 = rp).
Proof.
  intros Hne [Hm ->]. destruct Hreg as [[? _]|(_ & ? & _)]; congruence.
Qed.

Lemma attach_invariant : tree_invariant (calls ++ [(p, c)]) h'.
Proof.
  pose proof Hatt as (A0 & A1 & A2 & A3 & A4 & A5).
  split.
  - (* children have their parent *)
    intros x c' Hc'. rewrite attach_children in Hc'.
    destruct (decide (x = p)) as [->|Hxp].
    + apply elem_of_app in Hc' as [Hc'|Hc'].
      * apply attach_parent_old. by apply (inv_children _ _ Hinv).
      * apply list_elem_of_singleton in Hc' as ->.
        rewrite attach_parent. by rewrite decide_True.
    + apply attach_parent_old. by apply (inv_children _ _ Hinv).
  - (* a node is among its parent's children *)
    intros c' q Hq. rewrite attach_parent in Hq. rewrite attach_children.
    destruct (decide (c' = c)) as [->|Hne].
    + injection Hq as <-. rewrite decide_True by done.
      apply elem_of_app. right. by apply list_elem_of_singleton.
    + pose proof (inv_parent _ _ Hinv c' q Hq) as Hin.
      destruct (decide (q = p)); [|done]. apply elem_of_app. by left.
  - (* every chain ends *)
    intros x Hx. apply A0 in Hx.
    destruct (inv_chain _ _ Hinv x Hx) as (r & k & H).
    destruct (decide (r = c)) as [Hr|Hr].
    + exists rp, (k + S kp). by apply (attach_chain_new x r k).
    + exists r, k. by apply attach_chain_old.
  - (* the registries *)
    intros r0 Hal Hpar.
    assert (Hr0 : r0 ≠ c).
    { intros ->. rewrite attach_parent in Hpar. by rewrite decide_True in Hpar. }
    rewrite attach_parent, decide_False in Hpar by done.
    apply A0 in Hal.
    pose proof (inv_registry _ _ Hinv r0 Hal Hpar) as R.
    rewrite A4.
    destruct (decide (reg = Some r0)) as [Hreg0|Hreg0].
    + destruct (attach_reg_rp _ Hreg0) as (-> & Hm & l & Hl).
      rewrite Hl in R |- *.
      cbn [fmap option_fmap option_map].
      destruct R as (Hnd & Hmem & Hsub).
      split; [|split].
      * apply NoDup_app. split; [done|]. split; [|apply NoDup_singleton].
        intros x Hx Hxc. apply list_elem_of_singleton in Hxc as ->.
        apply Hmem in Hx as (_ & Hne & k & H).
        by destruct (chain_parentless _ _ _ _ H Hc_par).
      * intros x. rewrite A3, (attach_members rp x Hr0), <- Hmem.
        rewrite elem_of_app, list_elem_of_singleton.
        split; (intros [?|?]; [by left|right]); [by subst|tauto].
      * rewrite fmap_app. by apply sublist_app.
    + assert (Hno : ∀ x, ¬ (x = c ∧ is_mesh h c = true ∧ r0 = rp)).
      { intros x (_ & Hm & Hr). by apply (attach_not_reg r0 Hreg0). }
      destruct (registry h r0) as [l|] eqn:Hl.
      * destruct R as (Hnd & Hmem & Hsub).
        split; [done|]. split.
        -- intros x. rewrite A3, (attach_members r0 x Hr0), <- Hmem.
           split; [by left|]. intros [?|?]; [done|]. by destruct (Hno x).
        -- rewrite fmap_app. by apply sublist_inserts_r.
      * intros x k H Hne. rewrite A3.
        destruct (is_mesh h x) eqn:Hm; [|done]. exfalso.
        assert (Hx : is_mesh h x = true ∧ x ≠ r0 ∧ ∃ k, chain h' x r0 k)
          by (split; [done|]; split; [done|]; by exists k).
        apply (attach_members r0 x Hr0) in Hx as [(_ & _ & k0 & H0)|Hx].
        -- pose proof (R x k0 H0 Hne). congruence.
        -- by destruct (Hno x).
  - (* attached children keep the parent they were given *)
    intros q c' Hin. apply elem_of_app in Hin as [Hin|Hin].
    + apply attach_parent_old. by apply (inv_calls _ _ Hinv).
    + apply list_elem_of_singleton in Hin. injection Hin as -> ->.
      rewrite attach_parent. by rewrite decide_True.
  - (* no node is attached twice *)
    rewrite fmap_app. apply NoDup_app. split; [apply (inv_once _ _ Hinv)|].
    split; [|apply NoDup_singleton].
    intros x Hx Hxc. apply list_elem_of_singleton in Hxc as ->.
    apply list_elem_of_fmap in Hx as ([q c'] & Hq & Hin). cbn in Hq. subst c'.
    pose proof (inv_calls _ _ Hinv q c Hin). congruence.
Qed.

End attach_in_order.

(** A freshly constructed node has no parent, no children, and an empty
    registry if it has one. *)
Lemma constructed_fresh o :
  constructed o ->
  Parent o = None ∧ Children o = [] ∧
  (ListOfMeshes o = None ∨ ListOfMeshes o = Some []).
Proof.
  intros (v & name & kwargs & Hv).
  destruct v; cbn [Construct] in Hv; try discriminate Hv;
    unfold Mesh_init, Locator_init, Collision_init, Model_init, Reference_init in Hv;
    rewrite super_init_same in Hv; cbn [omap_outcome] in Hv.
  - match type of Hv with context [determine_included_streams ?x] =>
      destruct (determine_included_streams_fields x) as [ps Hps]; rewrite Hps in Hv end.
    injection Hv as <-. split; [done|]. split; [done|]. by left.
  - injection Hv as <-. split; [done|]. split; [done|]. by left.
  - destruct (py_eq_str _ _).
    + match type of Hv with context [determine_included_streams ?x] =>
        destruct (determine_included_streams_fields x) as [ps Hps]; rewrite Hps in Hv end.
      injection Hv as <-. split; [done|]. split; [done|]. by left.
    + injection Hv as <-. split; [done|]. split; [done|]. by left.
  - injection Hv as <-. split; [done|]. split; [done|]. by right.
  - injection Hv as <-. split; [done|]. split; [done|]. by left.
Qed.

Lemma fresh_invariant h : Forall constructed h -> tree_invariant [] h.
Proof.
  intros Hall.
  assert (Hfresh : ∀ x o, h !! x = Some o ->
            Parent o = None ∧ Children o = [] ∧
            (ListOfMeshes o = None ∨ ListOfMeshes o = Some [])).
  { intros x o Hx. apply constructed_fresh.
    rewrite Forall_forall in Hall. apply Hall. by eapply list_elem_of_lookup_2. }
  assert (Hpar : ∀ x, parent_of h x = None).
  { intros x. destruct (h !! x) as [o|] eqn:Hx.
    - destruct (accessors_lookup _ _ _ Hx) as (-> & _).
      by destruct (Hfresh x o Hx) as (-> & _).
    - unfold parent_of. by rewrite Hx. }
  assert (Htop : ∀ x r k, chain h x r k -> x = r).
  { intros x r k H. destruct H as [|x p r k Hp _]; [done|]. by rewrite Hpar in Hp. }
  split.
  - intros x c Hc. destruct (h !! x) as [o|] eqn:Hx.
    + destruct (accessors_lookup _ _ _ Hx) as (_ & Hco & _). rewrite Hco in Hc.
      destruct (Hfresh x o Hx) as (_ & Hch & _). rewrite Hch in Hc.
      by apply elem_of_nil in Hc.
    + unfold children_of in Hc. rewrite Hx in Hc. by apply elem_of_nil in Hc.
  - intros c p Hp. by rewrite Hpar in Hp.
  - intros x Hx. exists x, 0. by apply chain_top.
  - intros r [o Hr] _.
    destruct (accessors_lookup _ _ _ Hr) as (_ & _ & _ & -> & _).
    destruct (Hfresh r o Hr) as (_ & _ & [-> | ->]).
    + intros x k H Hne. by destruct Hne, (Htop _ _ _ H).
    + split; [apply NoDup_nil_2|]. split; [|apply sublist_nil_l].
      intros x. split; [by intros ?%elem_of_nil|].
      intros (_ & Hne & k & H). by destruct Hne, (Htop _ _ _ H).
  - intros p c Hin. by apply elem_of_nil in Hin.
  - apply NoDup_nil_2.
Qed.

Lemma pair_eq_inv {A B} (a a' : A) (b b' : B) : (a, b) = (a', b') -> b = b'.
Proof. congruence. Qed.

(** One call of [add_child] in order keeps the structure. *)
Lemma in_order_step calls s fuel p c s' :
  tree_invariant calls (heap s) ->
  is_Some (heap s !! c) ->
  parent_of (heap s) c = None ->
  ¬ on_chain (heap s) p c ->
  (∀ x, descendant (heap s) c x -> is_mesh (heap s) x = false) ->
  add_child fuel p c s = (Ret tt, s') ->
  tree_invariant (calls ++ [(p, c)]) (heap s').
Proof.
  intros Hinv Hc Hpar Hnot Hbare Hrun.
  pose proof (add_child_allocated _ _ _ _ _ Hrun) as Hp.
  destruct (inv_chain _ _ Hinv p Hp) as (rp & kp & Hchain).
  destruct (add_child_cases fuel p c s rp kp Hchain Hnot Hc)
    as (s1 & reg & Hatt & _ & Hcases).
  assert (Hs : s1 = s' ∧
               ((is_mesh (heap s) c = false ∧ reg = None) ∨
                (is_mesh (heap s) c = true ∧ reg = Some rp ∧
                 is_Some (registry (heap s) rp)))).
  { destruct Hcases as [(Hm & Hr & H)|[(_ & _ & _ & H)|[(_ & _ & _ & _ & H)|(Hm & _ & Hl & Hr & H)]]];
      rewrite Hrun in H; try discriminate H.
    - split; [by apply pair_eq_inv in H|]. by left.
    - split; [by apply pair_eq_inv in H|]. by right. }
  destruct Hs as [-> Hreg].
  by apply (attach_invariant calls (heap s) (heap s') p c rp kp reg).
Qed.

Lemma in_order_invariant calls s :
  assembled_in_order calls s -> tree_invariant calls (heap s).
Proof.
  induction 1 as [h Hall|calls s fuel p c s' _ IH Hc Hpar Hnot Hbare Hrun].
  - by apply fresh_invariant.
  - by eapply in_order_step.
Qed.

(** Under the invariant, the nodes below a parentless node are those whose
    chain of parents ends at it. *)
Lemma descendant_chain calls h a x :
  tree_invariant calls h -> descendant h a x ->
  ∀ r k, chain h a r k -> ∃ k', chain h x r (S k').
Proof.
  intros Hinv. induction 1 as [a c Hc|a c x Hc _ IH]; intros r k H.
  - exists k. apply chain_up with a; [|done]. by apply (inv_children _ _ Hinv).
  - apply (IH r (S k)). apply chain_up with a; [|done].
    by apply (inv_children _ _ Hinv).
Qed.

Lemma below_root calls h root x :
  tree_invariant calls h -> is_Some (h !! root) -> parent_of h root = None ->
  descendant h root x ↔ x ≠ root ∧ ∃ k, chain h x root k.
Proof.
  intros Hinv Hal Hpar. split.
  - intros Hd.
    destruct (descendant_chain _ _ _ _ Hinv Hd root 0 (chain_top _ _ Hal Hpar))
      as [k' H].
    split; [|by eexists].
    intros ->. by destruct (chain_parentless _ _ _ _ H Hpar).
  - intros (Hne & k & H). by eapply chain_descendant.
Qed.

(** C1, as the code has it: when every call of [add_child] attaches a node
    that has no parent yet, is not the parent or one of its ancestors, and has
    no mesh-bearing node below it, the [ListOfMeshes] of a parentless node
    holds exactly the mesh-bearing nodes below that node, at any depth, each
    once, in the order of the calls that attached them. *)
Theorem mesh_registry_of_root
    (calls : list (addr * addr)) (s : State) (root : addr) (l : list addr) :
  assembled_in_order calls s ->
  parent_of (heap s) root = None ->
  registry (heap s) root = Some l ->
  (∀ x, x ∈ l ↔ is_mesh (heap s) x = true ∧ descendant (heap s) root x) ∧
  NoDup l ∧
  l `sublist_of` (snd <$> calls) ∧
  NoDup (snd <$> calls).
Proof.
  intros Hasm Hpar Hl.
  pose proof (in_order_invariant _ _ Hasm) as Hinv.
  assert (Hal : is_Some (heap s !! root)).
  { unfold registry in Hl. destruct (heap s !! root); [by eexists|done]. }
  pose proof (inv_registry _ _ Hinv root Hal Hpar) as R. rewrite Hl in R.
  destruct R as (Hnd & Hmem & Hsub).
  split; [|split; [done|split; [done|apply (inv_once _ _ Hinv)]]].
  intros x. rewrite Hmem, (below_root _ _ _ x Hinv Hal Hpar). tauto.
Qed.

(** A call in order returns, given enough fuel, unless it has a mesh-bearing
    child to register and the parent's chain ends at a node without a
    registry. *)
Lemma in_order_add_child_returns calls s p c :
  tree_invariant calls (heap s) ->
  is_Some (heap s !! p) -> is_Some (heap s !! c) ->
  ¬ on_chain (heap s) p c ->
  (is_mesh (heap s) c = true ->
   ∀ r k, chain (heap s) p r k -> is_Some (registry (heap s) r)) ->
  ∃ fuel0, ∀ fuel, fuel0 ≤ fuel -> ∃ s', add_child fuel p c s = (Ret tt, s').
Proof.
  intros Hinv Hp Hc Hnot Hreg.
  destruct (inv_chain _ _ Hinv p Hp) as (r & k & Hchain).
  exists (S k). intros fuel Hfuel.
  destruct (add_child_cases fuel p c s r k Hchain Hnot Hc)
    as (s1 & reg & _ & _ & [H|[H|[H|H]]]).
  - exists s1. by destruct H as (_ & _ & H).
  - destruct H as (_ & H & _). lia.
  - destruct H as (Hm & _ & Hnone & _).
    destruct (Hreg Hm r k Hchain) as [l Hl]. congruence.
  - exists s1. by destruct H as (_ & _ & _ & _ & H).
Qed.

Lemma childless_no_descendant h c x :
  children_of h c = [] -> ¬ descendant h c x.
Proof.
  intros Hc H. destruct H as [r c' Hin|r c' x Hin _];
    rewrite Hc in Hin; by apply elem_of_nil in Hin.
Qed.

Lemma example_objects_constructed :
  constructed Root ∧ constructed Sub ∧ constructed M1 ∧ constructed L1.
Proof.
  destruct example_objects as (HR & HS & HM & HL).
  split; [|split; [|split]]; eexists _, _, _; eassumption.
Qed.

(** [deep_mesh] is assembled in order: the Mesh is attached to a Locator that
    is already below the Model. *)
Lemma deep_mesh_in_order : assembled_in_order [(0, 1); (1, 2)] deep_mesh.
Proof.
  destruct example_objects_constructed as (HR & _ & HM & HL).
  set (s0 := mkState [Root; L1; M1] []).
  set (s1 := run (add_child 3 0 1) s0).
  assert (E : deep_mesh = run (add_child 3 1 2) s1) by (vm_compute; reflexivity).
  rewrite E. clear E.
  assert (P0 : parent_of (heap s1) 0 = None) by (vm_compute; reflexivity).
  assert (P1 : parent_of (heap s1) 1 = Some 0) by (vm_compute; reflexivity).
  assert (P2 : parent_of (heap s1) 2 = None) by (vm_compute; reflexivity).
  apply (in_order_add [(0, 1)] s1 3 1 2).
  - apply (in_order_add [] s0 3 0 1).
    + apply in_order_new. repeat constructor; assumption.
    + exists L1. reflexivity.
    + vm_compute. reflexivity.
    + intros H. inversion H as [|x p y Hp _]. subst.
      vm_compute in Hp. discriminate Hp.
    + intros x Hx. exfalso. revert Hx. apply childless_no_descendant.
      vm_compute. reflexivity.
    + vm_compute. reflexivity.
  - exists M1. vm_compute. reflexivity.
  - exact P2.
  - intros H.
    assert (Hlt : 2 < 2); [|lia].
    apply (on_chain_closed (fun a => a < 2) _ _ _ H); [lia|].
    intros a b Ha Hab. destruct a as [|[|a]]; [| |lia].
    + rewrite P0 in Hab. discriminate Hab.
    + rewrite P1 in Hab. injection Hab as <-. lia.
  - intros x Hx. exfalso. revert Hx. apply childless_no_descendant.
    vm_compute. reflexivity.
  - vm_compute. reflexivity.
Qed.

(** A Mesh two levels below the Model is registered on the Model. *)
Lemma mesh_registry_of_root_witness :
  (∀ x, x ∈ [2] ↔ is_mesh (heap deep_mesh) x = true ∧
                  descendant (heap deep_mesh) 0 x) ∧
  NoDup [2] ∧
  [2] `sublist_of` (snd <$> [(0, 1); (1, 2)]) ∧
  NoDup (snd <$> [(0, 1); (1, 2)]).
Proof.
  apply (mesh_registry_of_root [(0, 1); (1, 2)] deep_mesh 0 [2]).
  - exact deep_mesh_in_order.
  - vm_compute. reflexivity.
  - vm_compute. reflexivity.
Defined.

(** C1 as stated fails: [Sub.add_child(M1)] registers the Mesh on the Model
    [Sub], which has no parent at that time; [Root.add_child(Sub)] then
    registers nothing, since [Sub] is not mesh-bearing.  The tree is assembled
    with [add_child] alone, and the registry of its root is empty although a
    Mesh sits below the root. *)
Lemma mesh_registry_of_root_counterexample :
  assembled [(1, 2); (0, 1)] nested_Models ∧
  parent_of (heap nested_Models) 0 = None ∧
  registry (heap nested_Models) 0 = Some [] ∧
  is_mesh (heap nested_Models) 2 = true ∧
  descendant (heap nested_Models) 0 2 ∧
  ¬ (∀ x, x ∈ [] ↔ is_mesh (heap nested_Models) x = true ∧
                   descendant (heap nested_Models) 0 x).
Proof.
  destruct example_objects_constructed as (HR & HS & HM & _).
  set (s0 := mkState [Root; Sub; M1] []).
  set (s1 := run (add_child 3 1 2) s0).
  assert (E : nested_Models = run (add_child 3 0 1) s1) by (vm_compute; reflexivity).
  assert (Hasm : assembled [(1, 2); (0, 1)] nested_Models).
  { rewrite E. apply (assembled_add [(1, 2)] s1 3 0 1).
    - apply (assembled_add [] s0 3 1 2).
      + apply assembled_new. repeat constructor; assumption.
      + vm_compute. reflexivity.
    - vm_compute. reflexivity. }
  assert (Hmesh : is_mesh (heap nested_Models) 2 = true) by (vm_compute; reflexivity).
  assert (C0 : children_of (heap nested_Models) 0 = [1]) by (vm_compute; reflexivity).
  assert (C1 : children_of (heap nested_Models) 1 = [2]) by (vm_compute; reflexivity).
  assert (Hdesc : descendant (heap nested_Models) 0 2).
  { apply descendant_below with 1.
    - rewrite C0. apply list_elem_of_here.
    - apply descendant_child. rewrite C1. apply list_elem_of_here. }
  split; [exact Hasm|]. split; [vm_compute; reflexivity|].
  split; [vm_compute; reflexivity|]. split; [exact Hmesh|]. split; [exact Hdesc|].
  intros H. apply (elem_of_nil 2). apply H. by split.
Qed.

(** ** Only Models have a registry, whatever [add_child] does *)

Lemma bind_inv {S A B} (m : M S A) (k : A -> M S B) s r s' :
  bind m k s = (r, s') ->
  (∃ a s1, m s = (Ret a, s1) ∧ k a s1 = (r, s')) ∨
  (∃ e, m s = (Raise e, s') ∧ r = Raise e).
Proof.
  unfold bind. destruct (m s) as [[a|e] s1]; intros H.
  - left. by exists a, s1.
  - right. exists e. split; congruence.
Qed.

Lemma update_registries a f s r s' :
  (∀ o, heap s !! a = Some o ->
        class_ (f o) = class_ o ∧
        (is_Some (ListOfMeshes (f o)) -> is_Some (ListOfMeshes o))) ->
  update a f s = (r, s') ->
  registries_on_Models (heap s) -> registries_on_Models (heap s').
Proof.
  intros Hf Hrun HP. unfold update in Hrun.
  destruct (heap s !! a) as [o|] eqn:Ha; [|by assert (s' = s) as -> by congruence].
  assert (s' = mkState (<[a := f o]> (heap s)) (built s)) as -> by congruence.
  cbn [heap]. intros x ox Hx Hl.
  rewrite (lookup_update _ _ _ _ _ Ha) in Hx.
  destruct (decide (a = x)) as [->|Hne]; [|by apply (HP x)].
  apply Some_eq_inv in Hx. subst ox.
  destruct (Hf o eq_refl) as [-> Hreg]. apply (HP x o Ha). by apply Hreg.
Qed.

Lemma deref_inv a s r s' : deref a s = (r, s') -> s' = s.
Proof. unfold deref. destruct (heap s !! a); congruence. Qed.

Lemma populate_meshlist_registries fuel :
  ∀ x c s r s',
    populate_meshlist fuel x c s = (r, s') ->
    registries_on_Models (heap s) -> registries_on_Models (heap s').
Proof.
  induction fuel as [|fuel IH]; intros x c s r s' Hrun HP.
  - cbn in Hrun. unfold raise in Hrun. by assert (s' = s) as -> by congruence.
  - cbn [populate_meshlist] in Hrun.
    apply bind_inv in Hrun as [(o & s1 & Hd & Hrun)|(e & Hd & _)];
      [|by rewrite (deref_inv _ _ _ _ Hd)].
    pose proof (deref_inv _ _ _ _ Hd) as ->.
    destruct (Parent o) as [p|]; [by eapply IH|].
    destruct (ListOfMeshes o) as [l|] eqn:Hl.
    + eapply update_registries; [|exact Hrun|exact HP].
      intros o' Ho'. split; [done|]. intros _.
      unfold deref in Hd. rewrite Ho' in Hd.
      assert (o' = o) as -> by congruence. rewrite Hl. by eexists.
    + unfold raise in Hrun. by assert (s' = s) as -> by congruence.
Qed.

Lemma add_child_registries fuel p c s r s' :
  add_child fuel p c s = (r, s') ->
  registries_on_Models (heap s) -> registries_on_Models (heap s').
Proof.
  intros Hrun HP. unfold add_child, give_parent in Hrun.
  apply bind_inv in Hrun as [([] & s1 & H1 & Hrun)|(e & H1 & _)];
    (eapply update_registries in H1; [|by intros o _|exact HP]); [|done].
  apply bind_inv in Hrun as [([] & s2 & H2 & Hrun)|(e & H2 & _)];
    (eapply update_registries in H2; [|by intros o _|exact H1]); [|done].
  apply bind_inv in Hrun as [(oc & s3 & Hd & Hrun)|(e & Hd & _)];
    pose proof (deref_inv _ _ _ _ Hd) as ->; [|done].
  destruct (IsMesh oc).
  - by eapply populate_meshlist_registries.
  - unfold ret in Hrun. by assert (s' = s2) as -> by congruence.
Qed.

(** Every store assembled with [add_child] has its registries on Models. *)
Lemma assembled_registries calls s :
  assembled calls s -> registries_on_Models (heap s).
Proof.
  induction 1 as [h Hall|calls s fuel p c s' _ IH Hrun].
  - intros x o Hx Hl. apply constructed_registry; [|done].
    rewrite Forall_forall in Hall. apply Hall. by eapply list_elem_of_lookup_2.
  - by eapply add_child_registries.
Qed.

(** ** The scenarios of the specification on the example objects *)

(** Scenario B: a Mesh given Vertices and Indexes only. *)
Example scenario_B_streams :
  provided_streams M1 = {[ "Vertices"; "Indexes" ]}.
Proof. vm_compute. reflexivity. Qed.

(** Scenario C: the registry of [Root] after both calls. *)
Example scenario_C_registry :
  registry (heap scenario_C) 0 = Some [1] ∧
  children_of (heap scenario_C) 0 = [1; 2].
Proof. split; vm_compute; reflexivity. Qed.

(** * Further properties of the code *)

(** ** Attribute creation: schemas, missing data, repeated calls *)

(** X1: given the six keys it reads, a Mesh's [create_attributes] makes the
    attributes the nine pairs of its schema, in order, with FIRSTSKINMAT and
    LASTSKINMAT 0 and MESHLINK the node's name followed by "Shape"; nothing
    else of the node changes. *)
Theorem Mesh_create_attributes_schema
    (self : Object) (d : pydict) (name : string) (bs bc vs ve m a : pyval) :
  class_ self = KMesh ->
  Name self = Some name ->
  d !! "BATCHSTART" = Some bs -> d !! "BATCHCOUNT" = Some bc ->
  d !! "VERTRSTART" = Some vs -> d !! "VERTREND" = Some ve ->
  d !! "MATERIAL" = Some m -> d !! "ATTACHMENT" = Some a ->
  create_attributes (Some d) self =
    (Ret tt,
     with_Attributes
       (Some [mkAttribute "BATCHSTART" bs; mkAttribute "BATCHCOUNT" bc;
              mkAttribute "VERTRSTART" vs; mkAttribute "VERTREND" ve;
              mkAttribute "FIRSTSKINMAT" (PyInt 0);
              mkAttribute "LASTSKINMAT" (PyInt 0);
              mkAttribute "MATERIAL" m;
              mkAttribute "MESHLINK" (PyStr (name +:+ "Shape"));
              mkAttribute "ATTACHMENT" a]) self).
Proof. intros. by run_attributes. Qed.

Lemma Mesh_create_attributes_schema_witness :
  Attributes
    (snd (create_attributes
            (Some {[ "BATCHSTART" := PyInt 0; "BATCHCOUNT" := PyInt 36;
                     "VERTRSTART" := PyInt 0; "VERTREND" := PyInt 23;
                     "MATERIAL" := PyStr "MAT.MBIN";
                     "ATTACHMENT" := PyStr "" ]}) M1)) =
  Some [mkAttribute "BATCHSTART" (PyInt 0); mkAttribute "BATCHCOUNT" (PyInt 36);
        mkAttribute "VERTRSTART" (PyInt 0); mkAttribute "VERTREND" (PyInt 23);
        mkAttribute "FIRSTSKINMAT" (PyInt 0);
        mkAttribute "LASTSKINMAT" (PyInt 0);
        mkAttribute "MATERIAL" (PyStr "MAT.MBIN");
        mkAttribute "MESHLINK" (PyStr "M1Shape");
        mkAttribute "ATTACHMENT" (PyStr "")].
Proof.
  rewrite (Mesh_create_attributes_schema M1 _ "M1"
             (PyInt 0) (PyInt 36) (PyInt 0) (PyInt 23) (PyStr "MAT.MBIN") (PyStr ""));
    vm_compute; reflexivity.
Defined.

(** X2: without a data mapping ([None]), the variants that always read it
    raise [TypeError]: a Mesh and a Model before anything is assigned, a
    Collision after its attributes have been reset to the single TYPE pair.  A
    Collision of a sub-type other than the five known ones reads no key and
    returns with that single pair. *)
Theorem create_attributes_without_data (self : Object) :
  (class_ self = KMesh ∨ class_ self = KModel ->
   create_attributes None self = (Raise TypeError, self)) ∧
  (class_ self = KCollision ->
   ∀ ctype, dict_ self !! "CType" = Some ctype ->
     create_attributes None self =
       (match Collision_required_keys ctype with
        | [] => Ret tt
        | _ => Raise TypeError
        end,
        with_Attributes (Some [mkAttribute "TYPE" ctype]) self)).
Proof.
  split.
  - intros [H|H]; by run_attributes.
  - intros Hc ctype Ht. unfold Collision_required_keys.
    destruct (py_eq_str ctype "Mesh") eqn:E1; [by run_attributes|].
    destruct (py_eq_str ctype "Box") eqn:E2; [by run_attributes|].
    destruct (py_eq_str ctype "Sphere") eqn:E3; [by run_attributes|].
    destruct (py_eq_str ctype "Capsule") eqn:E4; [by run_attributes|].
    destruct (py_eq_str ctype "Cylinder") eqn:E5; by run_attributes.
Qed.

Lemma create_attributes_without_data_witness :
  create_attributes None M1 = (Raise TypeError, M1).
Proof.
  apply (proj1 (create_attributes_without_data M1)). left. vm_compute. reflexivity.
Defined.

(** X3: a call of [create_attributes] that raises on a node that is not a
    Collision has assigned nothing: the node is as it was before the call. *)
Theorem create_attributes_raise_unchanged
    (self : Object) (data : option pydict) (e : exn) (s' : Object) :
  class_ self ≠ KCollision ->
  create_attributes data self = (Raise e, s') ->
  s' = self.
Proof.
  intros Hc. unfold create_attributes.
  destruct (class_ self) eqn:Hk; try done; clear Hc;
    unfold Locator_create_attributes, Joint_create_attributes,
      Emitter_create_attributes, Mesh_create_attributes,
      Model_create_attributes, Reference_create_attributes,
      set_Attributes, subscript, getattr, get_Name, bind, ret, raise, modify;
    destruct data as [d|];
    repeat match goal with
           | |- context [?d !! ?k] => destruct (d !! k)
           | |- context [Name ?o] => destruct (Name o)
           end;
    congruence.
Qed.

Lemma create_attributes_raise_unchanged_witness :
  snd (create_attributes (Some ∅) M1) = M1.
Proof.
  apply (create_attributes_raise_unchanged M1 (Some ∅) (KeyError "BATCHSTART")).
  - vm_compute. discriminate.
  - vm_compute. reflexivity.
Defined.

(** X4: a Collision is not left as it was when a key is missing: its
    attributes are first replaced by the single TYPE pair, and the pairs of
    the keys read before the missing one have been appended when [KeyError]
    is raised.  Nothing else of the node changes. *)
Theorem Collision_create_attributes_partial
    (self : Object) (ctype : pyval) (d : pydict)
    (pre post : list string) (k : string) (vs : list pyval) :
  class_ self = KCollision ->
  dict_ self !! "CType" = Some ctype ->
  Collision_required_keys ctype = pre ++ k :: post ->
  Forall2 (fun k0 v => d !! k0 = Some v) pre vs ->
  d !! k = None ->
  create_attributes (Some d) self =
    (Raise (KeyError k),
     with_Attributes
       (Some (mkAttribute "TYPE" ctype :: zip_with mkAttribute pre vs)) self).
Proof.
  intros Hc Ht Hk Hpre Hd.
  unfold Collision_required_keys in Hk.
  repeat match type of Hk with
         | context [py_eq_str ?c ?s] =>
             let E := fresh "E" in destruct (py_eq_str c s) eqn:E; cbn [orb] in Hk
         end.
  all: repeat (destruct pre as [|? pre];
               [injection Hk as <- <-
               |try (injection Hk as <- Hk)]);
       try (by destruct pre);
       try discriminate Hk.
  all: repeat match goal with
         | H : Forall2 _ (_ :: _) _ |- _ =>
             apply Forall2_cons_inv_l in H as (? & ? & ? & H & ->)
         | H : Forall2 _ [] _ |- _ => apply Forall2_nil_inv_l in H as ->
         end.
  all: cbn [zip_with]; by run_attributes.
Qed.

Lemma Collision_create_attributes_partial_witness :
  ∃ self, Construct Collision "C2" {[ "CollisionType" := PyStr "Box" ]} = Ret self ∧
    create_attributes (Some {[ "WIDTH" := PyInt 1; "DEPTH" := PyInt 2 ]}) self =
      (Raise (KeyError "HEIGHT"),
       with_Attributes (Some [mkAttribute "TYPE" (PyStr "Box");
                              mkAttribute "WIDTH" (PyInt 1)]) self).
Proof.
  eexists. split; [reflexivity|].
  apply (Collision_create_attributes_partial _ (PyStr "Box") _
           ["WIDTH"] ["DEPTH"] "HEIGHT" [PyInt 1]);
    [reflexivity | reflexivity | reflexivity | | reflexivity].
  constructor; [reflexivity | constructor].
Defined.

(** X5: a call of [create_attributes] that returned can be repeated with the
    same data: the second call returns too and leaves the node as the first
    call left it, so no attribute is emitted twice. *)
Theorem create_attributes_idempotent
    (self : Object) (data : option pydict) (s1 : Object) :
  create_attributes data self = (Ret tt, s1) ->
  create_attributes data s1 = (Ret tt, s1).
Proof.
  intros H. unfold create_attributes in H.
  destruct (class_ self) eqn:Hk; try discriminate H.
  all: unfold Locator_create_attributes, Joint_create_attributes,
      Emitter_create_attributes, Mesh_create_attributes,
      Collision_create_attributes, Model_create_attributes,
      Reference_create_attributes, Attributes_append,
      set_Attributes, subscript, getattr, get_Name, bind, ret, raise, get, put,
      modify in H.
  all: destruct data as [d|].
  all: repeat first
    [ progress cbn [Attributes with_Attributes dict_ Name class_ orb app] in H
    | match goal with E : _ !! _ = _ |- _ => rewrite E in H end
    | match type of H with
      | context [py_eq_str ?c ?s] =>
          let E := fresh "E" in destruct (py_eq_str c s) eqn:E
      | context [Name ?o] =>
          let E := fresh "E" in destruct (Name o) eqn:E
      | context [dict_ ?o !! ?k] =>
          let E := fresh "E" in destruct (dict_ o !! k) eqn:E
      end
    | match type of H with
      | context [@lookup _ _ _ _ ?k ?d] =>
          let E := fresh "E" in destruct (d !! k) eqn:E
      end ].
  all: try discriminate H.
  all: injection H as <-.
  all: by run_attributes.
Qed.

Lemma create_attributes_idempotent_witness :
  let self := from_Ret (Construct Collision "C1" {[ "CollisionType" := PyStr "Sphere" ]}) in
  let data := Some ({[ "RADIUS" := PyFloat 25 (-1) ]} : pydict) in
  create_attributes data (snd (create_attributes data self)) =
    (Ret tt, snd (create_attributes data self)).
Proof.
  intros self data.
  apply (create_attributes_idempotent self data).
  vm_compute. reflexivity.
Defined.

(** ** Constructed nodes *)

Lemma constructed_initialized (o : Object) :
  constructed o ->
  initialized o = true ∧ Attributes o = None ∧
  ∃ v, v ≠ Joint ∧ v ≠ Emitter ∧ class_ o = variant_class v ∧
       _Type o = Some (variant_tag v).
Proof.
  intros (v & name & kwargs & Hv).
  assert (Hne : v ≠ Joint ∧ v ≠ Emitter).
  { split; intros ->; cbn [Construct] in Hv; discriminate Hv. }
  destruct Hne as [HJ HE].
  destruct (Construct_five v name kwargs HJ HE)
    as (self & Hs & Hc & _ & Ht & _ & _ & Ha & _ & Hi).
  assert (self = o) as -> by congruence.
  split; [done|]. split; [done|]. by exists v.
Qed.

Ltac attribute_cases H :=
  unfold create_attributes in H;
  repeat first
    [ progress cbn [Attributes with_Attributes dict_ Name class_ orb app] in H
    | match goal with E : _ !! _ = _ |- _ => rewrite E in H end
    | match goal with E : class_ _ = _ |- _ => rewrite E in H end
    | match goal with E : Name _ = _ |- _ => rewrite E in H end
    | match goal with E : py_eq_str _ _ = _ |- _ => rewrite E in H end
    | progress unfold Locator_create_attributes, Joint_create_attributes,
        Emitter_create_attributes, Mesh_create_attributes,
        Collision_create_attributes, Model_create_attributes,
        Reference_create_attributes, Attributes_append,
        set_Attributes, subscript, getattr, get_Name, bind, ret, raise, get,
        put, modify in H
    | match type of H with
      | context [py_eq_str ?c ?s] =>
          let E := fresh "E" in destruct (py_eq_str c s) eqn:E
      | context [Name ?o] =>
          let E := fresh "E" in destruct (Name o) eqn:E
      | context [dict_ ?o !! ?k] =>
          let E := fresh "E" in destruct (dict_ o !! k) eqn:E
      end
    | match type of H with
      | context [@lookup _ _ _ _ ?k ?d] =>
          let E := fresh "E" in destruct (d !! k) eqn:E
      end ].

(** X6: on a node that a constructor returned, [create_attributes] with a
    data mapping returns exactly when the mapping holds every key that the
    node's variant reads.  When it raises, the error is [TypeError] for a
    missing mapping or [KeyError] for one of those keys: a constructed node
    lacks no attribute that the method reads. *)
Theorem constructed_create_attributes (o : Object) :
  constructed o ->
  (∀ d, (∃ s', create_attributes (Some d) o = (Ret tt, s')) ↔
        Forall (fun k => is_Some (d !! k)) (required_keys o)) ∧
  (∀ data e s', create_attributes data o = (Raise e, s') ->
     (data = None ∧ e = TypeError) ∨
     (∃ d k, data = Some d ∧ e = KeyError k ∧ k ∈ required_keys o ∧
             d !! k = None)).
Proof.
  intros Hcon.
  destruct (constructed_initialized o Hcon) as (Hi & _ & v & HJ & HE & Hc & _).
  unfold initialized in Hi.
  apply andb_prop in Hi as [Hi Hcls]. apply andb_prop in Hi as [Hn _].
  apply bool_decide_eq_true in Hn as [n Hn].
  unfold required_keys. rewrite Hc.
  destruct v; try done; cbn [variant_class] in Hc |- *; rewrite Hc in Hcls;
    try (apply bool_decide_eq_true in Hcls as [ct Hct]; try rewrite Hct;
         unfold Collision_required_keys).
  all: split.
  1,3,5,7,9: (intros d; split;
            [ intros [s' H]; attribute_cases H; try discriminate H;
              repeat (apply Forall_cons_2; [by eexists|]); apply Forall_nil_2
            | repeat match goal with
                     | |- context [py_eq_str ?c ?s] =>
                         let E := fresh "E" in
                         destruct (py_eq_str c s) eqn:E; cbn [orb]
                     end;
              intros HF;
              repeat match goal with
                     | H : Forall _ (_ :: _) |- _ =>
                         let H' := fresh in apply Forall_cons in H as [[? H'] H]
                     end;
              eexists; by run_attributes ]).
  all: intros data e s' H; destruct data as [d|];
       attribute_cases H; try discriminate H;
       injection H as <- <-;
       first [ left; by split
             | right; eexists _, _; split; [reflexivity|]; split; [reflexivity|];
               split; [|eassumption]; cbn [orb];
               repeat first [apply list_elem_of_here | apply list_elem_of_further] ].
Qed.

Lemma constructed_create_attributes_witness :
  ∃ s', create_attributes
          (Some {[ "BATCHSTART" := PyInt 0; "BATCHCOUNT" := PyInt 36;
                   "VERTRSTART" := PyInt 0; "VERTREND" := PyInt 23;
                   "MATERIAL" := PyStr "MAT.MBIN";
                   "ATTACHMENT" := PyStr "" ]}) M1 = (Ret tt, s').
Proof.
  destruct example_objects_constructed as (_ & _ & HM & _).
  apply (proj1 (constructed_create_attributes M1 HM)).
  assert (E : required_keys M1 =
              ["BATCHSTART"; "BATCHCOUNT"; "VERTRSTART"; "VERTREND"; "MATERIAL";
               "ATTACHMENT"]) by (vm_compute; reflexivity).
  rewrite E. repeat constructor; eexists; vm_compute; reflexivity.
Defined.

(** Reading an attribute back after assignments to other attributes. *)
Lemma dict_setattr (a : string) (v : pyval) (o : Object) (k : string) :
  dict_ (setattr a v o) !! k =
  if decide (a = k) is left _ then Some v else dict_ o !! k.
Proof. apply lookup_insert. Qed.

Lemma dict_with_Name v o : dict_ (with_Name v o) = dict_ o.
Proof. reflexivity. Qed.
Lemma dict_with_Type v o : dict_ (with_Type v o) = dict_ o.
Proof. reflexivity. Qed.
Lemma dict_with_IsMesh v o : dict_ (with_IsMesh v o) = dict_ o.
Proof. reflexivity. Qed.
Lemma dict_with_provided_streams v o : dict_ (with_provided_streams v o) = dict_ o.
Proof. reflexivity. Qed.
Lemma dict_Object_init k kwargs : dict_ (Object_init k kwargs) = ∅.
Proof. reflexivity. Qed.

Lemma provided_streams_setattr a v o :
  provided_streams (setattr a v o) = provided_streams o.
Proof. reflexivity. Qed.
Lemma provided_streams_with_Name v o :
  provided_streams (with_Name v o) = provided_streams o.
Proof. reflexivity. Qed.
Lemma provided_streams_with_Type v o :
  provided_streams (with_Type v o) = provided_streams o.
Proof. reflexivity. Qed.
Lemma provided_streams_with_IsMesh v o :
  provided_streams (with_IsMesh v o) = provided_streams o.
Proof. reflexivity. Qed.
Lemma provided_streams_Object_init k kwargs :
  provided_streams (Object_init k kwargs) = ∅.
Proof. reflexivity. Qed.

Lemma IsMesh_setattr a v o : IsMesh (setattr a v o) = IsMesh o.
Proof. reflexivity. Qed.
Lemma IsMesh_with_provided_streams v o :
  IsMesh (with_provided_streams v o) = IsMesh o.
Proof. reflexivity. Qed.
Lemma IsMesh_with_IsMesh v o : IsMesh (with_IsMesh v o) = v.
Proof. reflexivity. Qed.
Lemma IsMesh_with_Name v o : IsMesh (with_Name v o) = IsMesh o.
Proof. reflexivity. Qed.
Lemma IsMesh_with_Type v o : IsMesh (with_Type v o) = IsMesh o.
Proof. reflexivity. Qed.
Lemma IsMesh_Object_init k kwargs : IsMesh (Object_init k kwargs) = false.
Proof. reflexivity. Qed.

Ltac fields :=
  rewrite ?dict_setattr, ?dict_with_Name, ?dict_with_Type, ?dict_with_IsMesh,
    ?dict_with_provided_streams, ?dict_Object_init,
    ?provided_streams_setattr, ?provided_streams_with_Name,
    ?provided_streams_with_Type, ?provided_streams_with_IsMesh,
    ?provided_streams_Object_init,
    ?IsMesh_setattr, ?IsMesh_with_provided_streams, ?IsMesh_with_IsMesh,
    ?IsMesh_with_Name, ?IsMesh_with_Type, ?IsMesh_Object_init.

Ltac dict_lookups :=
  repeat (progress fields);
  repeat (case_decide; [try discriminate|try congruence]);
  rewrite ?lookup_empty;
  try reflexivity.

(** What [determine_included_streams] does to any node: it adds to
    [provided_streams] the stream names whose attribute is present and not
    [None], and assigns nothing else. *)
Lemma determine_included_streams_spec (self : Object) :
  (∃ ps, determine_included_streams self = with_provided_streams ps self) ∧
  ∀ n, n ∈ provided_streams (determine_included_streams self) ↔
       n ∈ provided_streams self ∨
       (n ∈ stream_names ∧ ∃ v, dict_ self !! n = Some v ∧ v ≠ PyNone).
Proof.
  destruct (determine_included_streams_aux stream_names self) as [H1 H2].
  split; [exact H1|]. intros n. rewrite <- is_not_None_dict_get. apply H2.
Qed.

(** X7: the constructor of Collision always returns.  The node records the
    sub-type given as [CollisionType] ("Mesh" when none is given) and is
    mesh-bearing exactly when that sub-type is "Mesh".  A mesh-type Collision
    gets its provided streams as a Mesh does, a null [Material] and no
    dimension; any other gets no stream, and the four dimensions, 0 where
    the keyword is not given. *)
Theorem Collision_init_by_type (name : string) (kwargs : pydict) :
  let ct := dict_get kwargs "CollisionType" (PyStr "Mesh") in
  ∃ self, Construct Collision name kwargs = Ret self ∧
    dict_ self !! "CType" = Some ct ∧
    IsMesh self = py_eq_str ct "Mesh" ∧
    (py_eq_str ct "Mesh" = true ->
       (∀ n, n ∈ provided_streams self ↔
             n ∈ stream_names ∧ ∃ v, kwargs !! n = Some v ∧ v ≠ PyNone) ∧
       dict_ self !! "Material" = Some PyNone ∧
       (∀ n, n ∈ ["Width"; "Height"; "Depth"; "Radius"] -> dict_ self !! n = None)) ∧
    (py_eq_str ct "Mesh" = false ->
       provided_streams self = ∅ ∧
       (∀ n, n ∈ ["Width"; "Height"; "Depth"; "Radius"] ->
             dict_ self !! n = Some (dict_get kwargs n (PyInt 0))) ∧
       (∀ n, n ∈ "Material" :: stream_names -> dict_ self !! n = None)).
Proof.
  intros ct. cbn [Construct]. unfold Collision_init.
  rewrite super_init_same. cbn [omap_outcome]. fold ct. clearbody ct.
  eexists. split; [reflexivity|].
  destruct (py_eq_str ct "Mesh") eqn:Hct.
  - match goal with |- context [determine_included_streams ?o] =>
      destruct (determine_included_streams_spec o) as [[ps Hps] Hp]
    end.
    rewrite Hps in Hp |- *. clear Hps.
    split; [by dict_lookups|].
    split; [by fields|].
    split; [|done]. intros _.
    split; [|split].
    + intros n. rewrite Hp. clear Hp.
      split.
      * intros [H|[Hs H]]; [revert H; fields; by intros ?%elem_of_empty|].
        split; [done|]. revert H. unfold stream_names in Hs.
        repeat (apply elem_of_cons in Hs as [->|Hs]); [..|by apply elem_of_nil in Hs];
          dict_lookups; unfold dict_get; intros (v & Hv & Hne); exists v;
          destruct (kwargs !! _); by simplify_eq.
      * intros [Hs H]. right. split; [done|]. revert H. unfold stream_names in Hs.
        repeat (apply elem_of_cons in Hs as [->|Hs]); [..|by apply elem_of_nil in Hs];
          dict_lookups; unfold dict_get; intros (v & Hv & Hne); exists v;
          rewrite Hv; by split.
    + by dict_lookups.
    + intros n Hn.
      repeat (apply elem_of_cons in Hn as [->|Hn]); [..|by apply elem_of_nil in Hn];
        by dict_lookups.
  - split; [by dict_lookups|].
    split; [by fields|]. split; [done|]. intros _.
    split; [by fields|]. split.
    + intros n Hn.
      repeat (apply elem_of_cons in Hn as [->|Hn]); [..|by apply elem_of_nil in Hn];
        by dict_lookups.
    + intros n Hn. unfold stream_names in Hn.
      repeat (apply elem_of_cons in Hn as [->|Hn]); [..|by apply elem_of_nil in Hn];
        by dict_lookups.
Qed.

Lemma Collision_init_by_type_witness :
  ∃ self,
    Construct Collision "C2" {[ "CollisionType" := PyStr "Box"; "Width" := PyInt 2 ]}
      = Ret self ∧
    IsMesh self = false ∧ provided_streams self = ∅ ∧
    dict_ self !! "Width" = Some (PyInt 2) ∧
    dict_ self !! "Height" = Some (PyInt 0).
Proof.
  destruct (Collision_init_by_type "C2"
              {[ "CollisionType" := PyStr "Box"; "Width" := PyInt 2 ]})
    as (self & Hs & _ & Hm & _ & Hbox).
  exists self. split; [exact Hs|].
  destruct (Hbox ltac:(vm_compute; reflexivity)) as (Hp & Hdims & _).
  split; [rewrite Hm; vm_compute; reflexivity|]. split; [exact Hp|].
  split.
  - rewrite (Hdims "Width"); [vm_compute; reflexivity|]. apply list_elem_of_here.
  - rewrite (Hdims "Height"); [vm_compute; reflexivity|].
    apply list_elem_of_further, list_elem_of_here.
Defined.

Lemma with_provided_streams_same (o : Object) :
  with_provided_streams (provided_streams o) o = o.
Proof. by destruct o. Qed.

(** X8: [determine_included_streams] can be called on any node, at any time:
    it only ever adds names to [provided_streams] (those of the five streams
    whose attribute is present and not [None]), assigns no other attribute,
    and a second call changes nothing. *)
Theorem determine_included_streams_adds (self : Object) :
  let self' := determine_included_streams self in
  with_provided_streams (provided_streams self) self' = self ∧
  (∀ n, n ∈ provided_streams self' ↔
        n ∈ provided_streams self ∨
        (n ∈ stream_names ∧ ∃ v, dict_ self !! n = Some v ∧ v ≠ PyNone)) ∧
  determine_included_streams self' = self'.
Proof.
  intros self'.
  destruct (determine_included_streams_spec self) as [[ps Hps] Hp].
  fold self' in Hps, Hp.
  destruct (determine_included_streams_spec self') as [[ps' Hps'] Hp'].
  clearbody self'.
  split; [|split; [exact Hp|]].
  - rewrite Hps. by destruct self.
  - assert (Hd : dict_ self' = dict_ self) by (by rewrite Hps).
    rewrite Hps' in Hp' |- *. cbn [provided_streams with_provided_streams] in Hp'.
    etrans; [|apply (with_provided_streams_same self')].
    f_equal. apply set_eq. intros n. rewrite Hp', Hp, Hd. tauto.
Qed.

(** X9: the tags listed in [TYPES] are exactly the type tags of the nodes
    that can be constructed: each of them is the tag of a variant whose
    constructor returns, and no constructor returns a node with another tag
    (JOINT and EMITTER are missing from the list, and no Joint or Emitter can
    be constructed). *)
Theorem TYPES_constructed (t : string) :
  t ∈ TYPES ↔ ∃ o, constructed o ∧ _Type o = Some t.
Proof.
  split.
  - intros Ht.
    assert (Hv : ∃ v, v ≠ Joint ∧ v ≠ Emitter ∧ variant_tag v = t).
    { unfold TYPES in Ht.
      repeat (apply elem_of_cons in Ht as [->|Ht]); [..|by apply elem_of_nil in Ht].
      - by exists Mesh.
      - by exists Locator.
      - by exists Collision.
      - by exists Model.
      - by exists Reference. }
    destruct Hv as (v & HJ & HE & <-).
    destruct (Construct_five v "" ∅ HJ HE) as (o & Ho & _ & _ & Ht' & _).
    exists o. split; [by exists v, "", ∅|done].
  - intros (o & Hcon & Ht).
    destruct (constructed_initialized o Hcon) as (_ & _ & v & HJ & HE & _ & Ht').
    rewrite Ht in Ht'. injection Ht' as ->. unfold TYPES.
    destruct v; try done; cbn [variant_tag];
      repeat first [apply list_elem_of_here | apply list_elem_of_further].
Qed.

Lemma create_attributes_frame
    (self : Object) (data : option pydict) (r : outcome unit) (s' : Object) :
  create_attributes data self = (r, s') ->
  s' = with_Attributes (Attributes s') self.
Proof.
  intros H.
  assert (Hs : with_Attributes (Attributes self) self = self) by (by destruct self).
  unfold create_attributes in H.
  destruct (class_ self) eqn:Hk; destruct data as [d|]; attribute_cases H;
    injection H as <- <-; cbn [Attributes with_Attributes]; by rewrite ?Hs.
Qed.

(** X10: whatever its outcome, [create_attributes] assigns no attribute of
    the node other than [Attributes]: name, type, transform, parent,
    children, registry and built record are as before the call. *)
Theorem create_attributes_only_Attributes
    (self : Object) (data : option pydict) (r : outcome unit) (s' : Object) :
  create_attributes data self = (r, s') ->
  s' = with_Attributes (Attributes s') self.
Proof. apply create_attributes_frame. Qed.

Lemma create_attributes_only_Attributes_witness :
  let s' := snd (create_attributes (Some ∅) M1) in
  s' = with_Attributes (Attributes s') M1.
Proof.
  intros s'.
  apply (create_attributes_only_Attributes M1 (Some ∅) (Raise (KeyError "BATCHSTART"))).
  vm_compute. reflexivity.
Defined.

Lemma Construct_Transform (v : variant) (name : string) (kwargs : pydict) (o : Object) :
  Construct v name kwargs = Ret o ->
  Transform o = dict_get kwargs "Transform" TkTransformData.
Proof.
  intros Hv.
  destruct v; cbn [Construct] in Hv; try discriminate Hv;
    unfold Mesh_init, Locator_init, Collision_init, Model_init, Reference_init in Hv;
    rewrite super_init_same in Hv; cbn [omap_outcome] in Hv.
  - match type of Hv with context [determine_included_streams ?x] =>
      destruct (determine_included_streams_fields x) as [ps Hps]; rewrite Hps in Hv end.
    by injection Hv as <-.
  - by injection Hv as <-.
  - destruct (py_eq_str _ _).
    + match type of Hv with context [determine_included_streams ?x] =>
        destruct (determine_included_streams_fields x) as [ps Hps]; rewrite Hps in Hv end.
      by injection Hv as <-.
    + by injection Hv as <-.
  - by injection Hv as <-.
  - by injection Hv as <-.
Qed.

(** X11: from constructor to record.  A node that a constructor returned,
    whether [create_attributes] has been called on it (with whatever outcome)
    or not, can be built as it is, with any recursion limit: its record holds
    the name given to the constructor, the type tag of the variant, the
    [Transform] keyword argument (the default transform when none was given),
    the attributes the node has at that time, and no children. *)
Theorem constructed_leaf_record
    (v : variant) (name : string) (kwargs : pydict) (o o1 : Object)
    (s : State) (a : addr) (n : nat) :
  Construct v name kwargs = Ret o ->
  (o1 = o ∨ ∃ data r, create_attributes data o = (r, o1)) ->
  heap s !! a = Some o1 ->
  ∃ s', construct_data (S n) a s = (Ret None, s') ∧
        get_data a s' =
          (Ret (Some (mkNodeData name (variant_tag v)
                        (dict_get kwargs "Transform" TkTransformData)
                        (Attributes o1) None)), s').
Proof.
  intros Hv Ho1 Ha.
  assert (HJ : v ≠ Joint) by (intros ->; discriminate Hv).
  assert (HE : v ≠ Emitter) by (intros ->; discriminate Hv).
  destruct (Construct_five v name kwargs HJ HE)
    as (o' & Ho' & _ & Hn & Ht & _ & Hch & _).
  assert (o' = o) as -> by congruence.
  pose proof (Construct_Transform _ _ _ _ Hv) as Htr.
  assert (Ho : o1 = with_Attributes (Attributes o1) o).
  { destruct Ho1 as [->|(data & r & Hrun)]; [by destruct o|].
    by eapply create_attributes_frame. }
  assert (Hn1 : Name o1 = Some name) by (by rewrite Ho).
  assert (Ht1 : _Type o1 = Some (variant_tag v)) by (by rewrite Ho).
  assert (Hc1 : Children o1 = []) by (by rewrite Ho).
  assert (Htr1 : Transform o1 = dict_get kwargs "Transform" TkTransformData)
    by (by rewrite Ho).
  assert (Hb : buildable (S n) (heap s) a = true).
  { cbn [buildable]. rewrite Ha, Hn1, Ht1, Hc1. cbn [forallb].
    rewrite !bool_decide_eq_true_2 by (by eexists). done. }
  destruct (construct_data_spec (S n) a s Hb) as (s' & t & Hrun & _ & _ & Hset & _).
  destruct (Hset a (subtree_self _ _ _ Hb)) as (o' & Ha' & m & r & Hbm & Hrm & Hnd & _).
  exists s'. split; [done|].
  rewrite (get_data_Some _ _ _ Ha'), Hnd.
  rewrite (record_of_fuel m (S n) _ _ Hbm Hb) in Hrm.
  rewrite (record_of_S_eq n _ _ _ _ _ Ha Hn1 Ht1), Hc1, Htr1 in Hrm.
  by injection Hrm as <-.
Qed.

Lemma constructed_leaf_record_witness :
  ∃ s', construct_data 1 0 (mkState [L1] []) = (Ret None, s') ∧
        get_data 0 s' =
          (Ret (Some (mkNodeData "L1" (variant_tag Locator)
                        (dict_get ∅ "Transform" TkTransformData)
                        (Attributes L1) None)), s').
Proof.
  apply (constructed_leaf_record Locator "L1" ∅ L1 L1 (mkState [L1] []) 0 0).
  - vm_compute. reflexivity.
  - left. reflexivity.
  - vm_compute. reflexivity.
Defined.

(** ** Attaching children: what every call does and never does *)

Lemma grows_refl h : grows h h.
Proof.
  split; [done|]. split; [done|].
  intros x. destruct (registry h x) as [l|]; [|done].
  exists []. by rewrite app_nil_r.
Qed.

Lemma grows_trans h1 h2 h3 : grows h1 h2 -> grows h2 h3 -> grows h1 h3.
Proof.
  intros (P1 & C1 & R1) (P2 & C2 & R2).
  split; [congruence|]. split.
  - intros x. trans (children_of h2 x); [apply C1|apply C2].
  - intros x. specialize (R1 x). specialize (R2 x).
    destruct (registry h1 x) as [l|].
    + destruct R1 as [l1 R1]. rewrite R1 in R2. destruct R2 as [l2 R2].
      exists (l1 ++ l2). by rewrite R2, app_assoc.
    + by rewrite R1 in R2.
Qed.

Lemma grows_insert h a o o' :
  h !! a = Some o ->
  payload o' = payload o ->
  Children o `prefix_of` Children o' ->
  match ListOfMeshes o with
  | Some l => ∃ l', ListOfMeshes o' = Some (l ++ l')
  | None => ListOfMeshes o' = None
  end ->
  grows h (<[a := o']> h).
Proof.
  intros Ha Hp Hc Hr.
  split; [|split].
  - rewrite list_fmap_insert, Hp. apply list_insert_id.
    by rewrite list_lookup_fmap, Ha.
  - intros x. destruct (accessors_insert h a o o' x Ha) as (_ & _ & -> & _).
    destruct (decide (x = a)) as [->|]; [|done].
    by destruct (accessors_lookup _ _ _ Ha) as (_ & -> & _).
  - intros x. destruct (accessors_insert h a o o' x Ha) as (_ & _ & _ & _ & -> & _).
    destruct (decide (x = a)) as [->|].
    + by destruct (accessors_lookup _ _ _ Ha) as (_ & _ & _ & -> & _).
    + destruct (registry h x) as [l|]; [|done]. exists []. by rewrite app_nil_r.
Qed.

Lemma update_grows a f s r s' :
  (∀ o, heap s !! a = Some o ->
        payload (f o) = payload o ∧
        Children o `prefix_of` Children (f o) ∧
        match ListOfMeshes o with
        | Some l => ∃ l', ListOfMeshes (f o) = Some (l ++ l')
        | None => ListOfMeshes (f o) = None
        end) ->
  update a f s = (r, s') ->
  grows (heap s) (heap s') ∧ built s' = built s.
Proof.
  intros Hf Hrun. unfold update in Hrun.
  destruct (heap s !! a) as [o|] eqn:Ha.
  - assert (s' = mkState (<[a := f o]> (heap s)) (built s)) as -> by congruence.
    split; [|done]. cbn [heap].
    destruct (Hf o eq_refl) as (Hp & Hc & Hr). by eapply grows_insert.
  - assert (s' = s) as -> by congruence. split; [apply grows_refl|done].
Qed.

Lemma registry_keeps (l : option (list addr)) :
  match l with
  | Some l0 => ∃ l', l = Some (l0 ++ l')
  | None => l = None
  end.
Proof. destruct l as [l0|]; [|done]. exists []. by rewrite app_nil_r. Qed.

(** What a call of [populate_meshlist] can do, whatever its outcome: nothing,
    or append [obj] to the [ListOfMeshes] of one parentless node and
    return. *)
Lemma populate_meshlist_effect fuel :
  ∀ x c s r s',
    populate_meshlist fuel x c s = (r, s') ->
    (s' = s ∧ ∃ e, r = Raise e) ∨
    (∃ a o l, heap s !! a = Some o ∧ Parent o = None ∧ ListOfMeshes o = Some l ∧
              r = Ret tt ∧
              s' = mkState (<[a := with_ListOfMeshes (Some (l ++ [c])) o]> (heap s))
                           (built s)).
Proof.
  induction fuel as [|fuel IH]; intros x c s r s' Hrun.
  - left. cbn in Hrun. unfold raise in Hrun. split; [congruence|].
    exists RecursionError. congruence.
  - cbn [populate_meshlist] in Hrun.
    apply bind_inv in Hrun as [(o & s1 & Hd & Hrun)|(e & Hd & ->)].
    2: { left. split; [by rewrite (deref_inv _ _ _ _ Hd)|by eexists]. }
    pose proof (deref_inv _ _ _ _ Hd) as ->.
    unfold deref in Hd. destruct (heap s !! x) as [o'|] eqn:Hx; [|discriminate].
    assert (o' = o) as -> by congruence.
    destruct (Parent o) as [p|] eqn:Hp; [by eapply IH|].
    destruct (ListOfMeshes o) as [l|] eqn:Hl.
    + right. exists x, o, l. rewrite (update_Some _ _ _ _ Hx) in Hrun.
      repeat split; try done; congruence.
    + left. unfold raise in Hrun. split; [congruence|].
      exists (AttributeError "ListOfMeshes"). congruence.
Qed.

Lemma populate_meshlist_grows fuel x c s r s' :
  populate_meshlist fuel x c s = (r, s') ->
  grows (heap s) (heap s') ∧ built s' = built s ∧
  ∀ y, parent_of (heap s') y = parent_of (heap s) y.
Proof.
  intros Hrun.
  destruct (populate_meshlist_effect _ _ _ _ _ _ Hrun)
    as [[-> _]|(a & o & l & Ha & _ & Hl & _ & ->)].
  - split; [apply grows_refl|done].
  - cbn [heap built]. split; [|split; [done|]].
    + eapply grows_insert; [done|done|done|]. rewrite Hl. by exists [c].
    + intros y.
      destruct (accessors_insert _ a o (with_ListOfMeshes (Some (l ++ [c])) o) y Ha)
        as (_ & -> & _).
      destruct (decide (y = a)) as [->|]; [|done].
      by destruct (accessors_lookup _ _ _ Ha) as (-> & _).
Qed.

(** What every call of [add_child] keeps, whatever its outcome. *)
Lemma add_child_effect (fuel : nat) (p c : addr) (s : State)
    (r : outcome unit) (s' : State) :
  add_child fuel p c s = (r, s') ->
  grows (heap s) (heap s') ∧ built s' = built s.
Proof.
  intros Hrun. unfold add_child, give_parent in Hrun.
  apply bind_inv in Hrun as [([] & s1 & H1 & Hrun)|(e & H1 & _)].
  2: { eapply update_grows; [|exact H1]. intros o _.
       split; [done|]. split; [by apply prefix_app_r|apply registry_keeps]. }
  apply update_grows in H1 as [G1 B1].
  2: { intros o _.
       split; [done|]. split; [by apply prefix_app_r|apply registry_keeps]. }
  apply bind_inv in Hrun as [([] & s2 & H2 & Hrun)|(e & H2 & _)].
  2: { apply update_grows in H2 as [G2 B2].
       - split; [by eapply grows_trans|congruence].
       - intros o _. split; [done|]. split; [done|apply registry_keeps]. }
  apply update_grows in H2 as [G2 B2].
  2: { intros o _. split; [done|]. split; [done|apply registry_keeps]. }
  apply bind_inv in Hrun as [(oc & s3 & Hd & Hrun)|(e & Hd & _)];
    pose proof (deref_inv _ _ _ _ Hd) as ->.
  2: { split; [by eapply grows_trans|congruence]. }
  destruct (IsMesh oc).
  - apply populate_meshlist_grows in Hrun as (G3 & B3 & _).
    split; [|congruence]. eapply grows_trans; [|exact G3]. by eapply grows_trans.
  - unfold ret in Hrun. assert (s' = s2) as -> by congruence.
    split; [by eapply grows_trans|congruence].
Qed.

(** X12: whatever its outcome, a call of [add_child] assigns nothing but
    [Children], [Parent] and [ListOfMeshes]: it changes no node's name, type,
    transform, attributes, mesh flag or built record, allocates nothing, and
    removes or reorders no entry of any [Children] or [ListOfMeshes]; no node
    gains or loses its [ListOfMeshes]. *)
Theorem add_child_grows (fuel : nat) (p c : addr) (s : State)
    (r : outcome unit) (s' : State) :
  add_child fuel p c s = (r, s') ->
  grows (heap s) (heap s') ∧ built s' = built s.
Proof. apply add_child_effect. Qed.

Lemma add_child_grows_witness :
  grows [Root; M1; L1] (heap scenario_C) ∧ built scenario_C = [].
Proof.
  destruct (add_child_grows 2 0 1 (mkState [Root; M1; L1] [])
              (fst (add_child 2 0 1 (mkState [Root; M1; L1] [])))
              (snd (add_child 2 0 1 (mkState [Root; M1; L1] []))))
    as [G1 B1]; [by destruct (add_child 2 0 1 _)|].
  destruct (add_child_grows 2 0 2
              (snd (add_child 2 0 1 (mkState [Root; M1; L1] [])))
              (Ret tt) scenario_C) as [G2 B2]; [vm_compute; reflexivity|].
  split; [by eapply grows_trans|]. vm_compute. reflexivity.
Defined.

(** X13: [populate_meshlist] follows the parents of [self] up to the
    parentless node [r], [k] links away.  It returns exactly when the
    recursion limit exceeds [k] and [r] has a [ListOfMeshes]; it then has
    appended [obj] to that list and touched no other node.  Otherwise it
    raises [RecursionError] (limit reached) or [AttributeError] (no list),
    and the store is as before. *)
Theorem populate_meshlist_walks
    (fuel : nat) (self obj : addr) (s : State) (r : addr) (k : nat) :
  chain (heap s) self r k ->
  ((∃ s', populate_meshlist fuel self obj s = (Ret tt, s')) ↔
   k < fuel ∧ is_Some (registry (heap s) r)) ∧
  ∀ res s', populate_meshlist fuel self obj s = (res, s') ->
    match res with
    | Ret _ =>
        (∃ l, registry (heap s) r = Some l ∧
              registry (heap s') r = Some (l ++ [obj])) ∧
        (∀ x, x ≠ r -> heap s' !! x = heap s !! x) ∧
        (∀ x, parent_of (heap s') x = parent_of (heap s) x ∧
              children_of (heap s') x = children_of (heap s) x)
    | Raise e =>
        s' = s ∧
        e = if decide (fuel ≤ k) then RecursionError
            else AttributeError "ListOfMeshes"
    end.
Proof.
  intros Hchain.
  pose proof (populate_meshlist_chain s self r k Hchain fuel obj) as Hrun.
  destruct (chain_end _ _ _ _ Hchain) as [[o Hr] _].
  destruct (accessors_lookup _ _ _ Hr) as (_ & _ & _ & Hreg & _).
  rewrite Hr in Hrun. rewrite Hreg.
  destruct (decide (fuel ≤ k)) as [Hle|Hgt].
  - split.
    + split; [intros [s' H]; congruence|intros [? _]; lia].
    + intros res s' H. rewrite Hrun in H. injection H as <- <-. done.
  - destruct (ListOfMeshes o) as [l|] eqn:Hl.
    + split.
      * split; [intros _; split; [lia|by eexists]|intros _; by eexists].
      * intros res s' H. rewrite Hrun in H. injection H as <- <-. cbn [heap].
        split; [|split].
        -- exists l. split; [done|].
           destruct (accessors_insert _ r o (with_ListOfMeshes (Some (l ++ [obj])) o) r Hr)
             as (_ & _ & _ & _ & -> & _).
           by rewrite decide_True.
        -- intros x Hx. by rewrite lookup_update_ne.
        -- intros x.
           destruct (accessors_insert _ r o (with_ListOfMeshes (Some (l ++ [obj])) o) x Hr)
             as (_ & -> & -> & _).
           destruct (decide (x = r)) as [->|]; [|done].
           by destruct (accessors_lookup _ _ _ Hr) as (-> & -> & _).
    + split.
      * split; [intros [s' H]; congruence|intros [_ [? ?]]; done].
      * intros res s' H. rewrite Hrun in H. injection H as <- <-. done.
Qed.

Lemma populate_meshlist_walks_witness :
  ∃ s', populate_meshlist 2 1 2 deep_mesh = (Ret tt, s').
Proof.
  assert (Hc : chain (heap deep_mesh) 1 0 1).
  { apply chain_up with 0; [vm_compute; reflexivity|].
    apply chain_top; [by eexists|vm_compute; reflexivity]. }
  apply (proj1 (populate_meshlist_walks 2 1 2 deep_mesh 0 1 Hc)).
  split; [lia|]. vm_compute. by eexists.
Defined.

(** X14: [add_child] does not check that the child differs from the parent.
    [x.add_child(x)] makes [x] its own child and its own parent; it returns
    when [x] is not mesh-bearing, and raises [RecursionError] when it is,
    whatever the recursion limit, since the walk up the parents never
    ends. *)
Theorem add_child_to_itself (fuel : nat) (x : addr) (s : State) (o : Object) :
  heap s !! x = Some o ->
  add_child fuel x x s =
    (if IsMesh o then Raise RecursionError else Ret tt,
     mkState (<[x := with_Parent (Some x) (with_Children (Children o ++ [x]) o)]>
                (heap s))
             (built s)).
Proof.
  intros Hx. unfold add_child, give_parent.
  rewrite (bind_Ret _ _ _ _ _ (update_Some _ _ _ _ Hx)).
  set (o1 := with_Children (Children o ++ [x]) o).
  assert (H1 : <[x := o1]> (heap s) !! x = Some o1) by (by eapply lookup_update_eq).
  rewrite (bind_Ret _ _ _ _ _
             (update_Some x _ (mkState (<[x := o1]> (heap s)) (built s)) o1 H1)).
  cbn [heap built]. rewrite list_insert_insert_eq.
  set (o2 := with_Parent (Some x) o1).
  assert (H2 : <[x := o2]> (heap s) !! x = Some o2) by (by eapply lookup_update_eq).
  rewrite (bind_Ret _ _ _ _ _
             (deref_Some x (mkState (<[x := o2]> (heap s)) (built s)) o2 H2)).
  change (IsMesh o2) with (IsMesh o).
  destruct (IsMesh o); [|done].
  apply populate_meshlist_cycle. cbn [heap]. intros y Hy.
  assert (y = x) as ->; [|exists x; unfold parent_of; by rewrite H2].
  apply (on_chain_closed (fun a => a = x) _ _ _ Hy); [done|].
  intros a b -> Hab. unfold parent_of in Hab. rewrite H2 in Hab.
  cbn in Hab. congruence.
Qed.

Lemma add_child_to_itself_witness :
  fst (add_child 1000 0 0 (mkState [M1] [])) = Raise RecursionError.
Proof.
  rewrite (add_child_to_itself 1000 0 (mkState [M1] []) M1); [|reflexivity].
  reflexivity.
Defined.

Lemma populate_meshlist_links fuel x c s r s' :
  populate_meshlist fuel x c s = (r, s') ->
  ∀ y, parent_of (heap s') y = parent_of (heap s) y ∧
       children_of (heap s') y = children_of (heap s) y.
Proof.
  intros Hrun y.
  destruct (populate_meshlist_effect _ _ _ _ _ _ Hrun)
    as [[-> _]|(a & o & l & Ha & _ & Hl & _ & ->)]; [done|].
  cbn [heap].
  destruct (accessors_insert _ a o (with_ListOfMeshes (Some (l ++ [c])) o) y Ha)
    as (_ & -> & -> & _).
  destruct (decide (y = a)) as [->|]; [|done].
  by destruct (accessors_lookup _ _ _ Ha) as (-> & -> & _).
Qed.

(** X15: [add_child] never detaches.  Once past its first two statements
    (parent and child exist), and whatever happens afterwards, the child's
    [Parent] is the new parent, the new parent's [Children] has the child
    appended, and every other node's [Children] is as before: a child that
    already had a parent stays in that node's [Children] as well. *)
Theorem add_child_never_detaches
    (fuel : nat) (p c : addr) (s : State) (op oc : Object)
    (r : outcome unit) (s' : State) :
  heap s !! p = Some op -> heap s !! c = Some oc -> p ≠ c ->
  add_child fuel p c s = (r, s') ->
  parent_of (heap s') c = Some p ∧
  children_of (heap s') p = children_of (heap s) p ++ [c] ∧
  (∀ q, q ≠ p -> children_of (heap s') q = children_of (heap s) q) ∧
  (∀ q, c ∈ children_of (heap s) q -> c ∈ children_of (heap s') q).
Proof.
  intros Hp Hc Hne Hrun.
  rewrite (add_child_run fuel p c s op oc Hp Hc Hne) in Hrun. cbv zeta in Hrun.
  destruct (attached_first_two _ _ _ _ _ Hp Hc Hne) as (_ & A1 & A2 & _).
  set (h2 := <[c := with_Parent (Some p) oc]>
               (<[p := with_Children (Children op ++ [c]) op]> (heap s))) in *.
  assert (Hlinks : ∀ y, parent_of (heap s') y = parent_of h2 y ∧
                        children_of (heap s') y = children_of h2 y).
  { destruct (IsMesh oc).
    - apply (populate_meshlist_links _ _ _ _ _ _ Hrun).
    - by injection Hrun as _ <-. }
  assert (Hp' : children_of (heap s') p = children_of (heap s) p ++ [c]).
  { rewrite (proj2 (Hlinks p)), A2. by rewrite decide_True. }
  assert (Hq' : ∀ q, q ≠ p -> children_of (heap s') q = children_of (heap s) q).
  { intros q Hq. rewrite (proj2 (Hlinks q)), A2. by rewrite decide_False. }
  split; [|split; [done|split; [done|]]].
  - rewrite (proj1 (Hlinks c)), A1. by rewrite decide_True.
  - intros q Hin. destruct (decide (q = p)) as [->|Hq].
    + rewrite Hp'. apply elem_of_app. by left.
    + by rewrite Hq'.
Qed.

(** [Sub.add_child(M1)], then [Root.add_child(M1)] on the resulting store:
    the Mesh is then among the children of both Models. *)
Lemma add_child_never_detaches_witness :
  let s1 := run (add_child 3 1 2) (mkState [Root; Sub; M1] []) in
  let s2 := run (add_child 3 0 2) s1 in
  parent_of (heap s2) 2 = Some 0 ∧
  children_of (heap s2) 0 = children_of (heap s1) 0 ++ [2] ∧
  (∀ q, q ≠ 0 -> children_of (heap s2) q = children_of (heap s1) q) ∧
  (∀ q, 2 ∈ children_of (heap s1) q -> 2 ∈ children_of (heap s2) q).
Proof.
  intros s1 s2.
  assert (H0 : ∃ o, heap s1 !! 0 = Some o) by (vm_compute; by eexists).
  assert (H2 : ∃ o, heap s1 !! 2 = Some o) by (vm_compute; by eexists).
  destruct H0 as [o0 H0]. destruct H2 as [o2 H2].
  apply (add_child_never_detaches 3 0 2 s1 o0 o2 (fst (add_child 3 0 2 s1)) s2 H0 H2);
    [lia|]. unfold s2, run. by destruct (add_child 3 0 2 s1).
Defined.

Lemma on_chain_snoc h x a b :
  on_chain h x a -> parent_of h a = Some b -> on_chain h x b.
Proof.
  induction 1 as [x|x p a Hp _ IH]; intros Hab.
  - eapply on_chain_up; [done|apply on_chain_here].
  - eapply on_chain_up; [done|by apply IH].
Qed.

(** X16: [add_child] does not check whether the child is already attached:
    attaching the same mesh-bearing child to the same parent twice returns
    both times and leaves the child twice in the parent's [Children] and
    twice in the [ListOfMeshes] at the end of the parent's chain. *)
Theorem add_child_twice_registers_twice
    (fuel : nat) (p c : addr) (s : State) (r : addr) (k : nat) (l : list addr) :
  chain (heap s) p r k ->
  ¬ on_chain (heap s) p c ->
  is_mesh (heap s) c = true ->
  registry (heap s) r = Some l ->
  k < fuel ->
  ∃ s1 s2,
    add_child fuel p c s = (Ret tt, s1) ∧
    add_child fuel p c s1 = (Ret tt, s2) ∧
    registry (heap s2) r = Some (l ++ [c; c]) ∧
    children_of (heap s2) p = children_of (heap s) p ++ [c; c].
Proof.
  intros Hchain Hnot Hmesh Hreg Hfuel.
  destruct (is_mesh_true _ _ Hmesh) as (oc & Hc & _).
  assert (Hne : p ≠ c) by (intros ->; apply Hnot, on_chain_here).
  destruct (add_child_cases fuel p c s r k Hchain Hnot) as
    (s1 & reg & Hatt & _ & Hcases); [by eexists|].
  assert (H1 : reg = Some r ∧ add_child fuel p c s = (Ret tt, s1)).
  { destruct Hcases as [H|[H|[H|H]]].
    - destruct H as (H & _). congruence.
    - destruct H as (_ & H & _). lia.
    - destruct H as (_ & _ & H & _). congruence.
    - by destruct H as (_ & _ & _ & -> & H). }
  destruct H1 as [-> Hrun1].
  destruct Hatt as (A0 & A1 & A2 & A3 & A4 & _).
  assert (Hchain1 : chain (heap s1) p r k).
  { apply (chain_frame _ _ _ _ _ Hchain).
    - intros y Hy. rewrite A1. rewrite decide_False; [done|]. by intros ->.
    - intros y. apply A0. }
  assert (Hnot1 : ¬ on_chain (heap s1) p c).
  { intros H.
    assert (Hc' : on_chain (heap s) p c ∧ c ≠ c); [|by destruct Hc'].
    apply (on_chain_closed (fun a => on_chain (heap s) p a ∧ a ≠ c) _ _ _ H).
    - split; [apply on_chain_here|done].
    - intros a b [Ha Hac] Hab. rewrite A1, decide_False in Hab by done.
      assert (Hb : on_chain (heap s) p b) by (by eapply on_chain_snoc).
      split; [done|]. by intros ->. }
  assert (Hmesh1 : is_mesh (heap s1) c = true) by (by rewrite A3).
  assert (Hreg1 : registry (heap s1) r = Some (l ++ [c])).
  { rewrite A4, decide_True by done. by rewrite Hreg. }
  destruct (add_child_cases fuel p c s1 r k Hchain1 Hnot1) as
    (s2 & reg & Hatt2 & _ & Hcases2); [apply A0; by eexists|].
  assert (H2 : reg = Some r ∧ add_child fuel p c s1 = (Ret tt, s2)).
  { destruct Hcases2 as [H|[H|[H|H]]].
    - destruct H as (H & _). congruence.
    - destruct H as (_ & H & _). lia.
    - destruct H as (_ & _ & H & _). congruence.
    - by destruct H as (_ & _ & _ & -> & H). }
  destruct H2 as [-> Hrun2].
  destruct Hatt2 as (_ & _ & B2 & _ & B4 & _).
  exists s1, s2. split; [done|]. split; [done|]. split.
  - rewrite B4, decide_True by done. rewrite Hreg1. cbn. by rewrite <- app_assoc.
  - rewrite B2, decide_True by done. rewrite A2, decide_True by done.
    by rewrite <- app_assoc.
Qed.

(** [Root.add_child(M1)] twice. *)
Lemma add_child_twice_registers_twice_witness :
  ∃ s1 s2,
    add_child 1 0 1 (mkState [Root; M1] []) = (Ret tt, s1) ∧
    add_child 1 0 1 s1 = (Ret tt, s2) ∧
    registry (heap s2) 0 = Some ([] ++ [1; 1]) ∧
    children_of (heap s2) 0 = children_of [Root; M1] 0 ++ [1; 1].
Proof.
  apply (add_child_twice_registers_twice 1 0 1 (mkState [Root; M1] []) 0 0 []).
  - apply chain_top; [by eexists|vm_compute; reflexivity].
  - intros H. inversion H as [|x q y Hq _]; subst. vm_compute in Hq. discriminate Hq.
  - vm_compute. reflexivity.
  - vm_compute. reflexivity.
  - lia.
Defined.

(** ** Building records: the whole tree, failures, traces *)

(** X17: the record that Build leaves on a node is a function of the tree as
    it was before the call: after [construct_data] has returned, every node
    of the tree below [a] holds the record that [record_of] computes from the
    store before the call (children's records nested all the way down), and
    the tree still denotes the same records. *)
Theorem construct_data_whole_tree (n : nat) (a : addr) (s : State) :
  buildable n (heap s) a = true ->
  ∃ s', construct_data n a s = (Ret None, s') ∧
    ∀ x, x ∈ subtree n (heap s) a ->
      is_Some (record_of n (heap s) x) ∧
      get_data x s' = (Ret (record_of n (heap s) x), s') ∧
      record_of n (heap s') x = record_of n (heap s) x.
Proof.
  intros Hb.
  destruct (construct_data_spec n a s Hb) as (s' & t & Hrun & Hsk & _ & Hset & _).
  exists s'. split; [done|]. intros x Hx.
  destruct (Hset x Hx) as (o' & Hx' & m & r & Hbm & Hrm & Hnd & _).
  pose proof (subtree_buildable _ _ _ _ Hx n Hb) as Hbx.
  rewrite (record_of_fuel m n _ _ Hbm Hbx) in Hrm.
  split; [rewrite Hrm; by eexists|]. split.
  - by rewrite (get_data_Some _ _ _ Hx'), Hnd, Hrm.
  - symmetry. by apply record_of_skeleton.
Qed.

(** Scenario C: the record of [Root] nests those of [M1] and [L1]. *)
Lemma construct_data_whole_tree_witness :
  ∃ s', construct_data 3 0 scenario_C = (Ret None, s') ∧
    ∀ x, x ∈ subtree 3 (heap scenario_C) 0 ->
      is_Some (record_of 3 (heap scenario_C) x) ∧
      get_data x s' = (Ret (record_of 3 (heap scenario_C) x), s') ∧
      record_of 3 (heap s') x = record_of 3 (heap scenario_C) x.
Proof. apply (construct_data_whole_tree 3 0 scenario_C). vm_compute. reflexivity. Defined.

Lemma for_each_invariant {A} (P : State -> Prop) (body : A -> M State unit) :
  ∀ (xs : list A) s r s',
    (∀ x s r s', x ∈ xs -> P s -> body x s = (r, s') -> P s') ->
    P s -> for_each xs body s = (r, s') -> P s'.
Proof.
  induction xs as [|x xs IH]; intros s r s' Hbody HP Hrun.
  - cbn [for_each] in Hrun. unfold ret in Hrun. by assert (s' = s) as -> by congruence.
  - cbn [for_each] in Hrun.
    apply bind_inv in Hrun as [([] & s1 & H1 & Hrun)|(e & H1 & _)].
    + apply (IH s1 r s'); [|by eapply Hbody; [apply list_elem_of_here|..]|done].
      intros y s2 r2 s3 Hy. apply Hbody. by apply list_elem_of_further.
    + eapply Hbody; [apply list_elem_of_here|exact HP|exact H1].
Qed.

(** A mutation of the node at [a] that keeps its skeleton. *)
Lemma update_touches a f s r s' (h0 : list Object) (Q : addr -> Prop) :
  (∀ o, skeleton (f o) = skeleton o) -> Q a ->
  touches_only Q h0 s ->
  update a f s = (r, s') ->
  touches_only Q h0 s'.
Proof.
  intros Hf Ha [Hsk Hfr] Hrun. unfold update in Hrun.
  destruct (heap s !! a) as [o|] eqn:Ho.
  - assert (s' = mkState (<[a := f o]> (heap s)) (built s)) as -> by congruence.
    split; cbn [heap].
    + eapply same_skeleton_trans; [exact Hsk|]. by apply (same_skeleton_insert _ _ o).
    + intros x Hx. rewrite lookup_update_ne; [by apply Hfr|]. by intros ->.
  - by assert (s' = s) as -> by congruence.
Qed.

Lemma get_attr_inv (f : Object -> option string) (e : exn) a s r s' :
  (o <- deref a ;; if f o is Some x then ret x else raise e)%py s = (r, s') ->
  s' = s.
Proof.
  intros H. apply bind_inv in H as [(o & s1 & Hd & H)|(e' & Hd & _)].
  - pose proof (deref_inv _ _ _ _ Hd) as ->.
    destruct (f o); unfold ret, raise in H; congruence.
  - by apply deref_inv in Hd.
Qed.

Lemma get_data_inv a s r s' : get_data a s = (r, s') -> s' = s.
Proof.
  unfold get_data. intros H.
  apply bind_inv in H as [(o & s1 & Hd & H)|(e' & Hd & _)].
  - pose proof (deref_inv _ _ _ _ Hd) as ->. unfold ret in H. congruence.
  - by apply deref_inv in Hd.
Qed.

Lemma subtree_child n h a o c x :
  h !! a = Some o -> c ∈ Children o -> x ∈ subtree n h c -> x ∈ subtree (S n) h a.
Proof.
  intros Ha Hc Hx. cbn [subtree]. rewrite Ha. apply list_elem_of_further.
  apply list_elem_of_bind. by exists c.
Qed.

Lemma Child_Nodes_append_touches a d s r s' h0 (Q : addr -> Prop) :
  Q a -> touches_only Q h0 s ->
  Child_Nodes_append a d s = (r, s') -> touches_only Q h0 s'.
Proof.
  intros Qa HP Hrun. unfold Child_Nodes_append in Hrun.
  apply bind_inv in Hrun as [(o & s1 & Hd & Hrun)|(e & Hd & _)];
    pose proof (deref_inv _ _ _ _ Hd) as ->; [|done].
  destruct (Child_Nodes o).
  - eapply update_touches; [| | |exact Hrun]; done.
  - unfold raise in Hrun. by assert (s' = s) as -> by congruence.
Qed.

Section touches_loop.
Variable n : nat.
Hypothesis IHn : ∀ a s r s',
  construct_data n a s = (r, s') ->
  touches_only (fun x => x ∈ subtree n (heap s) a) (heap s) s'.
Variable h0 : list Object.
Variable a : addr.
Variable o : Object.
Hypothesis Ha : h0 !! a = Some o.

Lemma construct_child_touches c s r s' :
  c ∈ Children o ->
  touches_only (fun x => x ∈ subtree (S n) h0 a) h0 s ->
  construct_child n a c s = (r, s') ->
  touches_only (fun x => x ∈ subtree (S n) h0 a) h0 s'.
Proof.
  intros Hc [Hsk Hfr] Hbody.
  assert (Qa : a ∈ subtree (S n) h0 a) by (cbn [subtree]; apply list_elem_of_here).
  assert (Hchild : ∀ v s1, construct_data n c s = (v, s1) ->
            touches_only (fun x => x ∈ subtree (S n) h0 a) h0 s1).
  { intros v s1 H1. destruct (IHn _ _ _ _ H1) as [Hsk1 Hfr1].
    split; [by eapply same_skeleton_trans|].
    intros x Hx. rewrite Hfr1; [by apply Hfr|].
    rewrite <- (subtree_skeleton _ _ _ _ Hsk).
    intros Hin. apply Hx. by eapply subtree_child. }
  unfold construct_child in Hbody.
  apply bind_inv in Hbody as [(v & s1 & H1 & Hbody)|(e & H1 & _)];
    [|by eapply Hchild].
  apply bind_inv in Hbody as [(d & s2 & Hd & Hbody)|(e & Hd & _)];
    pose proof (get_data_inv _ _ _ _ Hd) as ->; [|by eapply Hchild].
  eapply Child_Nodes_append_touches; [exact Qa|by eapply Hchild|exact Hbody].
Qed.
End touches_loop.

(** What a call of [construct_data] does to the store, whatever its
    outcome. *)
Lemma construct_data_touches n :
  ∀ a s r s',
    construct_data n a s = (r, s') ->
    touches_only (fun x => x ∈ subtree n (heap s) a) (heap s) s'.
Proof.
  induction n as [|n IHn]; intros a s r s' Hrun.
  { cbn in Hrun. unfold raise in Hrun. by assert (s' = s) as -> by congruence. }
  cbn [construct_data] in Hrun.
  apply bind_inv in Hrun as [(o & s0 & Hd & Hrun)|(e & Hd & _)];
    pose proof (deref_inv _ _ _ _ Hd) as ->; [|done].
  unfold deref in Hd. destruct (heap s !! a) as [o'|] eqn:Ha; [|discriminate].
  assert (o' = o) as -> by congruence. clear Hd.
  assert (Qa : a ∈ subtree (S n) (heap s) a) by (cbn [subtree]; apply list_elem_of_here).
  assert (P0 : touches_only (fun x => x ∈ subtree (S n) (heap s) a) (heap s) s) by done.
  assert (Hfirst : ∀ r2 s2,
    (if negb (length (Children o) =? 0)
     then update a (with_Child_Nodes (Some [])) ;;
          for_each (Children o) (fun child =>
            construct_data n child ;;
            d <- get_data child ;;
            Child_Nodes_append a d)
     else update a (with_Child_Nodes None))%py s = (r2, s2) ->
    touches_only (fun x => x ∈ subtree (S n) (heap s) a) (heap s) s2).
  { intros r2 s2 H. destruct (negb _).
    - apply bind_inv in H as [([] & s1 & H1 & Hloop)|(e & H1 & _)].
      + eapply (for_each_invariant _ _ _ _ _ _ _ _ Hloop). Unshelve.
        * intros c s3 r3 s4 Hc HP3 Hbody.
          by eapply (construct_child_touches n IHn (heap s) a o Ha c s3 r3 s4).
        * eapply update_touches; [| | |exact H1]; done.
      + eapply update_touches; [| | |exact H1]; done.
    - eapply update_touches; [| | |exact H]; done. }
  apply bind_inv in Hrun as [([] & s2 & H2 & Hrun)|(e & H2 & _)];
    [|by eapply Hfirst].
  apply Hfirst in H2.
  apply bind_inv in Hrun as [(name & s3 & Hn & Hrun)|(e & Hn & _)];
    pose proof (get_attr_inv Name _ _ _ _ _ Hn) as ->; [|done].
  apply bind_inv in Hrun as [(type & s4 & Ht & Hrun)|(e & Ht & _)];
    pose proof (get_attr_inv _Type _ _ _ _ _ Ht) as ->; [|done].
  apply bind_inv in Hrun as [(o5 & s5 & Hd5 & Hrun)|(e & Hd5 & _)];
    pose proof (deref_inv _ _ _ _ Hd5) as ->; [|done].
  apply bind_inv in Hrun as [([] & s6 & Hu & Hrun)|(e & Hu & _)].
  - apply (update_touches a _ s2 _ s6 (heap s)
             (fun x => x ∈ subtree (S n) (heap s) a)) in Hu; [|done|exact Qa|done].
    unfold log_built, modify, bind, ret in Hrun.
    assert (s' = mkState (heap s6) (built s6 ++ [a])) as -> by congruence.
    done.
  - eapply update_touches; [| | |exact Hu]; done.
Qed.

Lemma skeleton_links o o' :
  skeleton o = skeleton o' ->
  Parent o = Parent o' ∧ Children o = Children o' ∧
  ListOfMeshes o = ListOfMeshes o' ∧ IsMesh o = IsMesh o'.
Proof.
  intros H.
  repeat split;
    [ apply (f_equal Parent) in H | apply (f_equal Children) in H
    | apply (f_equal ListOfMeshes) in H | apply (f_equal IsMesh) in H ]; exact H.
Qed.

Lemma same_skeleton_accessors h h' x :
  same_skeleton h h' ->
  parent_of h' x = parent_of h x ∧ children_of h' x = children_of h x ∧
  registry h' x = registry h x ∧ is_mesh h' x = is_mesh h x.
Proof.
  intros Hsk.
  destruct (h !! x) as [o|] eqn:Hx.
  - destruct (same_skeleton_Some _ _ _ _ Hsk Hx) as (o' & Hx' & Hs).
    destruct (accessors_lookup _ _ _ Hx) as (-> & -> & -> & -> & _).
    destruct (accessors_lookup _ _ _ Hx') as (-> & -> & -> & -> & _).
    destruct (skeleton_links _ _ Hs) as (-> & -> & -> & ->). done.
  - pose proof (same_skeleton_None _ _ _ Hsk Hx) as Hx'.
    unfold parent_of, children_of, registry, is_mesh. by rewrite Hx, Hx'.
Qed.

(** X18: whatever its outcome, also when it fails half-way, a call of
    [construct_data] assigns nothing but [Child_Nodes] and [NodeData], and
    only on nodes of the tree below [a]: parents, children, registries, mesh
    flags, names, types, transforms and attributes are as before, and the
    nodes outside that tree are untouched. *)
Theorem construct_data_keeps_tree
    (n : nat) (a : addr) (s : State)
    (r : outcome (option TkSceneNodeData)) (s' : State) :
  construct_data n a s = (r, s') ->
  skeleton <$> heap s' = skeleton <$> heap s ∧
  (∀ x, x ∉ subtree n (heap s) a -> heap s' !! x = heap s !! x) ∧
  (∀ x, parent_of (heap s') x = parent_of (heap s) x ∧
        children_of (heap s') x = children_of (heap s) x ∧
        registry (heap s') x = registry (heap s) x ∧
        is_mesh (heap s') x = is_mesh (heap s) x).
Proof.
  intros Hrun. destruct (construct_data_touches n a s r s' Hrun) as [Hsk Hfr].
  split; [by symmetry|]. split; [exact Hfr|].
  intros x. by apply same_skeleton_accessors.
Qed.

(** A Build that fails for want of recursion depth, on scenario C. *)
Lemma construct_data_keeps_tree_witness :
  let s' := snd (construct_data 1 0 scenario_C) in
  skeleton <$> heap s' = skeleton <$> heap scenario_C ∧
  (∀ x, x ∉ subtree 1 (heap scenario_C) 0 -> heap s' !! x = heap scenario_C !! x) ∧
  (∀ x, parent_of (heap s') x = parent_of (heap scenario_C) x ∧
        children_of (heap s') x = children_of (heap scenario_C) x ∧
        registry (heap s') x = registry (heap scenario_C) x ∧
        is_mesh (heap s') x = is_mesh (heap scenario_C) x).
Proof.
  intros s'.
  apply (construct_data_keeps_tree 1 0 scenario_C (Raise RecursionError) s').
  vm_compute. reflexivity.
Defined.

Lemma well_formed_skeleton h h' :
  same_skeleton h h' -> well_formed h -> well_formed h'.
Proof.
  intros Hsk Hwf x o' Hx.
  destruct (same_skeleton_Some _ _ _ _ (same_skeleton_sym _ _ Hsk) Hx) as (o & Ho & Hs).
  destruct (skeleton_fields _ _ Hs) as (-> & -> & _ & _ & ->).
  destruct (Hwf x o Ho) as (Hn & Ht & Hc). split; [done|]. split; [done|].
  intros c Hin. destruct (Hc c Hin) as [oc Hoc].
  destruct (same_skeleton_Some _ _ _ _ Hsk Hoc) as (oc' & -> & _). by eexists.
Qed.

Lemma for_each_outcome {A} (J : State -> Prop) (body : A -> M State unit) (e : exn) :
  ∀ (xs : list A) s r s',
    (∀ x s r s', x ∈ xs -> J s -> body x s = (r, s') ->
                 (r = Ret tt ∧ J s') ∨ r = Raise e) ->
    J s -> for_each xs body s = (r, s') ->
    (r = Ret tt ∧ J s') ∨ r = Raise e.
Proof.
  induction xs as [|x xs IH]; intros s r s' Hbody HJ Hrun.
  - cbn [for_each] in Hrun. unfold ret in Hrun. left. split; congruence.
  - cbn [for_each] in Hrun.
    apply bind_inv in Hrun as [([] & s1 & H1 & Hrun)|(e1 & H1 & ->)].
    + destruct (Hbody x s _ s1 (list_elem_of_here _ _) HJ H1) as [[_ HJ1]|?];
        [|discriminate].
      apply (IH s1 r s'); [|done|done].
      intros y s2 r2 s3 Hy. apply Hbody. by apply list_elem_of_further.
    + destruct (Hbody x s _ s' (list_elem_of_here _ _) HJ H1) as [[? _]|?];
        [discriminate|by right].
Qed.

(** On a well-formed store, [construct_data] of an existing node returns
    [None] or raises [RecursionError]. *)
Lemma construct_data_outcome n :
  ∀ a s r s',
    well_formed (heap s) -> is_Some (heap s !! a) ->
    construct_data n a s = (r, s') ->
    r = Ret None ∨ r = Raise RecursionError.
Proof.
  induction n as [|n IHn]; intros a s r s' Hwf [o Ha] Hrun.
  { cbn in Hrun. unfold raise in Hrun. right. congruence. }
  pose proof (construct_data_touches _ _ _ _ _ Hrun) as [Hsk' _].
  cbn [construct_data] in Hrun.
  rewrite (bind_Ret _ _ _ _ _ (deref_Some _ _ _ Ha)) in Hrun.
  destruct (Hwf a o Ha) as ([name Hname] & [type Htype] & Hch).
  (* the children *)
  assert (Hfirst : ∀ r2 s2,
    (if negb (length (Children o) =? 0)
     then update a (with_Child_Nodes (Some [])) ;;
          for_each (Children o) (fun child =>
            construct_data n child ;;
            d <- get_data child ;;
            Child_Nodes_append a d)
     else update a (with_Child_Nodes None))%py s = (r2, s2) ->
    (r2 = Ret tt ∧ same_skeleton (heap s) (heap s2)) ∨ r2 = Raise RecursionError).
  { intros r2 s2 H. destruct (negb _).
    - rewrite (bind_Ret _ _ _ _ _ (update_Some _ _ _ _ Ha)) in H.
      set (J := fun s1 : State =>
                  same_skeleton (heap s) (heap s1) ∧
                  ∃ oa l, heap s1 !! a = Some oa ∧ Child_Nodes oa = Some l).
      assert (HJ : (r2 = Ret tt ∧ J s2) ∨ r2 = Raise RecursionError).
      { eapply (for_each_outcome J _ RecursionError _ _ _ _ _ _ H). Unshelve.
        - intros c s3 r3 s4 Hc [Hsk3 (oa & l & Ha3 & Hl3)] Hbody.
          fold (construct_child n a c) in Hbody. unfold construct_child in Hbody.
          assert (Hwf3 : well_formed (heap s3)) by (by eapply well_formed_skeleton).
          assert (Hc3 : is_Some (heap s3 !! c)).
          { destruct (Hch c Hc) as [oc Hoc].
            destruct (same_skeleton_Some _ _ _ _ Hsk3 Hoc) as (oc' & -> & _).
            by eexists. }
          apply bind_inv in Hbody as [(v & s5 & H5 & Hbody)|(e5 & H5 & ->)].
          2: { destruct (IHn _ _ _ _ Hwf3 Hc3 H5) as [?|E]; [discriminate|].
               right. by injection E as ->. }
          pose proof (construct_data_Ret_buildable _ _ _ _ _ H5) as Hb5.
          destruct (construct_data_touches _ _ _ _ _ H5) as [Hsk5 Hfr5].
          destruct Hc3 as [oc Hoc].
          destruct (same_skeleton_Some _ _ _ _ Hsk5 Hoc) as (oc' & Hoc' & _).
          rewrite (bind_Ret _ _ _ _ _ (get_data_Some _ _ _ Hoc')) in Hbody.
          assert (Ha5 : heap s5 !! a = Some oa).
          { rewrite Hfr5; [done|]. intros Hin.
            pose proof (subtree_buildable _ _ _ _ Hin n Hb5) as Hba.
            destruct (same_skeleton_Some _ _ _ _ Hsk3 Ha) as (oa' & Ha' & Hs).
            assert (oa' = oa) as -> by congruence.
            destruct (skeleton_fields _ _ Hs) as (_ & _ & _ & _ & Hcs).
            refine (not_below_itself n n (heap s3) a oa c Hba Ha3 _ Hin).
            by rewrite <- Hcs. }
          rewrite (Child_Nodes_append_Some _ _ _ _ _ Ha5 Hl3) in Hbody.
          injection Hbody as <- <-. left. split; [done|]. split; cbn [heap].
          + eapply same_skeleton_trans; [exact Hsk3|].
            eapply same_skeleton_trans; [exact Hsk5|].
            by apply (same_skeleton_insert _ _ oa).
          + eexists _, _. split; [by eapply lookup_update_eq|done].
        - split; cbn [heap].
          + by apply (same_skeleton_insert _ _ o).
          + eexists _, _. split; [by eapply lookup_update_eq|done]. }
      destruct HJ as [[-> [HJ _]]| ->]; [by left|by right].
    - rewrite (update_Some _ _ _ _ Ha) in H. injection H as <- <-.
      left. split; [done|]. cbn [heap]. by apply (same_skeleton_insert _ _ o). }
  apply bind_inv in Hrun as [([] & s2 & H2 & Hrun)|(e & H2 & ->)].
  2: { destruct (Hfirst _ _ H2) as [[? _]|E]; [discriminate|].
       right. by injection E as ->. }
  destruct (Hfirst _ _ H2) as [[_ Hsk2]|?]; [|discriminate].
  destruct (same_skeleton_Some _ _ _ _ Hsk2 Ha) as (o2 & Ha2 & Hs2).
  destruct (skeleton_fields _ _ Hs2) as (Hn2 & Ht2 & _).
  rewrite Hname in Hn2. rewrite Htype in Ht2.
  rewrite (construct_data_finish a s2 o2 name type Ha2) in Hrun by done.
  left. congruence.
Qed.

Lemma payload_fields o o' :
  payload o = payload o' -> Name o = Name o' ∧ _Type o = _Type o'.
Proof.
  intros H.
  split; [apply (f_equal Name) in H | apply (f_equal _Type) in H]; exact H.
Qed.

Lemma add_child_Ret_children fuel p c s s' :
  add_child fuel p c s = (Ret tt, s') ->
  is_Some (heap s !! c) ∧
  ∀ x y, y ∈ children_of (heap s') x -> y ∈ children_of (heap s) x ∨ y = c.
Proof.
  intros Hrun. unfold add_child, give_parent in Hrun.
  apply bind_Ret_inv in Hrun as ([] & s1 & H1 & Hrun).
  apply update_Ret in H1 as (op & Hp & ->).
  apply bind_Ret_inv in Hrun as ([] & s2 & H2 & Hrun).
  apply update_Ret in H2 as (oc & Hc & ->). cbn [heap built] in *.
  apply bind_Ret_inv in Hrun as (oc' & s3 & Hd & Hrun).
  pose proof (deref_inv _ _ _ _ Hd) as ->.
  split.
  { destruct (accessors_insert _ p op (with_Children (Children op ++ [c]) op) c Hp)
      as (<- & _). by eexists. }
  assert (Hlinks : ∀ x, children_of (heap s') x =
            children_of (<[c := with_Parent (Some p) oc]>
                           (<[p := with_Children (Children op ++ [c]) op]> (heap s))) x).
  { intros x. destruct (IsMesh oc').
    - apply (populate_meshlist_links _ _ _ _ _ _ Hrun).
    - unfold ret in Hrun. by injection Hrun as <-. }
  intros x y. rewrite Hlinks.
  destruct (accessors_insert _ c oc (with_Parent (Some p) oc) x Hc) as (_ & _ & -> & _).
  destruct (accessors_insert _ p op (with_Children (Children op ++ [c]) op) x Hp)
    as (_ & _ & E & _).
  destruct (accessors_lookup _ _ _ Hp) as (_ & Hcp & _).
  destruct (decide (x = c)) as [->|Hxc].
  - cbn [Children with_Parent].
    destruct (accessors_lookup _ _ _ Hc) as (_ & <- & _). rewrite E.
    destruct (decide (c = p)) as [->|]; [|by left].
    cbn [Children with_Children]. rewrite <- Hcp.
    intros [?|?%list_elem_of_singleton]%elem_of_app; [by left|by right].
  - rewrite E. destruct (decide (x = p)) as [->|]; [|by left].
    cbn [Children with_Children]. rewrite <- Hcp.
    intros [?|?%list_elem_of_singleton]%elem_of_app; [by left|by right].
Qed.

(** Every store assembled with [add_child], in whatever order, is well
    formed. *)
Lemma assembled_well_formed calls s : assembled calls s -> well_formed (heap s).
Proof.
  induction 1 as [h Hall|calls s fuel p c s' _ IH Hrun].
  - intros x o Hx. cbn [heap] in Hx.
    assert (Hcon : constructed o).
    { rewrite Forall_forall in Hall. apply Hall. by eapply list_elem_of_lookup_2. }
    destruct (constructed_initialized o Hcon) as (Hi & _).
    destruct (constructed_fresh o Hcon) as (_ & Hch & _).
    unfold initialized in Hi.
    apply andb_prop in Hi as [Hi _]. apply andb_prop in Hi as [Hn Ht].
    apply bool_decide_eq_true in Hn. apply bool_decide_eq_true in Ht.
    split; [done|]. split; [done|]. rewrite Hch. by intros c ?%elem_of_nil.
  - destruct (add_child_effect _ _ _ _ _ _ Hrun) as [(Hpay & _) _].
    destruct (add_child_Ret_children _ _ _ _ _ Hrun) as [Hc Hchildren].
    assert (Halloc : ∀ y, is_Some (heap s !! y) -> is_Some (heap s' !! y)).
    { intros y [oy Hy].
      assert (E : payload <$> heap s' !! y = Some (payload oy))
        by (by rewrite <- list_lookup_fmap, Hpay, list_lookup_fmap, Hy).
      destruct (heap s' !! y); [by eexists|discriminate E]. }
    intros x o' Hx.
    assert (E : payload <$> heap s !! x = Some (payload o'))
      by (by rewrite <- list_lookup_fmap, <- Hpay, list_lookup_fmap, Hx).
    destruct (heap s !! x) as [o|] eqn:Ho; [|discriminate E].
    cbn [fmap option_fmap option_map] in E. apply Some_eq_inv in E.
    destruct (payload_fields _ _ E) as (Hn & Ht).
    destruct (IH x o Ho) as (Hname & Htype & Hch).
    rewrite <- Hn, <- Ht. split; [done|]. split; [done|].
    intros y Hy.
    destruct (accessors_lookup _ _ _ Hx) as (_ & Hcx & _).
    destruct (accessors_lookup _ _ _ Ho) as (_ & Hco & _).
    rewrite <- Hcx in Hy.
    destruct (Hchildren x y Hy) as [Hy'| ->]; [|by apply Halloc].
    apply Halloc, Hch. by rewrite <- Hco.
Qed.

(** X19: on a well-formed store (every node has a name and a type tag,
    every child exists; stores assembled with [add_child] are such,
    [assembled_well_formed]), Build of an existing node has two outcomes
    only: it returns [None], exactly when the tree below the node is
    buildable within the recursion limit, or it raises [RecursionError]. *)
Theorem construct_data_None_or_RecursionError (n : nat) (a : addr) (s : State) :
  well_formed (heap s) ->
  is_Some (heap s !! a) ->
  (buildable n (heap s) a = true ∧
   ∃ s', construct_data n a s = (Ret None, s')) ∨
  (buildable n (heap s) a = false ∧
   ∃ s', construct_data n a s = (Raise RecursionError, s')).
Proof.
  intros Hwf Ha.
  destruct (buildable n (heap s) a) eqn:Hb.
  - left. split; [done|].
    destruct (construct_data_spec n a s Hb) as (s' & _ & H & _). by exists s'.
  - right. split; [done|].
    destruct (construct_data n a s) as [r s'] eqn:Hrun. exists s'.
    destruct (construct_data_outcome n a s r s' Hwf Ha Hrun) as [-> | ->]; [|done].
    apply construct_data_Ret_buildable in Hrun. congruence.
Qed.

(** Scenario C with a recursion limit of 1: the children cannot be built. *)
Lemma construct_data_None_or_RecursionError_witness :
  ∃ s', construct_data 1 0 scenario_C = (Raise RecursionError, s').
Proof.
  assert (Hasm : assembled [(0, 1); (0, 2)] scenario_C).
  { destruct example_objects_constructed as (HR & _ & HM & HL).
    set (s0 := mkState [Root; M1; L1] []).
    set (s1 := run (add_child 2 0 1) s0).
    assert (E : scenario_C = run (add_child 2 0 2) s1) by (vm_compute; reflexivity).
    rewrite E. apply (assembled_add [(0, 1)] s1 2 0 2).
    - apply (assembled_add [] s0 2 0 1).
      + apply assembled_new. repeat constructor; assumption.
      + vm_compute. reflexivity.
    - vm_compute. reflexivity. }
  destruct (construct_data_None_or_RecursionError 1 0 scenario_C
              (assembled_well_formed _ _ Hasm)) as [[Hb _]|[_ H]].
  - vm_compute. by eexists.
  - vm_compute in Hb. discriminate Hb.
  - exact H.
Defined.

(** X20: a node that is below itself (it is reachable from one of its own
    children by following [Children]) cannot be built: whatever the recursion
    limit, [construct_data] raises, and on a well-formed store the error is
    [RecursionError]. *)
Theorem construct_data_cycle
    (m : nat) (a c : addr) (s : State) (o : Object) :
  heap s !! a = Some o ->
  c ∈ Children o ->
  a ∈ subtree m (heap s) c ->
  ∀ n, ∃ e s', construct_data n a s = (Raise e, s') ∧
               (well_formed (heap s) -> e = RecursionError).
Proof.
  intros Ha Hc Hin n.
  destruct (construct_data n a s) as [[v|e] s'] eqn:Hrun.
  - apply construct_data_Ret_buildable in Hrun.
    by destruct (not_below_itself n m (heap s) a o c Hrun Ha Hc).
  - exists e, s'. split; [done|]. intros Hwf.
    destruct (construct_data_outcome n a s _ s' Hwf (ex_intro _ o Ha) Hrun) as [E|E];
      congruence.
Qed.

(** [L1.add_child(L1)]: the Locator is its own child. *)
Lemma construct_data_cycle_witness :
  let s := run (add_child 1 0 0) (mkState [L1] []) in
  ∃ e s', construct_data 1000 0 s = (Raise e, s') ∧
          (well_formed (heap s) -> e = RecursionError).
Proof.
  intros s.
  assert (Ho : ∃ o, heap s !! 0 = Some o ∧ Children o = [0])
    by (vm_compute; by eexists).
  destruct Ho as (o & Ho & Hch).
  apply (construct_data_cycle 1 0 0 s o Ho).
  - rewrite Hch. apply list_elem_of_here.
  - cbn [subtree]. apply list_elem_of_here.
Defined.

Lemma postorder_skeleton n h h' a :
  same_skeleton h h' -> postorder n h a = postorder n h' a.
Proof.
  intros H. revert a. induction n as [|n IH]; intros a; [done|].
  cbn [postorder]. destruct (h !! a) as [o|] eqn:Ha.
  - destruct (same_skeleton_Some _ _ _ _ H Ha) as (o' & -> & Hs).
    destruct (skeleton_fields _ _ Hs) as (_ & _ & _ & _ & ->).
    f_equal. clear Ha Hs. induction (Children o') as [|c cs IHcs]; [done|].
    cbn. by rewrite IH, IHcs.
  - by rewrite (same_skeleton_None _ _ _ H Ha).
Qed.

Lemma construct_data_unfold n a :
  construct_data (S n) a =
  (o <- deref a ;;
   (if negb (Nat.eqb (length (Children o)) 0) then
      update a (with_Child_Nodes (Some [])) ;;
      for_each (Children o) (construct_child n a)
    else
      update a (with_Child_Nodes None)) ;;
   name <- get_Name_of a ;;
   type <- get_Type_of a ;;
   o <- deref a ;;
   update a (with_NodeData
     (Some (mkNodeData name type (Transform o) (Attributes o) (Child_Nodes o)))) ;;
   log_built a ;;
   ret None)%py.
Proof. reflexivity. Qed.

(** The trace of a returning Build. *)
Lemma construct_data_trace n :
  ∀ a s v s',
    construct_data n a s = (Ret v, s') ->
    built s' = built s ++ postorder n (heap s) a.
Proof.
  induction n as [|n IHn]; intros a s v s' Hrun; [discriminate Hrun|].
  rewrite construct_data_unfold in Hrun. cbn [postorder].
  apply bind_Ret_inv in Hrun as (o & s0 & Hd & Hrun).
  unfold deref in Hd. destruct (heap s !! a) as [o'|] eqn:Ha; [|discriminate].
  assert (o' = o ∧ s0 = s) as [-> ->] by (split; congruence). clear Hd.
  apply bind_Ret_inv in Hrun as ([] & s2 & Hfirst & Hrun).
  assert (Hloop : ∀ cs s1 s3,
            same_skeleton (heap s) (heap s1) ->
            for_each cs (construct_child n a) s1 = (Ret tt, s3) ->
            built s3 = built s1 ++ (cs ≫= postorder n (heap s))).
  { induction cs as [|c cs IHcs]; intros s1 s3 Hsk Hl.
    - cbn [for_each] in Hl. unfold ret in Hl.
      assert (s3 = s1) as -> by congruence. cbn. by rewrite app_nil_r.
    - cbn [for_each] in Hl.
      apply bind_Ret_inv in Hl as ([] & s4 & Hbody & Hl).
      unfold construct_child in Hbody.
      apply bind_Ret_inv in Hbody as (w & s5 & H5 & Hbody).
      apply bind_Ret_inv in Hbody as (d & s6 & Hd & Hbody).
      pose proof (get_data_inv _ _ _ _ Hd) as ->.
      pose proof (Child_Nodes_append_Ret _ _ _ _ Hbody) as Hsk6.
      destruct (construct_data_touches _ _ _ _ _ H5) as [Hsk5 _].
      assert (Hb6 : built s4 = built s5).
      { unfold Child_Nodes_append in Hbody.
        apply bind_Ret_inv in Hbody as (o6 & s7 & Hd7 & Hbody).
        pose proof (deref_inv _ _ _ _ Hd7) as ->.
        destruct (Child_Nodes o6); [|discriminate Hbody].
        by apply update_Ret in Hbody as (? & _ & ->). }
      rewrite (IHcs s4 s3); [|by repeat (eapply same_skeleton_trans; [eassumption|])|done].
      rewrite Hb6, (IHn _ _ _ _ H5).
      rewrite <- (postorder_skeleton _ _ _ _ Hsk). cbn. by rewrite <- app_assoc. }
  assert (Hb2 : built s2 = built s ++ (Children o ≫= postorder n (heap s)) ∧
                same_skeleton (heap s) (heap s2)).
  { destruct (Children o) as [|c0 cs0] eqn:Hch.
    - cbn [length Nat.eqb negb] in Hfirst.
      apply update_Ret in Hfirst as (o1 & Ha1 & ->). cbn [heap built mbind list_bind].
      rewrite app_nil_r. split; [done|]. by apply (same_skeleton_insert _ a o1).
    - cbn [length Nat.eqb negb] in Hfirst.
      apply bind_Ret_inv in Hfirst as ([] & s1 & Hupd & Hl).
      apply update_Ret in Hupd as (o1 & Ha1 & ->).
      assert (Hsk1 : same_skeleton (heap s) (<[a := with_Child_Nodes (Some []) o1]> (heap s)))
        by (by apply (same_skeleton_insert _ a o1)).
      split; [by rewrite (Hloop _ (mkState _ _) _ Hsk1 Hl)|].
      apply (for_each_invariant (fun s1 => same_skeleton (heap s) (heap s1)) _ _ _ _ _)
        in Hl; [done| |done].
      intros c s3 r3 s4 _ Hsk3 Hbody.
      unfold construct_child in Hbody.
      apply bind_inv in Hbody as [(w & s5 & H5 & Hbody)|(e & H5 & _)];
        destruct (construct_data_touches _ _ _ _ _ H5) as [Hsk5 _];
        [|by eapply same_skeleton_trans].
      apply bind_inv in Hbody as [(d & s6 & Hd & Hbody)|(e & Hd & _)];
        pose proof (get_data_inv _ _ _ _ Hd) as ->; [|by eapply same_skeleton_trans].
      assert (HP5 : touches_only (fun _ => True) (heap s) s5).
      { split; [by eapply same_skeleton_trans|]. by intros x []. }
      by destruct (Child_Nodes_append_touches _ _ _ _ _ _ _ I HP5 Hbody). }
  destruct Hb2 as [Hb2 Hsk2].
  apply bind_Ret_inv in Hrun as (name & s3 & Hname & Hrun).
  apply bind_Ret_inv in Hrun as (type & s4 & Htype & Hrun).
  apply (get_attr_Ret Name) in Hname as (o2 & Ha2 & Hname & ->).
  apply (get_attr_Ret _Type) in Htype as (o2' & Ha2' & Htype & ->).
  assert (o2' = o2) as -> by congruence.
  rewrite (bind_Ret _ _ _ _ _ (deref_Some _ _ _ Ha2)) in Hrun.
  rewrite (bind_Ret _ _ _ _ _ (update_Some _ _ _ _ Ha2)) in Hrun.
  unfold log_built, modify, bind, ret in Hrun.
  injection Hrun as _ <-. cbn [built]. by rewrite Hb2, <- app_assoc.
Qed.

Lemma postorder_unfold n h a :
  postorder (S n) h a =
  match h !! a with
  | Some o => Children o ≫= postorder n h
  | None => []
  end ++ [a].
Proof. reflexivity. Qed.

Lemma postorder_S n h a :
  buildable n h a = true -> postorder (S n) h a = postorder n h a.
Proof.
  revert a. induction n as [|n IH]; intros a Hb; [done|].
  destruct (buildable_inv _ _ _ Hb) as (o & _ & _ & Ha & _ & _ & Hcs).
  rewrite (postorder_unfold (S n)), (postorder_unfold n), Ha.
  f_equal. clear Ha. induction (Children o) as [|c cs IHcs]; [done|].
  cbn [mbind list_bind].
  rewrite (IH c) by (apply Hcs, list_elem_of_here).
  f_equal. apply IHcs. intros c' Hc'. apply Hcs. by apply list_elem_of_further.
Qed.

Lemma postorder_le n m h a :
  buildable n h a = true -> n ≤ m -> postorder m h a = postorder n h a.
Proof.
  intros Hb Hle. induction Hle as [|m Hle IH]; [done|].
  rewrite postorder_S; [done|]. by eapply buildable_le.
Qed.

Lemma postorder_subtree n h a x : x ∈ postorder n h a ↔ x ∈ subtree n h a.
Proof.
  revert a. induction n as [|n IH]; intros a; [done|].
  cbn [postorder subtree]. rewrite elem_of_app, list_elem_of_singleton, elem_of_cons.
  destruct (h !! a) as [o|].
  - rewrite !list_elem_of_bind. split.
    + intros [(c & Hx & Hc)| ->]; [right|by left]. exists c. by rewrite <- IH.
    + intros [->|(c & Hx & Hc)]; [by right|left]. exists c. by rewrite IH.
  - rewrite !elem_of_nil. tauto.
Qed.

(** X21: the order of construction.  A returning Build assigns the records
    of the tree below [a] in post-order: for every node, first the trees of
    its children, in the order of [Children], then the node itself; it
    visits exactly the nodes of the tree, the node [a] last. *)
Theorem construct_data_post_order
    (n : nat) (a : addr) (s : State)
    (v : option TkSceneNodeData) (s' : State) :
  construct_data n a s = (Ret v, s') ->
  built s' = built s ++ postorder n (heap s) a ∧
  (∀ x, x ∈ postorder n (heap s) a ↔ x ∈ subtree n (heap s) a) ∧
  last (postorder n (heap s) a) = Some a.
Proof.
  intros Hrun. split; [by eapply construct_data_trace|].
  split; [intros x; apply postorder_subtree|].
  destruct n as [|n]; [discriminate Hrun|].
  cbn [postorder]. apply last_snoc.
Qed.

(** Scenario C: [M1], then [L1], then [Root]. *)
Lemma construct_data_post_order_witness :
  built (run (construct_data 2 0) scenario_C) = built scenario_C ++ [1; 2; 0].
Proof.
  destruct (construct_data_post_order 2 0 scenario_C None
              (run (construct_data 2 0) scenario_C)) as (H & _).
  - vm_compute. reflexivity.
  - rewrite H. vm_compute. reflexivity.
Defined.

(** X22: the recursion limit only matters when it is too low.  A Build that
    returns under one limit returns under every larger limit, with the same
    result and the same final store. *)
Theorem construct_data_more_fuel
    (n m : nat) (a : addr) (s : State)
    (v : option TkSceneNodeData) (s' : State) :
  construct_data n a s = (Ret v, s') ->
  n ≤ m ->
  construct_data m a s = (Ret v, s').
Proof.
  intros Hrun Hle.
  pose proof (construct_data_Ret_buildable _ _ _ _ _ Hrun) as Hb.
  pose proof (buildable_le _ _ _ _ Hb Hle) as Hbm.
  destruct (construct_data_spec n a s Hb) as (s1 & t1 & Hrun1 & Hsk1 & Hfr1 & Hset1 & _).
  destruct (construct_data_spec m a s Hbm) as (s2 & t2 & Hrun2 & Hsk2 & Hfr2 & Hset2 & _).
  assert (s1 = s' ∧ v = None) as [-> ->] by (split; congruence).
  rewrite Hrun2. f_equal.
  assert (Hsub : ∀ x, x ∈ subtree m (heap s) a ↔ x ∈ subtree n (heap s) a).
  { intros x. rewrite <- !postorder_subtree. by rewrite (postorder_le n m). }
  assert (Hheap : heap s2 = heap s').
  { apply list_eq. intros x.
    destruct (decide (x ∈ subtree n (heap s) a)) as [Hin|Hnin].
    - destruct (Hset1 x Hin) as (o1 & Ho1 & m1 & r1 & Hb1 & Hr1 & Hn1 & Hc1).
      destruct (Hset2 x (proj2 (Hsub x) Hin))
        as (o2 & Ho2 & m2 & r2 & Hb2 & Hr2 & Hn2 & Hc2).
      rewrite Ho1, Ho2. f_equal.
      rewrite (record_of_fuel m2 m1 _ _ Hb2 Hb1), Hr1 in Hr2. injection Hr2 as <-.
      pose proof (same_skeleton_lookup _ _ x Hsk1) as E1.
      pose proof (same_skeleton_lookup _ _ x Hsk2) as E2.
      rewrite E1, Ho1 in E2. rewrite Ho2 in E2.
      cbn [fmap option_fmap option_map] in E2. apply Some_eq_inv in E2.
      symmetry. apply skeleton_eq; congruence.
    - rewrite (Hfr1 x Hnin). apply Hfr2. by rewrite Hsub. }
  assert (Hbuilt : built s2 = built s').
  { rewrite (construct_data_trace _ _ _ _ _ Hrun), (construct_data_trace _ _ _ _ _ Hrun2).
    by rewrite (postorder_le n m). }
  destruct s2, s'. cbn in Hheap, Hbuilt. by subst.
Qed.

Lemma construct_data_more_fuel_witness :
  construct_data 1000 0 scenario_C =
    (Ret None, run (construct_data 2 0) scenario_C).
Proof.
  apply (construct_data_more_fuel 2 1000 0 scenario_C); [|lia].
  vm_compute. reflexivity.
Defined.

(** ** Trees assembled in order can be built *)

Lemma in_order_assembled calls s : assembled_in_order calls s -> assembled calls s.
Proof.
  induction 1 as [h Hall|calls s fuel p c s' _ IH _ _ _ _ Hrun].
  - by apply assembled_new.
  - by eapply assembled_add.
Qed.

(** The chains of parents of a store have a longest one. *)
Lemma chain_bound calls h :
  tree_invariant calls h -> ∃ K, ∀ x r k, chain h x r k -> k ≤ K.
Proof.
  intros Hinv.
  assert (Hm : ∀ m, ∃ K, ∀ x, x < m -> ∀ r k, chain h x r k -> k ≤ K).
  { induction m as [|m [K IH]].
    - exists 0. intros x Hx. lia.
    - destruct (h !! m) as [o|] eqn:Hm.
      + destruct (inv_chain _ _ Hinv m (ex_intro _ o Hm)) as (r0 & k0 & H0).
        exists (K `max` k0). intros x Hx r k H.
        destruct (decide (x = m)) as [->|Hne].
        * destruct (chain_functional _ _ _ _ _ _ H H0) as [_ ->]. lia.
        * assert (k ≤ K) by (apply (IH x ltac:(lia) r k H)). lia.
      + exists K. intros x Hx r k H.
        destruct (decide (x = m)) as [->|Hne].
        * destruct (chain_allocated _ _ _ _ H) as [o Ho]. congruence.
        * apply (IH x ltac:(lia) r k H). }
  destruct (Hm (length h)) as [K HK]. exists K. intros x r k H.
  apply (HK x) with r; [|done].
  destruct (chain_allocated _ _ _ _ H) as [o Ho]. by eapply lookup_lt_Some.
Qed.

Lemma bounded_buildable calls h K :
  tree_invariant calls h -> well_formed h ->
  (∀ x r k, chain h x r k -> k ≤ K) ->
  ∀ d x r k, chain h x r k -> K - k ≤ d -> buildable (S d) h x = true.
Proof.
  intros Hinv Hwf HK.
  induction d as [|d IH]; intros x r k Hchain Hd.
  - destruct (chain_allocated _ _ _ _ Hchain) as [o Ho].
    destruct (Hwf x o Ho) as (Hn & Ht & _).
    cbn [buildable]. rewrite Ho, !bool_decide_eq_true_2 by done.
    destruct (Children o) as [|c cs] eqn:Hch; [done|].
    exfalso.
    assert (Hc : parent_of h c = Some x).
    { apply (inv_children _ _ Hinv).
      destruct (accessors_lookup _ _ _ Ho) as (_ & -> & _).
      rewrite Hch. apply list_elem_of_here. }
    pose proof (HK c r (S k) (chain_up _ _ _ _ _ Hc Hchain)).
    pose proof (HK x r k Hchain). lia.
  - destruct (chain_allocated _ _ _ _ Hchain) as [o Ho].
    destruct (Hwf x o Ho) as (Hn & Ht & _).
    remember (S d) as d'. cbn [buildable]. subst d'.
    rewrite Ho, !bool_decide_eq_true_2 by done. cbn [andb].
    apply forallb_forall. intros c Hc%list_elem_of_In.
    assert (Hpc : parent_of h c = Some x).
    { apply (inv_children _ _ Hinv).
      by destruct (accessors_lookup _ _ _ Ho) as (_ & -> & _). }
    apply (IH c r (S k)); [by eapply chain_up|lia].
Qed.

(** X23: [add_child] and Build together.  When a tree has been assembled
    with [add_child] in order (each call attaches a parentless node that is
    not the parent or one of its ancestors and has no mesh-bearing node below
    it), every node of it can be built: there is a recursion limit from which
    on [construct_data] returns and leaves the node with the record of its
    tree. *)
Theorem in_order_build_returns
    (calls : list (addr * addr)) (s : State) (a : addr) :
  assembled_in_order calls s ->
  is_Some (heap s !! a) ->
  ∃ n0, ∀ n, n0 ≤ n ->
    ∃ s' r, construct_data n a s = (Ret None, s') ∧
            get_data a s' = (Ret (Some r), s') ∧
            record_of n (heap s) a = Some r.
Proof.
  intros Hasm Ha.
  pose proof (in_order_invariant _ _ Hasm) as Hinv.
  pose proof (assembled_well_formed _ _ (in_order_assembled _ _ Hasm)) as Hwf.
  destruct (chain_bound _ _ Hinv) as [K HK].
  destruct (inv_chain _ _ Hinv a Ha) as (r0 & k0 & Hchain).
  exists (S K). intros n Hn.
  assert (Hb : buildable n (heap s) a = true).
  { apply (buildable_le (S K)); [|done].
    apply (bounded_buildable _ _ K Hinv Hwf HK K a r0 k0 Hchain). lia. }
  destruct (construct_data_spec n a s Hb) as (s' & t & Hrun & _ & _ & Hset & _).
  destruct (Hset a (subtree_self _ _ _ Hb)) as (o' & Ha' & m & r & Hbm & Hrm & Hnd & _).
  exists s', r. split; [done|].
  split; [by rewrite (get_data_Some _ _ _ Ha'), Hnd|].
  by rewrite <- (record_of_fuel m n _ _ Hbm Hb).
Qed.

(** [deep_mesh]: a Mesh below a Locator below a Model. *)
Lemma in_order_build_returns_witness :
  ∃ n0, ∀ n, n0 ≤ n ->
    ∃ s' r, construct_data n 0 deep_mesh = (Ret None, s') ∧
            get_data 0 s' = (Ret (Some r), s') ∧
            record_of n (heap deep_mesh) 0 = Some r.
Proof.
  apply (in_order_build_returns [(0, 1); (1, 2)] deep_mesh 0 deep_mesh_in_order).
  vm_compute. by eexists.
Defined.

(** ** More on assembled stores *)

Lemma payload_more o o' :
  payload o = payload o' ->
  NodeData o = NodeData o' ∧ IsMesh o = IsMesh o' ∧ class_ o = class_ o' ∧
  Attributes o = Attributes o'.
Proof.
  intros H.
  repeat split;
    [ apply (f_equal NodeData) in H | apply (f_equal IsMesh) in H
    | apply (f_equal class_) in H | apply (f_equal Attributes) in H ]; exact H.
Qed.

Lemma same_payload_Some (h h' : list Object) (x : addr) (o' : Object) :
  payload <$> h' = payload <$> h -> h' !! x = Some o' ->
  ∃ o, h !! x = Some o ∧ payload o = payload o'.
Proof.
  intros Hpay Hx.
  assert (E : payload <$> h !! x = Some (payload o'))
    by (by rewrite <- list_lookup_fmap, <- Hpay, list_lookup_fmap, Hx).
  destruct (h !! x) as [o|]; [|discriminate E].
  cbn [fmap option_fmap option_map] in E. apply Some_eq_inv in E. by exists o.
Qed.

Lemma add_child_Ret_registry fuel p c s s' :
  add_child fuel p c s = (Ret tt, s') ->
  ∀ x, registry (heap s') x = registry (heap s) x ∨
       (is_mesh (heap s) c = true ∧
        ∃ l, registry (heap s) x = Some l ∧ registry (heap s') x = Some (l ++ [c])).
Proof.
  intros Hrun. unfold add_child, give_parent in Hrun.
  apply bind_Ret_inv in Hrun as ([] & s1 & H1 & Hrun).
  apply update_Ret in H1 as (op & Hp & ->).
  apply bind_Ret_inv in Hrun as ([] & s2 & H2 & Hrun).
  apply update_Ret in H2 as (oc & Hc & ->). cbn [heap built] in *.
  apply bind_Ret_inv in Hrun as (oc' & s3 & Hd & Hrun).
  pose proof (deref_inv _ _ _ _ Hd) as ->.
  unfold deref in Hd. cbn [heap] in Hd.
  rewrite (lookup_update_eq _ _ _ _ Hc) in Hd.
  assert (oc' = with_Parent (Some p) oc) as -> by congruence. clear Hd.
  cbn [IsMesh with_Parent] in Hrun.
  set (h1 := <[p := with_Children (Children op ++ [c]) op]> (heap s)) in *.
  set (h2 := <[c := with_Parent (Some p) oc]> h1) in *.
  assert (Hreg2 : ∀ x, registry h2 x = registry (heap s) x).
  { intros x. unfold h2.
    destruct (accessors_insert _ c oc (with_Parent (Some p) oc) x Hc)
      as (_ & _ & _ & _ & -> & _).
    assert (E1 : registry h1 x = registry (heap s) x).
    { unfold h1.
      destruct (accessors_insert _ p op (with_Children (Children op ++ [c]) op) x Hp)
        as (_ & _ & _ & _ & -> & _).
      destruct (decide (x = p)) as [->|]; [|done].
      by destruct (accessors_lookup _ _ _ Hp) as (_ & _ & _ & -> & _). }
    destruct (decide (x = c)) as [->|]; [|done].
    cbn [ListOfMeshes with_Parent]. rewrite <- E1.
    by destruct (accessors_lookup _ _ _ Hc) as (_ & _ & _ & -> & _). }
  assert (Hmesh : is_mesh (heap s) c = IsMesh oc).
  { assert (Hc0 : ∃ oc0, heap s !! c = Some oc0 ∧ IsMesh oc0 = IsMesh oc).
    { unfold h1 in Hc. rewrite (lookup_update _ _ _ _ _ Hp) in Hc.
      destruct (decide (p = c)) as [->|].
      - apply Some_eq_inv in Hc. subst oc. by exists op.
      - by exists oc. }
    destruct Hc0 as (oc0 & Hc0 & <-).
    by destruct (accessors_lookup _ _ _ Hc0) as (_ & _ & -> & _). }
  intros x. destruct (IsMesh oc).
  - destruct (populate_meshlist_effect _ _ _ _ _ _ Hrun)
      as [[_ [e ?]]|(a & o & l & Ha & _ & Hl & _ & ->)]; [discriminate|].
    cbn [heap] in *.
    destruct (accessors_insert _ a o (with_ListOfMeshes (Some (l ++ [c])) o) x Ha)
      as (_ & _ & _ & _ & -> & _).
    destruct (decide (x = a)) as [->|]; [|left; apply Hreg2].
    right. split; [done|]. exists l. split; [|done].
    rewrite <- Hreg2. by destruct (accessors_lookup _ _ _ Ha) as (_ & _ & _ & -> & _).
  - left. unfold ret in Hrun. injection Hrun as <-. apply Hreg2.
Qed.

(** X24: whatever the order of the calls, in a store assembled with
    [add_child] a [ListOfMeshes] is found on Models only, every entry of it
    is a mesh-bearing node that a call attached, and no record has been
    built: [get_data] returns [None] for every node. *)
Theorem assembled_registry_entries
    (calls : list (addr * addr)) (s : State) :
  assembled calls s ->
  (∀ x l, registry (heap s) x = Some l ->
     class_of (heap s) x = Some KModel ∧
     ∀ y, y ∈ l -> is_mesh (heap s) y = true ∧ y ∈ snd <$> calls) ∧
  (∀ x, is_Some (heap s !! x) -> get_data x s = (Ret None, s)).
Proof.
  induction 1 as [h Hall|calls s fuel p c s' Hasm [IHreg IHdata] Hrun].
  - assert (Hcon : ∀ x o, h !! x = Some o -> constructed o).
    { intros x o Hx. rewrite Forall_forall in Hall. apply Hall.
      by eapply list_elem_of_lookup_2. }
    split.
    + intros x l Hl. cbn [heap] in Hl.
      destruct (h !! x) as [o|] eqn:Hx; [|by unfold registry in Hl; rewrite Hx in Hl].
      destruct (accessors_lookup _ _ _ Hx) as (_ & _ & _ & Hr & Hk).
      rewrite Hr in Hl. cbn [heap]. rewrite Hk.
      pose proof (Hcon x o Hx) as Ho.
      split; [f_equal; apply (constructed_registry o Ho); by eexists|].
      destruct (constructed_fresh o Ho) as (_ & _ & [E|E]); rewrite E in Hl;
        [discriminate|]. apply Some_eq_inv in Hl. subst l.
      by intros y ?%elem_of_nil.
    + intros x [o Hx]. rewrite (get_data_Some _ _ _ Hx). do 2 f_equal.
      destruct (Hcon x o Hx) as (v & name & kwargs & Hv).
      assert (HJ : v ≠ Joint) by (intros ->; discriminate Hv).
      assert (HE : v ≠ Emitter) by (intros ->; discriminate Hv).
      destruct (Construct_five v name kwargs HJ HE)
        as (o' & Ho' & _ & _ & _ & _ & _ & _ & Hnd & _).
      congruence.
  - destruct (add_child_effect _ _ _ _ _ _ Hrun) as [(Hpay & _ & _) _].
    destruct (add_child_Ret_children _ _ _ _ _ Hrun) as [Hc _].
    assert (Hmesh : ∀ y, is_mesh (heap s') y = is_mesh (heap s) y).
    { intros y. unfold is_mesh.
      destruct (heap s' !! y) as [o'|] eqn:Hy.
      - destruct (same_payload_Some _ _ _ _ Hpay Hy) as (o & -> & E).
        simpl. by destruct (payload_more _ _ E) as (_ & -> & _).
      - assert (E : payload <$> heap s !! y = None)
          by (by rewrite <- list_lookup_fmap, <- Hpay, list_lookup_fmap, Hy).
        by destruct (heap s !! y). }
    assert (Hclass : ∀ y, class_of (heap s') y = class_of (heap s) y).
    { intros y. unfold class_of.
      destruct (heap s' !! y) as [o'|] eqn:Hy.
      - destruct (same_payload_Some _ _ _ _ Hpay Hy) as (o & -> & E).
        simpl. by destruct (payload_more _ _ E) as (_ & _ & -> & _).
      - assert (E : payload <$> heap s !! y = None)
          by (by rewrite <- list_lookup_fmap, <- Hpay, list_lookup_fmap, Hy).
        by destruct (heap s !! y). }
    split.
    + intros x l' Hl'. rewrite Hclass. rewrite fmap_app.
      destruct (add_child_Ret_registry _ _ _ _ _ Hrun x) as [E|(Hm & l & Hl & E)].
      * rewrite E in Hl'. destruct (IHreg x l' Hl') as [Hk Hin].
        split; [done|]. intros y Hy. destruct (Hin y Hy) as [? ?].
        rewrite Hmesh. split; [done|]. apply elem_of_app. by left.
      * rewrite E in Hl'. apply Some_eq_inv in Hl'. subst l'.
        destruct (IHreg x l Hl) as [Hk Hin]. split; [done|].
        intros y [Hy| ->%list_elem_of_singleton]%elem_of_app; rewrite Hmesh.
        -- destruct (Hin y Hy) as [? ?]. split; [done|]. apply elem_of_app. by left.
        -- split; [done|]. apply elem_of_app. right. apply list_elem_of_here.
    + intros x [o' Hx]. rewrite (get_data_Some _ _ _ Hx). do 2 f_equal.
      destruct (same_payload_Some _ _ _ _ Hpay Hx) as (o & Ho & E).
      destruct (payload_more _ _ E) as (<- & _).
      pose proof (IHdata x (ex_intro _ o Ho)) as Hd.
      rewrite (get_data_Some _ _ _ Ho) in Hd. congruence.
Qed.

(** [nested_Models], assembled out of order: the Mesh is registered on
    [Sub]. *)
Lemma assembled_registry_entries_witness :
  (∀ x l, registry (heap nested_Models) x = Some l ->
     class_of (heap nested_Models) x = Some KModel ∧
     ∀ y, y ∈ l -> is_mesh (heap nested_Models) y = true ∧
                   y ∈ snd <$> [(1, 2); (0, 1)]) ∧
  (∀ x, is_Some (heap nested_Models !! x) ->
        get_data x nested_Models = (Ret None, nested_Models)).
Proof.
  apply (assembled_registry_entries [(1, 2); (0, 1)] nested_Models).
  destruct example_objects_constructed as (HR & HS & HM & _).
  set (s0 := mkState [Root; Sub; M1] []).
  set (s1 := run (add_child 3 1 2) s0).
  assert (E : nested_Models = run (add_child 3 0 1) s1) by (vm_compute; reflexivity).
  rewrite E. apply (assembled_add [(1, 2)] s1 3 0 1).
  - apply (assembled_add [] s0 3 1 2).
    + apply assembled_new. repeat constructor; assumption.
    + vm_compute. reflexivity.
  - vm_compute. reflexivity.
Defined.

(** X25: what the constructor was given reaches the attributes.  For a
    Reference, the SCENEGRAPH attribute is the [Scenegraph] keyword argument
    (the placeholder text when none was given), whatever the data.  For a
    Collision, whatever the data and the outcome, the attributes start with
    TYPE, the [CollisionType] keyword argument ("Mesh" when none was given).
    For a Mesh, MESHLINK is the constructor's name followed by "Shape". *)
Theorem constructor_arguments_in_attributes
    (name : string) (kwargs : pydict) (data : option pydict) :
  (∃ o, Construct Reference name kwargs = Ret o ∧
        create_attributes data o =
          (Ret tt,
           with_Attributes
             (Some [mkAttribute "SCENEGRAPH"
                      (dict_get kwargs "Scenegraph"
                         (PyStr Reference_default_Scenegraph))]) o)) ∧
  (∃ o, Construct Collision name kwargs = Ret o ∧
        ∃ l, Attributes (snd (create_attributes data o)) =
               Some (mkAttribute "TYPE"
                       (dict_get kwargs "CollisionType" (PyStr "Mesh")) :: l)) ∧
  (∃ o, Construct Mesh name kwargs = Ret o ∧
        ∀ s', create_attributes data o = (Ret tt, s') ->
              mkAttribute "MESHLINK" (PyStr (name +:+ "Shape")) ∈
                default [] (Attributes s')).
Proof.
  split; [|split].
  - assert (HJ : Reference ≠ Joint) by done.
    assert (HE : Reference ≠ Emitter) by done.
    destruct (Construct_five Reference name kwargs HJ HE) as (o & Ho & Hc & _).
    exists o. split; [done|].
    assert (Hsg : dict_ o !! "Scenegraph" =
                  Some (dict_get kwargs "Scenegraph" (PyStr Reference_default_Scenegraph))).
    { cbn [Construct] in Ho. unfold Reference_init in Ho.
      rewrite super_init_same in Ho. cbn [omap_outcome] in Ho.
      injection Ho as <-. by dict_lookups. }
    cbn [variant_class] in Hc. by run_attributes.
  - assert (HJ : Collision ≠ Joint) by done.
    assert (HE : Collision ≠ Emitter) by done.
    destruct (Construct_five Collision name kwargs HJ HE) as (o & Ho & Hc & _).
    exists o. split; [done|].
    assert (Hct : dict_ o !! "CType" =
                  Some (dict_get kwargs "CollisionType" (PyStr "Mesh"))).
    { cbn [Construct] in Ho. unfold Collision_init in Ho.
      rewrite super_init_same in Ho. cbn [omap_outcome] in Ho.
      destruct (py_eq_str _ _).
      - match type of Ho with context [determine_included_streams ?x] =>
          destruct (determine_included_streams_fields x) as [ps Hps];
          rewrite Hps in Ho end.
        injection Ho as <-. by dict_lookups.
      - injection Ho as <-. by dict_lookups. }
    cbn [variant_class] in Hc.
    generalize dependent (dict_get kwargs "CollisionType" (PyStr "Mesh")).
    intros ct Hct.
    destruct (create_attributes data o) as [r s'] eqn:H. cbn [snd].
    destruct data as [d|]; attribute_cases H; injection H as <- <-;
      cbn [Attributes with_Attributes]; by eexists.
  - assert (HJ : Mesh ≠ Joint) by done.
    assert (HE : Mesh ≠ Emitter) by done.
    destruct (Construct_five Mesh name kwargs HJ HE) as (o & Ho & Hc & Hn & _).
    exists o. split; [done|]. intros s' H.
    cbn [variant_class] in Hc.
    destruct data as [d|]; attribute_cases H; try discriminate H.
    injection H as <-. cbn [Attributes with_Attributes default].
    repeat first [apply list_elem_of_here | apply list_elem_of_further].
Qed.

Lemma constructor_arguments_in_attributes_witness :
  ∃ o, Construct Reference "R1" {[ "Scenegraph" := PyStr "A/B.SCENE.MBIN" ]} = Ret o ∧
       Attributes (snd (create_attributes None o)) =
         Some [mkAttribute "SCENEGRAPH" (PyStr "A/B.SCENE.MBIN")].
Proof.
  destruct (proj1 (constructor_arguments_in_attributes "R1"
                     {[ "Scenegraph" := PyStr "A/B.SCENE.MBIN" ]} None))
    as (o & Ho & H).
  exists o. split; [exact Ho|]. rewrite H. cbn [snd Attributes with_Attributes].
  vm_compute. reflexivity.
Defined.
